(** * xlog: the byte accumulator, the entry encoders and the cores

    A shallow embedding of the Go package [xlog] (builder.go, entry.go,
    the console and JSON encoders, core.go, writer.go, error.go) and the
    properties of its rendering and write paths.

    Conventions of the embedding:
    - a Go [string] and a Go [[]byte] are lists of bytes ([list ascii]);
    - a Go [int], [int64] or [uint64] is a [Z], with the wrap-around of a
      conversion written out ([uint64]);
    - a fixed array such as [var buf [40]byte] is a list of that length,
      written by index with stdpp's insert; the running index [w] is a
      [nat], and the decrement of an index that is already [0] followed by
      the indexed write is the run-time panic of Go (index out of range);
    - a function that can panic returns an [option]: [None] is the panic. *)

From Stdlib Require Import ZArith Ascii String List Lia Bool.
From Stdlib Require Import DecimalString HexadecimalString.
From stdpp Require Import base option list.
Import ListNotations.

Local Open Scope Z_scope.
Set Warnings "-register-all".

(** ** Bytes *)

Abbreviation bytes := (list ascii).

(** A string literal as the byte sequence Go stores for it. *)
Definition B (s : string) : bytes := list_ascii_of_string s.

(** The conversion [byte(x)] of a non-negative integer. *)
Definition byte_of_Z (z : Z) : ascii := ascii_of_N (Z.to_N (z mod 256)).

(** The conversion [uint64(x)] of a signed integer. *)
Definition uint64 (z : Z) : Z := z mod 2 ^ 64.

(** ['0'] is byte 48. *)
Definition digit_byte (d : Z) : ascii := byte_of_Z (d + 48).

Definition is_byte (c : ascii) (s : string) : bool :=
  match s with
  | String c' EmptyString => Ascii.eqb c c'
  | _ => false
  end.

(** ** builder.go: the cheap integer formatters *)

(** The loop of [fmtInt]:
    [for i >= 10 || wid > 1 { wid--; w--; buf[w] = byte(i%10) + '0'; i /= 10 }]. *)
Fixpoint fmtInt_loop (buf : bytes) (w : nat) (i wid : Z)
  : option (bytes * nat * Z) :=
  if (10 <=? i) || (1 <? wid) then
    match w with
    | O => None
    | S w' => fmtInt_loop (<[w' := digit_byte (i mod 10)]> buf) w' (i / 10) (wid - 1)
    end
  else Some (buf, w, i).

(** [fmtInt(buf[:w], i, wid)]: decimal digits of [i] written right to left
    below index [w], zero-padded to [wid] digits. Returns the array and the
    index of the first byte written. *)
Definition fmtInt (buf : bytes) (w : nat) (i wid : Z) : option (bytes * nat) :=
  '(buf, w, i) ← fmtInt_loop buf w i wid;
  match w with
  | O => None
  | S w' => Some (<[w' := byte_of_Z (48 + i)]> buf, w')
  end.

(** The loop of [fmtFrac], [prec] iterations. *)
Fixpoint fmtFrac_loop (n : nat) (buf : bytes) (w : nat) (print : bool) (v : Z)
  : option (bytes * nat * bool * Z) :=
  match n with
  | O => Some (buf, w, print, v)
  | S n' =>
      let digit := v mod 10 in
      let print := print || negb (digit =? 0) in
      if print then
        match w with
        | O => None
        | S w' => fmtFrac_loop n' (<[w' := digit_byte digit]> buf) w' print (v / 10)
        end
      else fmtFrac_loop n' buf w print (v / 10)
  end.

(** [fmtFrac(buf[:w], v, prec)]: the fraction of [v/10**prec] without its
    trailing zeros, and [v/10**prec]. *)
Definition fmtFrac (buf : bytes) (w : nat) (v prec : Z) : option (bytes * nat * Z) :=
  '(buf, w, print, v) ← fmtFrac_loop (Z.to_nat prec) buf w false v;
  if (print : bool) then
    match w with
    | O => None
    | S w' => Some (<[w' := "."%char]> buf, w', v)
    end
  else Some (buf, w, v).

(** [for m > 0 { nano /= 10; m-- }] *)
Fixpoint div10_loop (m : nat) (nano : Z) : Z :=
  match m with
  | O => nano
  | S m' => div10_loop m' (nano / 10)
  end.

(** [for buf[l-1] == '0' { l-- }] *)
Fixpoint trim_loop (buf : bytes) (l : nat) : option nat :=
  match l with
  | O => None
  | S l' =>
      c ← buf !! l';
      if is_byte c "0" then trim_loop buf l' else Some l
  end.

(** [copy(buf[w+zeroNum:], buf[w:])] on the slice [buf[:n]] of the array. *)
Definition copy_up (buf : bytes) (n w zeroNum : nat) : option bytes :=
  if (w + zeroNum <=? n)%nat then
    Some (take (w + zeroNum) buf ++ take (n - (w + zeroNum)) (drop w buf) ++ drop n buf)
  else None.

(** [fmtNano(buf[:n], nano, wid, trimZeroSuffix)] *)
Definition fmtNano (buf : bytes) (n : nat) (nano wid : Z) (trimZeroSuffix : bool)
  : option (bytes * nat) :=
  let nano := div10_loop (Z.to_nat (9 - wid)) nano in
  if (0 <? nano) || negb trimZeroSuffix then
    '(buf, w) ← fmtInt buf n nano wid;
    '(buf, w) ←
      (if trimZeroSuffix then
         l ← trim_loop buf n;
         let zeroNum := (n - l)%nat in
         if (0 <? zeroNum)%nat then
           buf ← copy_up buf n w zeroNum;
           Some (buf, (w + zeroNum)%nat)
         else Some (buf, w)
       else Some (buf, w));
    match w with
    | O => None
    | S w' => Some (<[w' := "."%char]> buf, w')
    end
  else Some (buf, n).

(** ** builder.go: Builder

    Only the accumulated bytes are modelled: capacity is not observable
    through any operation below. *)

Record Builder := mkBuilder { buf : bytes }.

Definition Builder_Len (b : Builder) : nat := length (buf b).
Definition Builder_Write (b : Builder) (p : bytes) : Builder := mkBuilder (buf b ++ p).
Definition Builder_WriteString (b : Builder) (s : bytes) : Builder := mkBuilder (buf b ++ s).
Definition Builder_WriteByte (b : Builder) (c : ascii) : Builder := mkBuilder (buf b ++ [c]).

(** [w--; buf[w] = c] *)
Definition put (buf : bytes) (w : nat) (c : ascii) : option (bytes * nat) :=
  match w with
  | O => None
  | S w' => Some (<[w' := c]> buf, w')
  end.

Definition Nanosecond_d : Z := 1.
Definition Microsecond_d : Z := 1000.
Definition Millisecond_d : Z := 1000000.
Definition Second_d : Z := 1000000000.

(** [Builder.AppendDuration(d)], [d] an [int64]. *)
Definition AppendDuration (b : Builder) (d : Z) : option Builder :=
  let buf0 := replicate 32 Ascii.zero in
  let w := 32%nat in
  let u := uint64 d in
  let neg := d <? 0 in
  let u := if neg then uint64 (- u) else u in
  '(b, buf, w) ←
    (if u <? uint64 Second_d then
       '(buf, w) ← put buf0 w "s"%char;
       let w := (w - 1)%nat in
       '(b, buf, w, prec) ←
         (if u =? 0 then Some (Builder_WriteString b (B "0s"), buf, w, 0)
          else if u <? uint64 Microsecond_d then
            Some (b, <[w := "n"%char]> buf, w, 0)
          else if u <? uint64 Millisecond_d then
            let w := (w - 1)%nat in
            Some (b, <[S w := ascii_of_nat 181]> (<[w := ascii_of_nat 194]> buf), w, 3)
          else Some (b, <[w := "m"%char]> buf, w, 6));
       '(buf, w, u) ← fmtFrac buf w u prec;
       '(buf, w) ← fmtInt buf w u (-1);
       Some (b, buf, w)
     else
       '(buf, w) ← put buf0 w "s"%char;
       '(buf, w, u) ← fmtFrac buf w u 9;
       '(buf, w) ← fmtInt buf w (u mod 60) (-1);
       let u := u / 60 in
       if 0 <? u then
         '(buf, w) ← put buf w "m"%char;
         '(buf, w) ← fmtInt buf w (u mod 60) (-1);
         let u := u / 60 in
         if 0 <? u then
           '(buf, w) ← put buf w "h"%char;
           '(buf, w) ← fmtInt buf w u (-1);
           Some (b, buf, w)
         else Some (b, buf, w)
       else Some (b, buf, w));
  '(buf, w) ← (if neg then put buf w "-"%char else Some (buf, w));
  Some (Builder_Write b (drop w buf)).

Definition empty_Builder : Builder := mkBuilder [].

(** ** builder.go: the timestamp flags *)

Definition Tdate : Z := 1.
Definition Ttimeprefix : Z := 2.
Definition Ttime : Z := 4.
Definition Tmilliseconds : Z := 8.
Definition Tmicroseconds : Z := 16.
Definition Tnanoseconds : Z := 32.
Definition TnineFlag : Z := 64.
Definition Tzone : Z := 128.
Definition Tdatetime : Z := Z.lor Tdate Ttime.
Definition TdatetimeMilli : Z := Z.lor (Z.lor Tdate Ttime) Tmilliseconds.
Definition TdatetimeMicro : Z := Z.lor (Z.lor Tdate Ttime) Tmicroseconds.
Definition TdatetimeNano : Z := Z.lor (Z.lor Tdate Ttime) Tnanoseconds.
Definition Trfc3339 : Z := Z.lor (Z.lor (Z.lor Tdate Ttimeprefix) Ttime) Tzone.
Definition Trfc3339Nano : Z :=
  Z.lor (Z.lor (Z.lor (Z.lor (Z.lor Tdate Ttimeprefix) Ttime) Tnanoseconds) TnineFlag) Tzone.

(** [flag&mask != 0] *)
Definition has (flag mask : Z) : bool := negb (Z.land flag mask =? 0).

(** A [time.Time] as [AppendTime] observes it: the results of [t.Date()],
    [t.Clock()], [t.Nanosecond()] and the offset in seconds east of UTC that
    [t.Zone()] returns. *)
Record Time := mkTime {
  Year : Z; Month : Z; Day : Z;
  Hour : Z; Minute : Z; Second : Z;
  Nanosecond : Z;
  ZoneOffset : Z
}.

(** [Builder.AppendTime(t, flag)]. Go's [/] and [%] on [int] truncate
    towards zero ([Z.quot], [Z.rem]). *)
Definition AppendTime (b : Builder) (t : Time) (flag : Z) : option Builder :=
  let buf := replicate 40 Ascii.zero in
  let w := 40%nat in
  '(buf, w) ←
    (if has flag Tzone then
       let intervalSecond := ZoneOffset t in
       if intervalSecond =? 0 then put buf w "Z"%char
       else
         let prefix := if intervalSecond <? 0 then "-"%char else "+"%char in
         let hour := Z.quot intervalSecond 3600 in
         let min := Z.rem (Z.quot intervalSecond 60) 60 in
         '(buf, w) ← fmtInt buf w (uint64 min) 2;
         '(buf, w) ← put buf w ":"%char;
         '(buf, w) ← fmtInt buf w (uint64 hour) 2;
         put buf w prefix
     else Some (buf, w));
  '(buf, w) ←
    (if has flag (Z.lor (Z.lor (Z.lor Ttime Tmilliseconds) Tmicroseconds) Tzone) then
       '(buf, w) ←
         (if has flag (Z.lor (Z.lor Tmilliseconds Tmicroseconds) Tnanoseconds) then
            if has flag Tnanoseconds then
              fmtNano buf w (uint64 (Nanosecond t)) 9 (has flag TnineFlag)
            else if has flag Tmicroseconds then
              fmtNano buf w (uint64 (Nanosecond t)) 6 (has flag TnineFlag)
            else
              fmtNano buf w (uint64 (Nanosecond t)) 3 (has flag TnineFlag)
          else Some (buf, w));
       '(buf, w) ← fmtInt buf w (uint64 (Second t)) 2;
       '(buf, w) ← put buf w ":"%char;
       '(buf, w) ← fmtInt buf w (uint64 (Minute t)) 2;
       '(buf, w) ← put buf w ":"%char;
       '(buf, w) ← fmtInt buf w (uint64 (Hour t)) 2;
       if has flag Tdate then
         put buf w (if has flag Ttimeprefix then "T"%char else " "%char)
       else Some (buf, w)
     else Some (buf, w));
  '(buf, w) ←
    (if has flag Tdate then
       '(buf, w) ← fmtInt buf w (uint64 (Day t)) 2;
       '(buf, w) ← put buf w "-"%char;
       '(buf, w) ← fmtInt buf w (uint64 (Month t)) 2;
       '(buf, w) ← put buf w "-"%char;
       fmtInt buf w (uint64 (Year t)) 4
     else Some (buf, w));
  Some (Builder_Write b (drop w buf)).

(** The timestamp of the repository's core tests:
    [time.Date(2019, 1, 18, 12, 0, 35, 9876, time.UTC)]. *)
Definition t_2019 : Time := mkTime 2019 1 18 12 0 35 9876 0.

(** ** error.go *)

(** A Go [error] value: [nil], the package's own [*multiError], or any other
    error (told apart by its message). *)
Inductive error :=
| nil_error
| plain_error (msg : string)
| multiError (errors : list error).

Definition is_nil (e : error) : bool :=
  match e with nil_error => true | _ => false end.

(** [combineErrors(left, right)] *)
Definition combineErrors (left right : error) : error :=
  match left, right with
  | nil_error, _ => right
  | _, nil_error => left
  | _, _ =>
      let flat (e : error) :=
        match e with
        | multiError es => es
        | _ => [e]
        end in
      multiError (flat left ++ flat right)
  end.

(** [io.ErrShortWrite] *)
Definition ErrShortWrite : error := plain_error "short write".

(** ** Standard-library formatters used by the builder

    [strconv], [unicode/utf8] and [encoding/base64] belong to Go's standard
    library, not to the package; these are their results on the inputs the
    builder passes. *)

(** [strconv.AppendBool] *)
Definition strconv_Bool (v : bool) : bytes := if v then B "true" else B "false".

(** [strconv.AppendInt(_, i, 10)] *)
Definition strconv_Int (i : Z) : bytes :=
  B (DecimalString.NilZero.string_of_int (Z.to_int i)).

(** [strconv.AppendUint(_, i, 10)] *)
Definition strconv_Uint (i : Z) : bytes :=
  B (DecimalString.NilZero.string_of_uint (N.to_uint (Z.to_N i))).

(** [strconv.AppendUint(_, i, 16)] *)
Definition strconv_Uint16 (i : Z) : bytes :=
  B (HexadecimalString.NilZero.string_of_uint (N.to_hex_uint (Z.to_N i))).

Definition byteZ (c : ascii) : Z := Z.of_N (N_of_ascii c).

Definition RuneError : Z := 65533.

(** [utf8.DecodeRuneInString]: the rune at the head of [s] and its width;
    [(RuneError, 1)] for an invalid encoding. *)
Definition utf8_DecodeRuneInString (s : bytes) : Z * nat :=
  match s with
  | [] => (RuneError, 0%nat)
  | c0 :: rest =>
      let s0 := byteZ c0 in
      if s0 <? 128 then (s0, 1%nat)
      else if (s0 <? 194) || (244 <? s0) then (RuneError, 1%nat)
      else
        let sz := if s0 <? 224 then 2%nat else if s0 <? 240 then 3%nat else 4%nat in
        let lo := if s0 =? 224 then 160 else if s0 =? 240 then 144 else 128 in
        let hi := if s0 =? 237 then 159 else if s0 =? 244 then 143 else 191 in
        let cont (c : ascii) := (128 <=? byteZ c) && (byteZ c <=? 191) in
        let low6 (c : ascii) := Z.land (byteZ c) 63 in
        if (length s <? sz)%nat then (RuneError, 1%nat)
        else
          match rest with
          | c1 :: rest1 =>
              if (byteZ c1 <? lo) || (hi <? byteZ c1) then (RuneError, 1%nat)
              else if (sz <=? 2)%nat then
                (Z.lor (Z.shiftl (Z.land s0 31) 6) (low6 c1), 2%nat)
              else
                match rest1 with
                | c2 :: rest2 =>
                    if negb (cont c2) then (RuneError, 1%nat)
                    else if (sz <=? 3)%nat then
                      (Z.lor (Z.lor (Z.shiftl (Z.land s0 15) 12) (Z.shiftl (low6 c1) 6))
                         (low6 c2), 3%nat)
                    else
                      match rest2 with
                      | c3 :: _ =>
                          if negb (cont c3) then (RuneError, 1%nat)
                          else
                            (Z.lor (Z.lor (Z.lor (Z.shiftl (Z.land s0 7) 18)
                                             (Z.shiftl (low6 c1) 12))
                                      (Z.shiftl (low6 c2) 6)) (low6 c3), 4%nat)
                      | [] => (RuneError, 1%nat)
                      end
                | [] => (RuneError, 1%nat)
                end
          | [] => (RuneError, 1%nat)
          end
  end.

(** The alphabet of [base64.StdEncoding]. *)
Definition encodeStd : bytes :=
  B "ABCDEFGHIJKLMNOPQRSTUVWXYZabcdefghijklmnopqrstuvwxyz0123456789+/".

Definition b64 (i : Z) : ascii := nth (Z.to_nat i) encodeStd "="%char.

(** [base64.StdEncoding.Encode]: three bytes to four characters, the rest
    padded with ['=']. *)
Fixpoint base64_Encode (src : bytes) : bytes :=
  match src with
  | [] => []
  | [a] =>
      let v := Z.shiftl (byteZ a) 16 in
      [b64 (Z.land (Z.shiftr v 18) 63); b64 (Z.land (Z.shiftr v 12) 63);
       "="%char; "="%char]
  | [a; b] =>
      let v := Z.lor (Z.shiftl (byteZ a) 16) (Z.shiftl (byteZ b) 8) in
      [b64 (Z.land (Z.shiftr v 18) 63); b64 (Z.land (Z.shiftr v 12) 63);
       b64 (Z.land (Z.shiftr v 6) 63); "="%char]
  | a :: b :: c :: rest =>
      let v := Z.lor (Z.lor (Z.shiftl (byteZ a) 16) (Z.shiftl (byteZ b) 8)) (byteZ c) in
      b64 (Z.land (Z.shiftr v 18) 63) :: b64 (Z.land (Z.shiftr v 12) 63)
      :: b64 (Z.land (Z.shiftr v 6) 63) :: b64 (Z.land v 63) :: base64_Encode rest
  end.

(** ** builder.go: quoting *)

(** [safeSet] and [htmlSafeSet], as [init] fills them. *)
Definition safeSet (c : Z) : bool :=
  (32 <=? c) && (c <? 128) && negb (c =? 92) && negb (c =? 34).

Definition htmlSafeSet (c : Z) : bool :=
  (32 <=? c) && (c <? 128) && negb (c =? 92) && negb (c =? 34)
  && negb (c =? 60) && negb (c =? 62) && negb (c =? 38).

(** [_hex[i]] *)
Definition _hex (i : Z) : ascii := nth (Z.to_nat i) (B "0123456789abcdef") Ascii.zero.

(** [s[i:j]] *)
Definition slice (s : bytes) (i j : nat) : bytes := take (j - i) (drop i s).

(** The loop of [appendEscape]; every round advances [i], so [length s]
    rounds are enough. It returns the builder and [start]. *)
Fixpoint appendEscape_loop (fuel : nat) (safe : Z -> bool) (s : bytes)
    (b : Builder) (start i : nat) : Builder * nat :=
  match fuel with
  | O => (b, start)
  | S fuel =>
      match s !! i with
      | None => (b, start)
      | Some ch =>
          let c := byteZ ch in
          let flush (b : Builder) :=
            if (start <? i)%nat then Builder_WriteString b (slice s start i) else b in
          if c <? 128 then
            if safe c then appendEscape_loop fuel safe s b start (S i)
            else
              let b := flush b in
              let b := Builder_WriteByte b "\"%char in
              let b :=
                if (c =? 92) || (c =? 34) then Builder_WriteByte b ch
                else if c =? 10 then Builder_WriteByte b "n"%char
                else if c =? 13 then Builder_WriteByte b "r"%char
                else if c =? 9 then Builder_WriteByte b "t"%char
                else
                  let b := Builder_WriteString b (B "u00") in
                  let b := Builder_WriteByte b (_hex (Z.shiftr c 4)) in
                  Builder_WriteByte b (_hex (Z.land c 15)) in
              appendEscape_loop fuel safe s b (S i) (S i)
          else
            let '(r, size) := utf8_DecodeRuneInString (drop i s) in
            if (r =? RuneError) && (size =? 1)%nat then
              let b := flush b in
              let b := Builder_WriteString b (B "\ufffd") in
              appendEscape_loop fuel safe s b (i + size)%nat (i + size)%nat
            else if (r =? 8232) || (r =? 8233) then
              let b := flush b in
              let b := Builder_WriteString b (B "\u202") in
              let b := Builder_WriteByte b (_hex (Z.land r 15)) in
              appendEscape_loop fuel safe s b (i + size)%nat (i + size)%nat
            else appendEscape_loop fuel safe s b start (i + size)%nat
      end
  end.

Definition appendEscape (b : Builder) (s : bytes) (safe : Z -> bool) : Builder :=
  let '(b, start) := appendEscape_loop (length s) safe s b 0 0 in
  if (start <? length s)%nat then Builder_WriteString b (drop start s) else b.

Definition quote : ascii := ascii_of_nat 34.

Definition AppendQuote (b : Builder) (s : bytes) : Builder :=
  let b := Builder_WriteByte b quote in
  let b := appendEscape b s safeSet in
  Builder_WriteByte b quote.

Definition AppendHTMLQuote (b : Builder) (s : bytes) : Builder :=
  let b := Builder_WriteByte b quote in
  let b := appendEscape b s htmlSafeSet in
  Builder_WriteByte b quote.

Definition AppendBool (b : Builder) (v : bool) : Builder :=
  mkBuilder (buf b ++ strconv_Bool v).
Definition AppendInt (b : Builder) (i : Z) : Builder :=
  mkBuilder (buf b ++ strconv_Int i).
Definition AppendUint (b : Builder) (i : Z) : Builder :=
  mkBuilder (buf b ++ strconv_Uint i).
Definition AppendUintptr (b : Builder) (p : Z) : Builder :=
  let b := Builder_WriteString b (B "0x") in
  mkBuilder (buf b ++ strconv_Uint16 p).

(** [Builder.AppendByteSlice(v)]: the base64 text is encoded in place in
    the grown buffer. *)
Definition AppendByteSlice (b : Builder) (v : bytes) : Builder :=
  mkBuilder (buf b ++ base64_Encode v).

(** ** The sinks

    A sink outside the package is known by the calls made on it: the
    history of the run is the list of those calls, oldest first, and what a
    call returns is a function of the history before it. *)

Inductive Event :=
| EvWrite (sink : nat) (p : bytes)
| EvSync (sink : nat)
| EvFlush (sink : nat).

Abbreviation World := (list Event).

(** ** The package over its external collaborators *)

(** Floating-point values are the machine's; [Float] stands for a [float64]
    (a [float32] is passed on as its [float64] conversion together with
    [bits = 32]). [Other] is a Go value of a type the package has no case
    for. *)
Class ExternalTypes := {
  Float : Type;
  Other : Type
}.

Section Xlog.

Context {ET : ExternalTypes}.

Inductive IntKind := Kint | Kint8 | Kint16 | Kint32 | Kint64.
Inductive UintKind := Kuint | Kuint8 | Kuint16 | Kuint32 | Kuint64.
Inductive FloatKind := Kfloat32 | Kfloat64.
Inductive ComplexKind := Kcomplex64 | Kcomplex128.

Definition float_bits (k : FloatKind) : Z :=
  match k with Kfloat32 => 32 | Kfloat64 => 64 end.
Definition complex_bits (k : ComplexKind) : Z :=
  match k with Kcomplex64 => 32 | Kcomplex128 => 64 end.

(** The dynamic type and value of an [interface{}], by the cases of
    [AppendJSON] and [Field.appendTo]. A pointer is [Some] of its target or
    the nil pointer [None]; a slice is [Some] of its elements or the nil
    slice [None]. *)
Inductive Value : Type :=
| VNil
| VString (v : bytes) | VPString (p : option bytes) | VStrings (v : option (list bytes))
| VBool (v : bool) | VPBool (p : option bool) | VBools (v : option (list bool))
| VInt (k : IntKind) (v : Z) | VPInt (k : IntKind) (p : option Z)
| VInts (k : IntKind) (v : option (list Z))
| VUint (k : UintKind) (v : Z) | VPUint (k : UintKind) (p : option Z)
| VUints (k : UintKind) (v : option (list Z))
| VUintptr (v : Z) | VUnsafePointer (v : Z)
| VFloat (k : FloatKind) (v : Float) | VPFloat (k : FloatKind) (p : option Float)
| VFloats (k : FloatKind) (v : option (list Float))
| VComplex (k : ComplexKind) (v : Float * Float)
| VPComplex (k : ComplexKind) (p : option (Float * Float))
| VComplexes (k : ComplexKind) (v : option (list (Float * Float)))
| VDuration (v : Z) | VPDuration (p : option Z)
| VTime (v : Time) | VPTime (p : option Time)
| VError (msg : bytes)
| VField (f : Field)
| VO (o : list Field)
| VOs (v : list (list Field))
| VOther (x : Other)
with Field : Type :=
| F (Key : bytes) (Val : Value).

(** What the package calls outside itself. *)
Class Externals := {
  (** The cutoff test of [appendFloat], done in floating point: [abs != 0]
      and the value is below [1e-6] or at least [1e21] at the precision of
      [bits]. *)
  exp_form : Float -> Z -> bool;
  (** [strconv.AppendFloat(_, f, fmt, -1, bits)] *)
  strconv_Float : Float -> ascii -> Z -> bytes;
  (** [json.Encoder.Encode(v)] of the builder's reflection encoder: the
      bytes it writes to the builder through [Builder.Write], and its
      error. *)
  reflectEnc_Encode : Value -> bytes * error;
  (** [Level.consoleString] and [Level.CapitalString] of level.go, which is
      not among the sources. *)
  consoleString : Z -> bytes;
  CapitalString : Z -> bytes;
  (** [time.Time.UTC] *)
  Time_UTC : Time -> Time
}.

Context {EX : Externals}.

(** [Builder.appendFloat(f, bits)] with its clean-up of [e-09] to [e-9]. *)
Definition appendFloat (b : Builder) (f : Float) (bits : Z) : Builder :=
  let fmt := if exp_form f bits then "e"%char else "f"%char in
  let s := buf b ++ strconv_Float f fmt bits in
  if exp_form f bits then
    let n := length s in
    match s !! (n - 4)%nat, s !! (n - 3)%nat, s !! (n - 2)%nat, s !! (n - 1)%nat with
    | Some c4, Some c3, Some c2, Some c1 =>
        if (4 <=? n)%nat && is_byte c4 "e" && is_byte c3 "-" && is_byte c2 "0"
        then mkBuilder (take (n - 1) (<[(n - 2)%nat := c1]> s))
        else mkBuilder s
    | _, _, _, _ => mkBuilder s
    end
  else mkBuilder s.

Definition AppendFloat32 (b : Builder) (f : Float) : Builder := appendFloat b f 32.
Definition AppendFloat64 (b : Builder) (f : Float) : Builder := appendFloat b f 64.

(** [AppendComplex64] and [AppendComplex128], on the real and imaginary
    parts. *)
Definition AppendComplex (bits : Z) (b : Builder) (val : Float * Float) : Builder :=
  let '(r, i) := val in
  let b := appendFloat b r bits in
  let b := Builder_WriteByte b "+"%char in
  let b := appendFloat b i bits in
  Builder_WriteByte b "i"%char.

(** [for i, e := range v { if i > 0 { b.WriteByte(',') }; ... e ... }] *)
Fixpoint range_comma {A : Type} (f : Builder -> A -> Builder) (i : nat)
    (b : Builder) (v : list A) : Builder :=
  match v with
  | [] => b
  | e :: v' =>
      let b := if (0 <? i)%nat then Builder_WriteByte b ","%char else b in
      range_comma f (S i) (f b e) v'
  end.

Definition appendNullOrElse (b : Builder) (isNil : bool) (elseOp : Builder -> Builder)
  : Builder :=
  if isNil then Builder_WriteString b (B "null") else elseOp b.

(** A slice case of [AppendJSON] other than [[]uint8]. *)
Definition is_nil_slice {A : Type} (v : option (list A)) : bool :=
  match v with None => true | Some _ => false end.

Definition appendSlice {A : Type} (f : Builder -> A -> Builder) (b : Builder)
    (v : option (list A)) : Builder :=
  appendNullOrElse b (is_nil_slice v)
    (fun b =>
       let b := Builder_WriteByte b "["%char in
       let b := range_comma f 0 b (default [] v) in
       Builder_WriteByte b "]"%char).

(** [Builder.AppendJSON(iv)]: the builder and the returned error; [None]
    when the call panics (a nil pointer is dereferenced, or a formatter
    runs off its fixed buffer). *)
Definition AppendJSON (b : Builder) (iv : Value) : option (Builder * error) :=
  let ok (b : Builder) := Some (b, nil_error) in
  let quoted (f : Builder -> Builder) (b : Builder) :=
    Builder_WriteByte (f (Builder_WriteByte b quote)) quote in
  match iv with
  | VNil => ok (Builder_WriteString b (B "null"))
  | VPString p => v ← p; ok (AppendHTMLQuote b v)
  | VString v => ok (AppendHTMLQuote b v)
  | VStrings v => ok (appendSlice AppendHTMLQuote b v)
  | VPBool p => v ← p; ok (AppendBool b v)
  | VBool v => ok (AppendBool b v)
  | VBools v => ok (appendSlice AppendBool b v)
  | VPInt _ p => v ← p; ok (AppendInt b v)
  | VInt _ v => ok (AppendInt b v)
  | VInts _ v => ok (appendSlice AppendInt b v)
  | VPUint _ p => v ← p; ok (AppendUint b v)
  | VUint _ v => ok (AppendUint b v)
  | VUints Kuint8 v =>
      ok (appendNullOrElse b (is_nil_slice v)
            (quoted (fun b => AppendByteSlice b (map byte_of_Z (default [] v)))))
  | VUints _ v => ok (appendSlice AppendUint b v)
  | VUintptr v => ok (AppendUint b v)
  | VUnsafePointer v => ok (AppendUintptr b v)
  | VPFloat k p => v ← p; ok (appendFloat b v (float_bits k))
  | VFloat k v => ok (appendFloat b v (float_bits k))
  | VFloats k v => ok (appendSlice (fun b e => appendFloat b e (float_bits k)) b v)
  | VPComplex k p => v ← p; ok (quoted (fun b => AppendComplex (complex_bits k) b v) b)
  | VComplex k v => ok (quoted (fun b => AppendComplex (complex_bits k) b v) b)
  | VComplexes k v =>
      ok (appendSlice (fun b e => quoted (fun b => AppendComplex (complex_bits k) b e) b) b v)
  | VPDuration p =>
      v ← p; b ← AppendDuration (Builder_WriteByte b quote) v;
      ok (Builder_WriteByte b quote)
  | VDuration v =>
      b ← AppendDuration (Builder_WriteByte b quote) v;
      ok (Builder_WriteByte b quote)
  | VPTime p =>
      v ← p; b ← AppendTime (Builder_WriteByte b quote) v Trfc3339Nano;
      ok (Builder_WriteByte b quote)
  | VTime v =>
      b ← AppendTime (Builder_WriteByte b quote) v Trfc3339Nano;
      ok (Builder_WriteByte b quote)
  | VError msg => ok (AppendHTMLQuote b msg)
  | VField _ | VO _ | VOs _ | VOther _ =>
      let len := Builder_Len b in
      let '(written, err) := reflectEnc_Encode iv in
      let b := Builder_Write b written in
      if is_nil err then
        (* ignore json.Encoder last '\n' *)
        if (Builder_Len b =? 0)%nat then None
        else Some (mkBuilder (take (Builder_Len b - 1) (buf b)), err)
      else Some (mkBuilder (take len (buf b)), err)
  end.

(** ** entry.go *)

(** [Field.appendTo(b)]; the error of [AppendJSON] is dropped, as in the
    source. The local [O_appendTo] is [O.appendTo] on a nested object. *)
Fixpoint Field_appendTo (b : Builder) (f : Field) {struct f} : option Builder :=
  let O_appendTo :=
    fix go (i : nat) (b : Builder) (o : list Field) {struct o} : option Builder :=
      match o with
      | [] => Some b
      | f :: o' =>
          b ← Field_appendTo (if (0 <? i)%nat then Builder_WriteByte b ","%char else b) f;
          go (S i) b o'
      end in
  match f with
  | F Key Val =>
      let b := AppendQuote b Key in
      let b := Builder_WriteByte b ":"%char in
      match Val with
      | VField v =>
          b ← Field_appendTo (Builder_WriteByte b "{"%char) v;
          Some (Builder_WriteByte b "}"%char)
      | VO v =>
          b ← O_appendTo 0%nat (Builder_WriteByte b "{"%char) v;
          Some (Builder_WriteByte b "}"%char)
      | VOs v =>
          let b := Builder_WriteByte b "["%char in
          b ← (fix objs (i : nat) (b : Builder) (v : list (list Field)) {struct v}
                 : option Builder :=
                 match v with
                 | [] => Some b
                 | fs :: v' =>
                     let b := if (0 <? i)%nat then Builder_WriteByte b ","%char else b in
                     b ← O_appendTo 0%nat (Builder_WriteByte b "{"%char) fs;
                     objs (S i) (Builder_WriteByte b "}"%char) v'
                 end) 0%nat b v;
          Some (Builder_WriteByte b "]"%char)
      | _ => '(b, _) ← AppendJSON b Val; Some b
      end
  end.

(** The loop of [O.appendTo], from index [i]. *)
Fixpoint O_appendTo_from (i : nat) (b : Builder) (o : list Field) : option Builder :=
  match o with
  | [] => Some b
  | f :: o' =>
      b ← Field_appendTo (if (0 <? i)%nat then Builder_WriteByte b ","%char else b) f;
      O_appendTo_from (S i) b o'
  end.

(** [O.appendTo(b)] *)
Definition O_appendTo (b : Builder) (o : list Field) : option Builder :=
  O_appendTo_from 0 b o.

Record EntryCaller := mkEntryCaller {
  Defined : bool;
  PC : Z;
  File : bytes;
  Line : Z
}.

Record Entry := mkEntry {
  Level : Z;
  Time_ : Time;
  Caller : EntryCaller;
  Message : bytes;
  Fields : list Field;
  LoggerName : bytes;
  Ctx : list Field
}.

(** ** Levels

    Modelled from the spec: level.go is not among the sources. The levels
    are the ordered enumeration Debug < Info < Warn < Error < Panic < Fatal
    with bounds [_minLevel] and [_maxLevel]; the numbering is the one the
    table of [NewTee] needs (it has [_maxLevel + 2] slots and is indexed
    with [lvl + 1] from [_minLevel] on). *)

Definition DebugLevel : Z := -1.
Definition InfoLevel : Z := 0.
Definition WarnLevel : Z := 1.
Definition ErrorLevel : Z := 2.
Definition PanicLevel : Z := 3.
Definition FatalLevel : Z := 4.
Definition _minLevel : Z := DebugLevel.
Definition _maxLevel : Z := FatalLevel.

(** ** The encoders *)

Definition Ldate : Z := 1.
Definition Ltime : Z := 2.
Definition Lmicroseconds : Z := 4.
Definition Llongfile : Z := 8.
Definition Lshortfile : Z := 16.
Definition LUTC : Z := 32.
Definition LstdFlags : Z := Z.lor Ldate Ltime.

Definition timeFlags (flags : Z) : Z :=
  let tflag := 0 in
  let tflag := if has flags Ldate then Z.lor tflag Tdate else tflag in
  let tflag := if has flags Ltime then Z.lor tflag Ttime else tflag in
  let tflag := if has flags Lmicroseconds then Z.lor tflag Tmicroseconds else tflag in
  tflag.

(** [for i := len(file) - 1; i > 0; i-- { if file[i] == '/' { short = file[i+1:]; break } }] *)
Fixpoint callerFile_loop (file : bytes) (i : nat) : bytes :=
  match i with
  | O => file
  | S i' =>
      if is_byte (nth i file Ascii.zero) "/" then drop (S i) file
      else callerFile_loop file i'
  end.

Definition callerFile (file : bytes) (flags : Z) : bytes :=
  if has flags Lshortfile then callerFile_loop file (length file - 1) else file.

Definition newline : ascii := ascii_of_nat 10.

Definition is_empty {A : Type} (s : list A) : bool :=
  match s with [] => true | _ => false end.

(** [consoleEncoder.Encode(b, e)] *)
Definition consoleEncoder_Encode (flags : Z) (b : Builder) (e : Entry)
  : option (Builder * error) :=
  (* Level *)
  let b := Builder_WriteString b (consoleString (Level e)) in
  (* Time *)
  let tflag := timeFlags flags in
  b ← (if negb (tflag =? 0) then
         let t := Time_ e in
         let t := if has flags LUTC then Time_UTC t else t in
         let b := Builder_WriteByte b " "%char in
         b ← AppendTime b t tflag;
         Some (Builder_WriteByte b " "%char)
       else Some (Builder_WriteByte b " "%char));
  (* Name *)
  let i := 0%nat in
  let '(b, i) :=
    if negb (is_empty (LoggerName e))
    then (Builder_WriteString b (LoggerName e), S i) else (b, i) in
  (* Caller *)
  let '(b, i) :=
    if has flags (Z.lor Llongfile Lshortfile) && Defined (Caller e) then
      let b := if (0 <? i)%nat then Builder_WriteByte b ":"%char else b in
      let b := Builder_WriteString b (callerFile (File (Caller e)) flags) in
      let b := Builder_WriteByte b ":"%char in
      let b := AppendInt b (Line (Caller e)) in
      (b, S i)
    else (b, i) in
  (* Message *)
  let b := if (0 <? i)%nat then Builder_WriteString b (B ": ") else b in
  let b := Builder_WriteString b (Message e) in
  let b := Builder_WriteByte b newline in
  (* Fields *)
  if (0 <? length (Ctx e))%nat || (0 <? length (Fields e))%nat then
    let b := Builder_WriteString b (B " -  ") in
    let b := Builder_WriteByte b "{"%char in
    '(b, i) ←
      (if (0 <? length (Ctx e))%nat then
         b ← O_appendTo b (Ctx e); Some (b, length (Ctx e))
       else Some (b, 0%nat));
    b ←
      (if (0 <? length (Fields e))%nat then
         let b := if (0 <? i)%nat then Builder_WriteByte b ","%char else b in
         O_appendTo b (Fields e)
       else Some b);
    Some (Builder_WriteString b ("}"%char :: [newline]), nil_error)
  else Some (b, nil_error).

(** [jsonEncoder.Encode(b, e)] *)
Definition jsonEncoder_Encode (flags : Z) (b : Builder) (e : Entry)
  : option (Builder * error) :=
  let b := Builder_WriteByte b "{"%char in
  let b := Builder_WriteString b (quote :: B "level" ++ [quote; ":"%char; quote]) in
  let b := Builder_WriteString b (CapitalString (Level e)) in
  let b := Builder_WriteByte b quote in
  let b := Builder_WriteString b (","%char :: quote :: B "time" ++ [quote; ":"%char]) in
  let b := Builder_WriteByte b quote in
  b ← AppendTime b (Time_ e) Trfc3339Nano;
  let b := Builder_WriteByte b quote in
  let b :=
    if negb (is_empty (LoggerName e)) then
      let b := Builder_WriteString b (","%char :: quote :: B "logger" ++ [quote; ":"%char]) in
      AppendHTMLQuote b (LoggerName e)
    else b in
  let b :=
    if has flags (Z.lor Llongfile Lshortfile) && Defined (Caller e) then
      let b := Builder_WriteString b
                 (","%char :: quote :: B "caller" ++ [quote; ":"%char; quote]) in
      let b := Builder_WriteString b (callerFile (File (Caller e)) flags) in
      let b := Builder_WriteByte b ":"%char in
      let b := AppendInt b (Line (Caller e)) in
      Builder_WriteByte b quote
    else b in
  let b := Builder_WriteString b (","%char :: quote :: B "msg" ++ [quote; ":"%char]) in
  let b := AppendHTMLQuote b (Message e) in
  b ← (if (0 <? length (Ctx e))%nat then
         O_appendTo (Builder_WriteByte b ","%char) (Ctx e)
       else Some b);
  b ← (if (0 <? length (Fields e))%nat then
         O_appendTo (Builder_WriteByte b ","%char) (Fields e)
       else Some b);
  Some (Builder_WriteString b ("}"%char :: [newline]), nil_error).

(** The interface [Encoder]: the two encoders of the package, or any
    other implementation. *)
Inductive Encoder :=
| consoleEncoder (flags : Z)
| jsonEncoder (flags : Z)
| otherEncoder (Encode : Builder -> Entry -> option (Builder * error)).

Definition Encoder_Encode (enc : Encoder) (b : Builder) (e : Entry)
  : option (Builder * error) :=
  match enc with
  | consoleEncoder flags => consoleEncoder_Encode flags b e
  | jsonEncoder flags => jsonEncoder_Encode flags b e
  | otherEncoder Encode => Encode b e
  end.

(** ** writer.go *)

(** An [io.Writer] from outside the package, with its [Sync] and [Flush]
    methods when it has them. *)
Record Sink := mkSink {
  sink_id : nat;
  sink_Write : World -> bytes -> Z * error;
  sink_Sync : option (World -> error);
  sink_Flush : option (World -> error)
}.

(** The writers of the package, and the bound methods [w.Sync] and
    [w.Flush] that [getSyncFunc] returns. *)
Inductive Writer :=
| sinkWriter (s : Sink)
| lockedWriter (w : Writer) (sync : option SyncFunc)
| multiWriter (writers : list Writer) (syncs : list SyncFunc)
with SyncFunc :=
| Sync_of (w : Writer)
| Flush_of (s : Sink).

(** [getSyncFunc(w)] *)
Definition getSyncFunc (w : Writer) : option SyncFunc :=
  match w with
  | sinkWriter s =>
      match sink_Sync s, sink_Flush s with
      | Some _, _ => Some (Sync_of w)
      | None, Some _ => Some (Flush_of s)
      | None, None => None
      end
  | _ => Some (Sync_of w)
  end.

(** [Lock(w)] *)
Definition Lock (w : Writer) : Writer :=
  match w with
  | lockedWriter _ _ => w
  | _ => lockedWriter w (getSyncFunc w)
  end.

(** [MultiWriter(writers...)] *)
Fixpoint MultiWriter_loop (writers : list Writer) (allWriters : list Writer)
    (allSyncs : list SyncFunc) : Writer :=
  match writers with
  | [] => multiWriter allWriters allSyncs
  | w :: writers' =>
      match w with
      | multiWriter mws msyncs =>
          MultiWriter_loop writers' (allWriters ++ mws) (allSyncs ++ msyncs)
      | _ =>
          MultiWriter_loop writers' (allWriters ++ [w])
            (match getSyncFunc w with
             | Some sync => allSyncs ++ [sync]
             | None => allSyncs
             end)
      end
  end.

Definition MultiWriter (writers : list Writer) : Writer :=
  MultiWriter_loop writers [] [].

Section Loops.
Context {W : Type}.

(** The loop of [multiWriter.Write] over the writers. *)
Fixpoint multiWriter_Write_loop (write : W -> World -> World * (Z * error))
    (len_p : Z) (ws : list W) (h : World) (n : Z) (err : error)
  : World * (Z * error) :=
  match ws with
  | [] => (h, (n, err))
  | w :: ws' =>
      let '(h, (wn, werr)) := write w h in
      if negb (is_nil werr) then
        multiWriter_Write_loop write len_p ws' h n (combineErrors err werr)
      else
        let err := if negb (wn =? len_p) then combineErrors err ErrShortWrite else err in
        let n := if n <? wn then wn else n in
        multiWriter_Write_loop write len_p ws' h n err
  end.

(** The loop of [multiWriter.Sync]: [err = combineErrors(err, sync())]. *)
Fixpoint multiWriter_Sync_loop (call : W -> World -> World * error)
    (syncs : list W) (h : World) (err : error) : World * error :=
  match syncs with
  | [] => (h, err)
  | sync :: syncs' =>
      let '(h, serr) := call sync h in
      multiWriter_Sync_loop call syncs' h (combineErrors err serr)
  end.

(** The loops of [multiCore.Write] and [multiCore.Sync]:
    [if cerr != nil { err = combineErrors(err, cerr) }]; [None] when a
    child panics. *)
Fixpoint multiCore_loop (run : W -> World -> option (World * error))
    (cores : list W) (h : World) (err : error) : option (World * error) :=
  match cores with
  | [] => Some (h, err)
  | c :: cores' =>
      '(h, cerr) ← run c h;
      multiCore_loop run cores' h
        (if negb (is_nil cerr) then combineErrors err cerr else err)
  end.
End Loops.

(** [w.Write(p)] for the writers of the package and the sinks. *)
Fixpoint Writer_Write (w : Writer) (p : bytes) (h : World) {struct w}
  : World * (Z * error) :=
  match w with
  | sinkWriter s => (h ++ [EvWrite (sink_id s) p], sink_Write s h p)
  | lockedWriter w _ => Writer_Write w p h
  | multiWriter writers _ =>
      multiWriter_Write_loop (fun w h => Writer_Write w p h)
        (Z.of_nat (length p)) writers h 0 nil_error
  end.

(** [w.Sync()] when [w] has the method, and the call of a bound method. *)
Fixpoint Writer_Sync (w : Writer) (h : World) {struct w} : World * error :=
  match w with
  | sinkWriter s =>
      match sink_Sync s with
      | Some f => (h ++ [EvSync (sink_id s)], f h)
      | None => (h, nil_error)
      end
  | lockedWriter _ sync =>
      match sync with
      | None => (h, nil_error)
      | Some sync => SyncFunc_call sync h
      end
  | multiWriter _ syncs =>
      multiWriter_Sync_loop (fun sync h => SyncFunc_call sync h) syncs h nil_error
  end
with SyncFunc_call (sync : SyncFunc) (h : World) {struct sync} : World * error :=
  match sync with
  | Sync_of w => Writer_Sync w h
  | Flush_of s =>
      match sink_Flush s with
      | Some f => (h ++ [EvFlush (sink_id s)], f h)
      | None => (h, nil_error)
      end
  end.

(** ** core.go *)

(** [LevelEnabler]: anything with [Enabled(Level) bool]. *)
Definition LevelEnabler := Z -> bool.

(** The cores of the package. *)
Inductive Core :=
| nopCore
| ioCore (enc : Encoder) (w : Writer) (enab : LevelEnabler) (sync : option SyncFunc)
| multiCore (cores : list Core) (levelsEnabled : list bool).

(** [NewCore(enc, w, enab)] *)
Definition NewCore (enc : Encoder) (w : Writer) (enab : LevelEnabler) : Core :=
  ioCore enc w enab (getSyncFunc w).

(** [c.Enabled(lvl)] *)
Definition Core_Enabled (c : Core) (lvl : Z) : bool :=
  match c with
  | nopCore => false
  | ioCore _ _ enab _ => enab lvl
  | multiCore _ levelsEnabled =>
      if (lvl <? _minLevel) || (_maxLevel <? lvl) then false
      else nth (Z.to_nat (lvl + 1)) levelsEnabled false
  end.

(** [getBuilder()]: a pooled builder, reset. *)
Definition getBuilder : Builder := mkBuilder [].

(** [ioCore.Sync()] *)
Definition ioCore_Sync (sync : option SyncFunc) (h : World) : World * error :=
  match sync with
  | Some sync => SyncFunc_call sync h
  | None => (h, nil_error)
  end.

(** [ioCore.Write(e)] *)
Definition ioCore_Write (enc : Encoder) (w : Writer) (sync : option SyncFunc)
    (e : Entry) (h : World) : option (World * error) :=
  let b := getBuilder in
  '(b, err) ← Encoder_Encode enc b e;
  let '(h, err) :=
    if is_nil err then
      let '(h, (_, err)) := Writer_Write w (buf b) h in (h, err)
    else (h, err) in
  if is_nil err && (ErrorLevel <=? Level e) then Some (ioCore_Sync sync h)
  else Some (h, err).

(** [c.Write(e)] *)
Fixpoint Core_Write (c : Core) (e : Entry) (h : World) {struct c}
  : option (World * error) :=
  match c with
  | nopCore => Some (h, nil_error)
  | ioCore enc w _ sync => ioCore_Write enc w sync e h
  | multiCore cores _ => multiCore_loop (fun c h => Core_Write c e h) cores h nil_error
  end.

(** [c.Sync()] *)
Fixpoint Core_Sync (c : Core) (h : World) {struct c} : option (World * error) :=
  match c with
  | nopCore => Some (h, nil_error)
  | ioCore _ _ _ sync => Some (ioCore_Sync sync h)
  | multiCore cores _ => multiCore_loop (fun c h => Core_Sync c h) cores h nil_error
  end.

(** The first loop of [NewTee]: children of a [*multiCore] are inlined. *)
Fixpoint NewTee_flatten (cores : list Core) (allCores : list Core) : list Core :=
  match cores with
  | [] => allCores
  | c :: cores' =>
      NewTee_flatten cores'
        (match c with
         | multiCore mcs _ => allCores ++ mcs
         | _ => allCores ++ [c]
         end)
  end.

(** [for lvl := _minLevel; lvl < _maxLevel+1; lvl++
       { if c.Enabled(lvl) { levelsEnabled[lvl+1] = true } }] *)
Fixpoint NewTee_levels_of (c : Core) (lvls : list Z) (levelsEnabled : list bool)
  : list bool :=
  match lvls with
  | [] => levelsEnabled
  | lvl :: lvls' =>
      NewTee_levels_of c lvls'
        (if Core_Enabled c lvl then <[Z.to_nat (lvl + 1) := true]> levelsEnabled
         else levelsEnabled)
  end.

Fixpoint NewTee_levels (allCores : list Core) (levelsEnabled : list bool) : list bool :=
  match allCores with
  | [] => levelsEnabled
  | c :: allCores' =>
      NewTee_levels allCores'
        (NewTee_levels_of c (seqZ _minLevel (_maxLevel + 1 - _minLevel)) levelsEnabled)
  end.

(** [NewTee(cores...)] *)
Definition NewTee (cores : list Core) : Core :=
  match cores with
  | [] => nopCore
  | [c] => c
  | _ =>
      let allCores := NewTee_flatten cores [] in
      let levelsEnabled :=
        NewTee_levels allCores (replicate (Z.to_nat (_maxLevel + 2)) false) in
      multiCore allCores levelsEnabled
  end.

End Xlog.

(** ** builder.go: Truncate and Reset *)

(** [Builder.Truncate(n)]; [None] is its panic. *)
Definition Builder_Truncate (b : Builder) (n : Z) : option Builder :=
  if (n <? 0) || (Z.of_nat (Builder_Len b) <? n) then None
  else Some (mkBuilder (take (Z.to_nat n) (buf b))).

(** [Builder.Reset()] *)
Definition Builder_Reset (b : Builder) : Builder := mkBuilder (take 0 (buf b)).

(** ** error.go: the messages *)

Definition _singlelineSeparator : bytes := B "; ".

(** [err.Error()]: the message of an error from outside the package, and
    [multiError.Error()], which joins the messages of its items; [None] for
    the call on a nil interface, which panics. The local [writeSingleline]
    is [multiError.writeSingleline] on the items. *)
Fixpoint error_Error (e : error) : option bytes :=
  let writeSingleline :=
    fix go (first : bool) (w : Builder) (items : list error) {struct items}
      : option Builder :=
      match items with
      | [] => Some w
      | item :: items' =>
          let w := if first then w else Builder_Write w _singlelineSeparator in
          s ← error_Error item;
          go false (Builder_WriteString w s) items'
      end in
  match e with
  | nil_error => None
  | plain_error msg => Some (B msg)
  | multiError errors => b ← writeSingleline true getBuilder errors; Some (buf b)
  end.

(** [multiError.writeSingleline(w)] *)
Fixpoint writeSingleline (first : bool) (w : Builder) (items : list error)
  : option Builder :=
  match items with
  | [] => Some w
  | item :: items' =>
      let w := if first then w else Builder_Write w _singlelineSeparator in
      s ← error_Error item;
      writeSingleline false (Builder_WriteString w s) items'
  end.

(** [strings.IndexByte(s, c)]: the index of the first [c] in [s], or -1. *)
Fixpoint strings_IndexByte (s : bytes) (c : ascii) : Z :=
  match s with
  | [] => -1
  | x :: s' =>
      if Ascii.eqb x c then 0
      else let i := strings_IndexByte s' c in if i <? 0 then -1 else i + 1
  end.

(** The loop of [writePrefixLine]; every round takes at least one byte of
    [s], so [length s] rounds are enough. *)
Fixpoint writePrefixLine_loop (fuel : nat) (w : Builder) (prefix : bytes) (first : bool)
    (s : bytes) : Builder :=
  match fuel with
  | O => w
  | S fuel =>
      if (0 <? length s)%nat then
        let w := if first then w else Builder_Write w prefix in
        let idx := strings_IndexByte s newline in
        let idx := if idx <? 0 then Z.of_nat (length s) - 1 else idx in
        let w := Builder_WriteString w (take (Z.to_nat (idx + 1)) s) in
        writePrefixLine_loop fuel w prefix false (drop (Z.to_nat (idx + 1)) s)
      else w
  end.

(** [writePrefixLine(w, prefix, s)], on a builder as the writer. *)
Definition writePrefixLine (w : Builder) (prefix s : bytes) : Builder :=
  writePrefixLine_loop (length s) w prefix true s.

(** ** entry.go: the caller of a log call *)

(** [strings.LastIndexByte(s, c)]: the index of the last [c] in [s], or -1. *)
Fixpoint strings_LastIndexByte (s : bytes) (c : ascii) : Z :=
  match s with
  | [] => -1
  | x :: s' =>
      let i := strings_LastIndexByte s' c in
      if 0 <=? i then i + 1 else if Ascii.eqb x c then 0 else -1
  end.

Fixpoint bytes_eqb (x y : bytes) : bool :=
  match x, y with
  | [], [] => true
  | a :: x', c :: y' => Ascii.eqb a c && bytes_eqb x' y'
  | _, _ => false
  end.

(** [callerCache], a [sync.Map] from a file name to the name reported for
    it: the entries stored, newest first. *)
Definition Cache := list (bytes * bytes).

(** [callerCache.Load(key)] *)
Fixpoint Cache_Load (cache : Cache) (key : bytes) : option bytes :=
  match cache with
  | [] => None
  | (k, v) :: cache' => if bytes_eqb k key then Some v else Cache_Load cache' key
  end.

(** [callerCache.Store(key, value)] *)
Definition Cache_Store (cache : Cache) (key value : bytes) : Cache := (key, value) :: cache.

(** What the facade asks of the run-time system and of [fmt] and [path]. *)
Class Runtime `{ExternalTypes} := {
  (** [runtime.FuncForPC(pc).Name()] *)
  FuncForPC_Name : Z -> bytes;
  (** [path.Base] *)
  path_Base : bytes -> bytes;
  (** [fmt.Sprint] and [fmt.Sprintf] *)
  fmt_Sprint : list Value -> bytes;
  fmt_Sprintf : bytes -> list Value -> bytes;
  (** [time.Now()] during the call *)
  time_Now : Time;
  (** [runtime.Caller(skip)] during the call: [(pc, file, line, ok)] *)
  runtime_Caller : Z -> Z * bytes * Z * bool
}.

Section Facade.

Context {ET : ExternalTypes} {EX : Externals} {RT : Runtime}.

(** [NewEntryCaller(pc, file, line, ok)], with the cache before and after. *)
Definition NewEntryCaller (cache : Cache) (pc : Z) (file : bytes) (line : Z) (ok : bool)
  : Cache * EntryCaller :=
  if negb ok then (cache, mkEntryCaller true 0 (B "???") 0)
  else
    let '(cache, file) :=
      match Cache_Load cache file with
      | Some ifile => (cache, ifile)
      | None =>
          let shortFile := path_Base file in
          let key := file in
          let funcName := FuncForPC_Name pc in
          let i := strings_LastIndexByte funcName "/" in
          let file :=
            if 0 <=? i then
              let i := i + 1 in
              let j := strings_IndexByte (drop (Z.to_nat i) funcName) "." in
              if 0 <=? j then
                let i := i + j in
                take (Z.to_nat i) funcName ++ B "/" ++ shortFile
              else file
            else file in
          (Cache_Store cache key file, file)
      end in
    (cache, mkEntryCaller true pc file line).

(** ** options.go and logger.go *)

(** A Go [int], 64 bits wide: the value [z] wraps to. *)
Definition wrap_int (z : Z) : Z := (z + 2 ^ 63) mod 2 ^ 64 - 2 ^ 63.

Record Logger := mkLogger {
  core : Core;
  addCaller : bool;
  callerSkip : Z;
  name : bytes;
  ctx : list Field
}.

(** The options of the package; [Fields_] is [Fields(fs...)]. *)
Inductive Option :=
| Named (s : bytes)
| Fields_ (fs : list Field)
| AddCaller
| AddCallerSkip (skip : Z).

(** [opt.apply(log)] *)
Definition Option_apply (opt : Option) (log : Logger) : Logger :=
  match opt with
  | Named s =>
      if is_empty s then log
      else if is_empty (name log) then
        mkLogger (core log) (addCaller log) (callerSkip log) s (ctx log)
      else
        (* strings.Join([]string{log.name, s}, ".") *)
        mkLogger (core log) (addCaller log) (callerSkip log)
          (name log ++ B "." ++ s) (ctx log)
  | Fields_ fs =>
      if (length fs =? 0)%nat then log
      else mkLogger (core log) (addCaller log) (callerSkip log) (name log) (ctx log ++ fs)
  | AddCaller => mkLogger (core log) true (callerSkip log) (name log) (ctx log)
  | AddCallerSkip skip =>
      mkLogger (core log) (addCaller log) (wrap_int (callerSkip log + skip)) (name log) (ctx log)
  end.

(** [for _, opt := range options { opt.apply(log) }] *)
Fixpoint apply_options (options : list Option) (log : Logger) : Logger :=
  match options with
  | [] => log
  | opt :: options' => apply_options options' (Option_apply opt log)
  end.

(** [New(core, options...)]; [None] is the nil [Core]. *)
Definition New (core : option Core) (options : list Option) : Logger :=
  let core := match core with None => nopCore | Some core => core end in
  apply_options options (mkLogger core false 0 [] []).

(** [l.clone()]: the context is copied. *)
Definition Logger_clone (l : Logger) : Logger :=
  mkLogger (core l) (addCaller l) (callerSkip l) (name l) ([] ++ ctx l).

(** [l.With(opts...)] *)
Definition Logger_With (l : Logger) (opts : list Option) : Logger :=
  apply_options opts (Logger_clone l).


(** [messagef(template, args...)] *)
Definition messagef (template : bytes) (args : list Value) : bytes :=
  if is_empty template && (0 <? length args)%nat then fmt_Sprint args
  else if negb (is_empty template) && (0 <? length args)%nat then fmt_Sprintf template args
  else template.

(** How a call of [log] ends: it returns, it panics with a message, or it
    ends the process with an exit status. *)
Inductive Outcome :=
| Returns
| Panics (msg : bytes)
| Exits (code : Z).

(** [l.log(calloffset, lvl, template, fmtArgs, fields)] on the history of
    the sinks and the caller cache; [None] when the core panics. *)
Definition Logger_log (l : Logger) (calloffset lvl : Z) (template : bytes)
    (fmtArgs : list Value) (fields : list Field) (h : World) (cache : Cache)
  : option (World * Cache * Outcome) :=
  if negb (Core_Enabled (core l) lvl) then
    if lvl =? PanicLevel then Some (h, cache, Panics (messagef template fmtArgs))
    else if lvl =? FatalLevel then Some (h, cache, Exits 1)
    else Some (h, cache, Returns)
  else
    let message := messagef template fmtArgs in
    let '(cache, caller) :=
      if addCaller l then
        let '(pc, file, line, ok) := runtime_Caller (wrap_int (callerSkip l + calloffset)) in
        NewEntryCaller cache pc file line ok
      else (cache, mkEntryCaller false 0 [] 0) in
    let e := mkEntry lvl time_Now caller message fields (name l) (ctx l) in
    '(h, _) ← Core_Write (core l) e h;
    if lvl =? PanicLevel then Some (h, cache, Panics message)
    else if lvl =? FatalLevel then Some (h, cache, Exits 1)
    else Some (h, cache, Returns).

End Facade.

(** ** The global logger *)

(** A [*Logger], known by its address. *)
Definition LoggerPtr := nat.

(** The function [ReplaceGlobal] returns: [func() {}], or
    [func() { ReplaceGlobal(prev) }]. *)
Inductive Restore :=
| restore_nothing
| restore_to (prev : LoggerPtr).

(** [ReplaceGlobal(logger)] on the pointer that [globalL] holds: the pointer
    it holds afterwards and the function returned. *)
Definition ReplaceGlobal (globalL : LoggerPtr) (logger : LoggerPtr) : LoggerPtr * Restore :=
  let prev := globalL in
  if (prev =? logger)%nat then (globalL, restore_nothing)
  else (logger, restore_to prev).

(** A call of the returned function. *)
Definition Restore_call (restore : Restore) (globalL : LoggerPtr) : LoggerPtr :=
  match restore with
  | restore_nothing => globalL
  | restore_to prev => fst (ReplaceGlobal globalL prev)
  end.

(** ** Concrete collaborators and inputs

    Stand-ins for what lies outside the sources, used where a property is
    evaluated on an input. *)

#[export] Instance demo_types : ExternalTypes := {| Float := unit; Other := unit |}.

(** The upper-case level names. *)
Definition demo_CapitalString (lvl : Z) : bytes :=
  if lvl =? DebugLevel then B "DEBUG"
  else if lvl =? InfoLevel then B "INFO"
  else if lvl =? WarnLevel then B "WARN"
  else if lvl =? ErrorLevel then B "ERROR"
  else if lvl =? PanicLevel then B "PANIC"
  else if lvl =? FatalLevel then B "FATAL"
  else B "LEVEL".

(** A reflection encoder that fails after it has written part of its
    output, and a [UTC] that is only used on times already in UTC. *)
#[export] Instance demo_externals : Externals := {|
  exp_form := fun _ _ => false;
  strconv_Float := fun _ _ _ => B "0";
  reflectEnc_Encode := fun _ => (B "{partial", plain_error "json: unsupported type");
  consoleString := demo_CapitalString;
  CapitalString := demo_CapitalString;
  Time_UTC := fun t => t
|}.

(** A run-time system that reports the call site of the repository's test
    of [NewEntryCaller]; its [path.Base] is only used on slash-separated
    paths that do not end in a slash. *)
#[export] Instance demo_runtime : Runtime := {|
  FuncForPC_Name := fun _ => B "github.com/cnotch/xlog.TestNewEntryCaller";
  path_Base := fun file => callerFile file Lshortfile;
  fmt_Sprint := fun _ => B "args";
  fmt_Sprintf := fun template _ => template;
  time_Now := t_2019;
  runtime_Caller := fun _ => (4096, B "/go/src/github.com/cnotch/xlog/entry_test.go", 14, true)
|}.


(** The entry of the repository's core tests. *)
Definition e_info : Entry :=
  {| Level := InfoLevel;
     Time_ := t_2019;
     Caller := mkEntryCaller true 0 (B "github.com/cnotch/xlog/core_test.go") 30;
     Message := B "info message";
     Fields := [F (B "int") (VInt Kint 100); F (B "str") (VString (B "ok"))];
     LoggerName := [];
     Ctx := [F (B "instance") (VInt Kint 9000)] |}.

(** A timestamp five hours west of UTC: 2019-01-18 12:00:35 -05:00. *)
Definition t_west : Time := mkTime 2019 1 18 12 0 35 0 (-18000).

(** The test entry, logged five hours west of UTC. *)
Definition e_west : Entry :=
  {| Level := Level e_info; Time_ := t_west; Caller := Caller e_info;
     Message := Message e_info; Fields := Fields e_info;
     LoggerName := LoggerName e_info; Ctx := Ctx e_info |}.

(** ** Definitions used to state the properties *)

(** The zone suffix as the layout [Z07:00] writes it: [Z] for offset zero,
    else the sign and the two-digit hours and minutes of the offset. *)
Definition two_digits (n : Z) : bytes := [digit_byte (n / 10 mod 10); digit_byte (n mod 10)].

Definition layout_zone (offset : Z) : bytes :=
  if offset =? 0 then B "Z"
  else
    let zone := Z.quot offset 60 in
    let sign := if zone <? 0 then "-"%char else "+"%char in
    let zone := Z.abs zone in
    sign :: two_digits (zone / 60) ++ ":"%char :: two_digits (zone mod 60).

(** The reference rendering of a timestamp by the layout that a flag
    combination stands for, as the spec words it: the date [YYYY-MM-DD], the
    separator [T] or space, the time [HH:MM:SS], the fraction of a second
    with 3, 6 or 9 digits (zero-padded, or with the trailing zeros and an
    empty fraction left out), and the zone suffix. *)

(** The [k] low decimal digits of [i], most significant first. *)
Fixpoint pad_digits (k : nat) (i : Z) : bytes :=
  match k with
  | O => []
  | S k' => pad_digits k' (i / 10) ++ [digit_byte (i mod 10)]
  end.

(** The digits without their trailing zeros. *)
Fixpoint strip_zeros (digits : bytes) : bytes :=
  match digits with
  | [] => []
  | c :: rest =>
      match strip_zeros rest with
      | [] => if is_byte c "0" then [] else [c]
      | rest' => c :: rest'
      end
  end.

Definition layout_frac (wid : nat) (trim : bool) (nsec : Z) : bytes :=
  let v := nsec / 10 ^ Z.of_nat (9 - wid) in
  if trim then
    if v =? 0 then [] else "."%char :: strip_zeros (pad_digits wid v)
  else "."%char :: pad_digits wid v.

Definition layout_date (t : Time) : bytes :=
  pad_digits 4 (Year t) ++ "-"%char :: pad_digits 2 (Month t)
  ++ "-"%char :: pad_digits 2 (Day t).

Definition layout_clock (t : Time) : bytes :=
  pad_digits 2 (Hour t) ++ ":"%char :: pad_digits 2 (Minute t)
  ++ ":"%char :: pad_digits 2 (Second t).

Definition layout_format (t : Time) (flag : Z) : bytes :=
  (if has flag Tdate then layout_date t else [])
  ++ (if has flag Ttime then
        (if has flag Tdate then [if has flag Ttimeprefix then "T"%char else " "%char]
         else [])
        ++ layout_clock t
        ++ (if has flag Tnanoseconds then layout_frac 9 (has flag TnineFlag) (Nanosecond t)
            else if has flag Tmicroseconds
                 then layout_frac 6 (has flag TnineFlag) (Nanosecond t)
            else if has flag Tmilliseconds
                 then layout_frac 3 (has flag TnineFlag) (Nanosecond t)
            else [])
      else [])
  ++ (if has flag Tzone then layout_zone (ZoneOffset t) else []).

(** The flag combinations with a layout: the table of the repository's
    test of [AppendTime]. *)
Definition layout_flags : list Z :=
  [Tdate; Ttime; Tdatetime; Z.lor Tdatetime Ttimeprefix;
   TdatetimeMilli; TdatetimeMicro; TdatetimeNano;
   Z.lor TdatetimeMilli TnineFlag; Z.lor TdatetimeMicro TnineFlag;
   Z.lor TdatetimeNano TnineFlag; Trfc3339; Trfc3339Nano].

(** The ranges of the fields of a [time.Time] with a four-digit year. *)
Definition valid_time (t : Time) : Prop :=
  0 <= Year t < 10000 /\ 1 <= Month t <= 12 /\ 1 <= Day t <= 31
  /\ 0 <= Hour t < 24 /\ 0 <= Minute t < 60 /\ 0 <= Second t < 60
  /\ 0 <= Nanosecond t < 1000000000.

(** What a formatter wrote below index [w] of the array: [out], in front of
    what was there, with nothing else of the suffix changed. *)
Definition writes (buf : bytes) (w : nat) (buf' : bytes) (w' : nat) (out : bytes) : Prop :=
  (w' + length out = w)%nat /\ length buf' = length buf
  /\ drop w' buf' = out ++ drop w buf.

(** The decimal digits of [i] without leading zeros; [n] bounds their
    number. *)
Fixpoint decimal_fuel (n : nat) (i : Z) : bytes :=
  match n with
  | O => []
  | S n' =>
      if i <? 10 then [digit_byte i]
      else decimal_fuel n' (i / 10) ++ [digit_byte (i mod 10)]
  end.

(** A [uint64] has at most twenty digits. *)
Definition decimal (i : Z) : bytes := decimal_fuel 20 i.

(** The fraction [v / 10^prec] without its trailing zeros, and nothing at
    all when it is zero. *)
Definition frac_digits (prec : nat) (v : Z) : bytes :=
  match strip_zeros (pad_digits prec v) with
  | [] => []
  | ds => "."%char :: ds
  end.

(** The reference rendering of a duration of [d] nanoseconds, as the spec
    words it. *)
Definition humane (d : Z) : bytes :=
  let u := Z.abs d in
  (if d <? 0 then B "-" else [])
  ++ (if u =? 0 then B "0s"
      else if u <? 1000 then decimal u ++ B "ns"
      else if u <? 1000000 then
        decimal (u / 1000) ++ frac_digits 3 u ++ [ascii_of_nat 194; ascii_of_nat 181; "s"%char]
      else if u <? 1000000000 then
        decimal (u / 1000000) ++ frac_digits 6 u ++ B "ms"
      else
        let s := u / 1000000000 in
        let m := s / 60 in
        let h := m / 60 in
        (if 0 <? h then decimal h ++ B "h" else [])
        ++ (if 0 <? m then decimal (m mod 60) ++ B "m" else [])
        ++ decimal (s mod 60) ++ frac_digits 9 u ++ B "s").

(** The values that reach the default branch of [AppendJSON]. *)
Definition falls_through `{ExternalTypes} (iv : Value) : bool :=
  match iv with
  | VField _ | VO _ | VOs _ | VOther _ => true
  | _ => false
  end.

(** The slice-typed values [AppendJSON] has a case for: [Some None] for a
    nil slice, [Some (Some n)] for a non-nil slice of [n] elements, [None]
    for a value that is no such slice. *)
Definition slice_len `{ExternalTypes} (iv : Value) : option (option nat) :=
  match iv with
  | VStrings v => Some (length <$> v)
  | VBools v => Some (length <$> v)
  | VInts _ v => Some (length <$> v)
  | VUints _ v => Some (length <$> v)
  | VFloats _ v => Some (length <$> v)
  | VComplexes _ v => Some (length <$> v)
  | _ => None
  end.

(** [[]uint8], that is [[]byte]. *)
Definition is_byte_slice `{ExternalTypes} (iv : Value) : bool :=
  match iv with
  | VUints Kuint8 _ => true
  | _ => false
  end.

(** The bytes a builder operation appended to the empty builder. *)
Definition rendered (o : option Builder) : option bytes := buf <$> o.


Definition has_name `{ExternalTypes} (e : Entry) : bool := negb (is_empty (LoggerName e)).

Definition has_caller `{ExternalTypes} (flags : Z) (e : Entry) : bool :=
  has flags (Z.lor Llongfile Lshortfile) && Defined (Caller e).

(** [file:line] *)
Definition caller_text `{ExternalTypes} (flags : Z) (e : Entry) : bytes :=
  callerFile (File (Caller e)) flags ++ ":"%char :: strconv_Int (Line (Caller e)).




(** The members of the JSON line before the fields, after the timestamp
    text [ts]. *)
Definition json_head `{Externals} (flags : Z) (e : Entry) (ts : bytes) : bytes :=
  "{"%char :: quote :: B "level" ++ [quote; ":"%char; quote]
  ++ CapitalString (Level e) ++ [quote]
  ++ ","%char :: quote :: B "time" ++ [quote; ":"%char; quote] ++ ts ++ [quote]
  ++ (if has_name e then
        ","%char :: quote :: B "logger" ++ [quote; ":"%char]
        ++ buf (AppendHTMLQuote empty_Builder (LoggerName e))
      else [])
  ++ (if has_caller flags e then
        ","%char :: quote :: B "caller" ++ [quote; ":"%char; quote]
        ++ caller_text flags e ++ [quote]
      else [])
  ++ ","%char :: quote :: B "msg" ++ [quote; ":"%char]
  ++ buf (AppendHTMLQuote empty_Builder (Message e)).

(** The errors an error value stands for: none for [nil], its list for a
    [*multiError], itself otherwise. *)
Definition errors_of (e : error) : list error :=
  match e with
  | nil_error => []
  | multiError es => es
  | _ => [e]
  end.

(** The calls of a history that are flushes. *)
Definition is_flush (ev : Event) : bool :=
  match ev with
  | EvWrite _ _ => false
  | EvSync _ | EvFlush _ => true
  end.

Definition flushes (h : World) : list Event := List.filter is_flush h.

Definition is_multiCore `{ExternalTypes} (c : Core) : bool :=
  match c with multiCore _ _ => true | _ => false end.

(** What a core contributes to the child list of a fanout: its own children
    when it is a fanout, else itself. *)
Definition inlined `{ExternalTypes} (c : Core) : list Core :=
  match c with
  | multiCore cores _ => cores
  | _ => [c]
  end.

(** The cores the package's constructors return. *)
Inductive built `{ExternalTypes} : Core -> Prop :=
| built_nopCore : built nopCore
| built_NewCore enc w enab : built (NewCore enc w enab)
| built_NewTee cores : Forall built cores -> built (NewTee cores).

(** The children of a fanout are no fanouts. *)
Definition flat `{ExternalTypes} (c : Core) : Prop :=
  match c with
  | multiCore cores _ => Forall (fun c => is_multiCore c = false) cores
  | _ => True
  end.

(** A sink that takes everything and has a [Sync] method. *)
Definition good_sink : Sink :=
  mkSink 1 (fun _ p => (Z.of_nat (length p), nil_error)) (Some (fun _ => nil_error)) None.

(** A sink whose writes and whose [Sync] fail. *)
Definition failing_sink : Sink :=
  mkSink 2 (fun _ _ => (0, plain_error "disk full"))
    (Some (fun _ => plain_error "sync failed")) None.

(** A sink that takes one byte less than it is given and reports no error. *)
Definition short_sink : Sink :=
  mkSink 3 (fun _ p => (Z.of_nat (length p) - 1, nil_error)) None None.

(** An encoder that fails. *)
Definition failing_encoder : Encoder :=
  otherEncoder (fun b _ => Some (b, plain_error "encode failed")).

(** The test entry at the Error level. *)
Definition e_error : Entry :=
  {| Level := ErrorLevel; Time_ := Time_ e_info; Caller := Caller e_info;
     Message := Message e_info; Fields := Fields e_info;
     LoggerName := LoggerName e_info; Ctx := Ctx e_info |}.

(** An enabler that enables every level. *)
Definition all_levels : Z -> bool := fun _ => true.

(** An encoder that writes the message and a newline. *)
Definition message_encoder : Encoder :=
  otherEncoder (fun b e => Some (Builder_WriteString b (Message e ++ [newline]), nil_error)).

(** An enabler that enables no level. *)
Definition no_level : Z -> bool := fun _ => false.

(** A byte that [appendEscape] copies as it is: a safe ASCII byte, or a
    byte of a multi-byte sequence. *)
Definition copied (safe : Z -> bool) (c : ascii) : bool :=
  safe (byteZ c) || (128 <=? byteZ c).

(** No control byte, and none of the bytes an HTML parser reacts to. *)
Definition no_control (c : ascii) : bool := 32 <=? byteZ c.
Definition html_inert (c : ascii) : bool :=
  no_control c && negb (is_byte c "<") && negb (is_byte c ">") && negb (is_byte c "&").

(** What a pointer-typed value points to: [Some None] for a nil pointer,
    [None] for a value that is no pointer. *)
Definition pointee `{ExternalTypes} (iv : Value) : option (option Value) :=
  match iv with
  | VPString p => Some (VString <$> p)
  | VPBool p => Some (VBool <$> p)
  | VPInt k p => Some (VInt k <$> p)
  | VPUint k p => Some (VUint k <$> p)
  | VPFloat k p => Some (VFloat k <$> p)
  | VPComplex k p => Some (VComplex k <$> p)
  | VPDuration p => Some (VDuration <$> p)
  | VPTime p => Some (VTime <$> p)
  | _ => None
  end.

(** A byte other than the slash. *)
Definition not_slash (c : ascii) : bool := negb (is_byte c "/").

(** The texts joined by commas. *)
Fixpoint comma_joined (texts : list bytes) : bytes :=
  match texts with
  | [] => []
  | [t] => t
  | t :: texts' => t ++ ","%char :: comma_joined texts'
  end.

(** The texts of the elements of a non-nil slice of strings, booleans or
    integers (other than bytes), as [AppendJSON] renders each of them. *)
Definition element_texts `{ExternalTypes} (iv : Value) : option (list bytes) :=
  match iv with
  | VStrings (Some v) => Some (map (fun e => buf (AppendHTMLQuote empty_Builder e)) v)
  | VBools (Some v) => Some (map strconv_Bool v)
  | VInts _ (Some v) => Some (map strconv_Int v)
  | VUints Kuint8 _ => None
  | VUints _ (Some v) => Some (map strconv_Uint v)
  | _ => None
  end.

(** [s] with [prefix] put after every newline that is not its last byte. *)
Fixpoint indented (prefix s : bytes) : bytes :=
  match s with
  | [] => []
  | c :: s' =>
      c :: (if Ascii.eqb c newline && negb (is_empty s') then prefix else [])
        ++ indented prefix s'
  end.

(** The messages joined by ["; "]. *)
Fixpoint joined (msgs : list bytes) : bytes :=
  match msgs with
  | [] => []
  | [m] => m
  | m :: msgs' => m ++ _singlelineSeparator ++ joined msgs'
  end.



(** What the sinks of a list return to a write of [p], one after the other,
    from the history [h] on. *)
Fixpoint sink_results (sinks : list Sink) (p : bytes) (h : World) : list (Z * error) :=
  match sinks with
  | [] => []
  | s :: sinks' =>
      sink_Write s h p :: sink_results sinks' p (h ++ [EvWrite (sink_id s) p])
  end.

(** The writes of [p] to the sinks of a list, in order. *)
Definition writes_to (sinks : list Sink) (p : bytes) : World :=
  map (fun s => EvWrite (sink_id s) p) sinks.

(** What a writer contributes to the lists of a [multiWriter]: its own
    writers and syncs when it is one, else itself and its [Sync] or [Flush]
    when it has one. *)
Definition inlined_writers (w : Writer) : list Writer :=
  match w with
  | multiWriter writers _ => writers
  | _ => [w]
  end.

Definition inlined_syncs (w : Writer) : list SyncFunc :=
  match w with
  | multiWriter _ syncs => syncs
  | _ => match getSyncFunc w with Some sync => [sync] | None => [] end
  end.

(** The errors [multiWriter.Write] records for one writer's result. *)
Definition write_errors (len_p : Z) (r : Z * error) : list error :=
  if is_nil (snd r) then
    if fst r =? len_p then [] else [ErrShortWrite]
  else errors_of (snd r).

(** A result of a write of [len_p] bytes that is complete and without
    error. *)
Definition full_write (len_p : Z) (r : Z * error) : bool :=
  is_nil (snd r) && (fst r =? len_p).

(** The largest count among the writers that returned no error. *)
Definition largest_count (rs : list (Z * error)) : Z :=
  foldl (fun n r => if is_nil (snd r) && (n <? fst r) then fst r else n) 0 rs.

(** The flush call a sink receives: [Sync] when it has the method, else
    [Flush] when it has that one, else none. *)
Definition sync_event (s : Sink) : World :=
  match sink_Sync s, sink_Flush s with
  | Some _, _ => [EvSync (sink_id s)]
  | None, Some _ => [EvFlush (sink_id s)]
  | None, None => []
  end.

(** What the flushes of the sinks of a list return, one after the other,
    from the history [h] on. *)
Fixpoint sync_results (sinks : list Sink) (h : World) : list error :=
  match sinks with
  | [] => []
  | s :: sinks' =>
      match sink_Sync s, sink_Flush s with
      | Some f, _ => f h :: sync_results sinks' (h ++ sync_event s)
      | None, Some f => f h :: sync_results sinks' (h ++ sync_event s)
      | None, None => sync_results sinks' h
      end
  end.

(** The table of a fanout agrees with its children. *)
Definition consistent `{ExternalTypes} (c : Core) : Prop :=
  forall lvl : Z, _minLevel <= lvl <= _maxLevel ->
    Core_Enabled c lvl = existsb (fun c' => Core_Enabled c' lvl) (inlined c).

(** How a log call at a level ends when nothing in it fails. *)
Definition outcome_of (lvl : Z) (msg : bytes) : Outcome :=
  if lvl =? PanicLevel then Panics msg
  else if lvl =? FatalLevel then Exits 1
  else Returns.

(** The segments joined by periods. *)
Fixpoint dotted (segments : list bytes) : bytes :=
  match segments with
  | [] => []
  | [s] => s
  | s :: segments' => s ++ B "." ++ dotted segments'
  end.

Definition option_names `{ExternalTypes} (opt : Option) : list bytes :=
  match opt with Named s => if is_empty s then [] else [s] | _ => [] end.

Definition option_fields `{ExternalTypes} (opt : Option) : list Field :=
  match opt with Fields_ fs => fs | _ => [] end.

Definition option_adds_caller `{ExternalTypes} (opt : Option) : bool :=
  match opt with AddCaller => true | _ => false end.

Definition option_skip `{ExternalTypes} (opt : Option) : Z :=
  match opt with AddCallerSkip skip => skip | _ => 0 end.

(** The timestamp of a console line as the log flags word it: the date,
    the time of day when [Ltime] or [Lmicroseconds] is set, a space between
    the two, and six digits of the fraction when [Lmicroseconds] is set. *)
Definition console_time_text (flags : Z) (t : Time) : bytes :=
  let date := has flags Ldate in
  let clock := has flags Ltime || has flags Lmicroseconds in
  (if date then layout_date t else [])
  ++ (if date && clock then B " " else [])
  ++ (if clock then layout_clock t else [])
  ++ (if has flags Lmicroseconds then layout_frac 6 false (Nanosecond t) else []).

(** ** Properties *)

(** *** The builder on the inputs of the repository's tests *)

Example AppendDuration_test :
  AppendDuration empty_Builder 91989993334522 = Some (mkBuilder (B "25h33m9.993334522s")).
Proof. vm_compute. reflexivity. Qed.

Example AppendTime_rfc3339nano_utc :
  AppendTime empty_Builder t_2019 Trfc3339Nano
  = Some (mkBuilder (B "2019-01-18T12:00:35.000009876Z")).
Proof. vm_compute. reflexivity. Qed.

Example AppendTime_micro :
  AppendTime empty_Builder t_2019 TdatetimeMicro
  = Some (mkBuilder (B "2019-01-18 12:00:35.000009")).
Proof. vm_compute. reflexivity. Qed.

Example AppendByteSlice_test :
  AppendByteSlice empty_Builder (map ascii_of_nat [100; 110; 120])%nat
  = mkBuilder (B "ZG54").
Proof. reflexivity. Qed.

Example AppendQuote_test :
  AppendQuote empty_Builder [ascii_of_nat 92; "t"; ascii_of_nat 10; ascii_of_nat 228;
                             ascii_of_nat 184; ascii_of_nat 173; ascii_of_nat 1]%char
  = mkBuilder ([quote; ascii_of_nat 92; ascii_of_nat 92; "t"; ascii_of_nat 92; "n";
                ascii_of_nat 228; ascii_of_nat 184; ascii_of_nat 173]%char
               ++ B "\u0001" ++ [quote]).
Proof. vm_compute. reflexivity. Qed.

Section Properties.

Context {ET : ExternalTypes} {EX : Externals}.

(** *** The array formatters and timestamps *)

(** The digits of the reference and of [fmtInt]. *)
Lemma length_pad_digits (k : nat) (i : Z) : length (pad_digits k i) = k.
Proof.
  revert i. induction k as [|k IH]; intros i; simpl; [reflexivity|].
  rewrite length_app, IH. simpl. lia.
Qed.

Lemma pad_digits_front (k : nat) (i : Z) :
  pad_digits (S k) i = digit_byte ((i / 10 ^ Z.of_nat k) mod 10) :: pad_digits k i.
Proof.
  revert i. induction k as [|k IH]; intros i.
  - simpl. by rewrite Z.div_1_r.
  - assert (Hp : 0 < 10 ^ Z.of_nat k) by (apply Z.pow_pos_nonneg; lia).
    change (pad_digits (S (S k)) i)
      with (pad_digits (S k) (i / 10) ++ [digit_byte (i mod 10)]).
    rewrite IH.
    change (pad_digits (S k) i) with (pad_digits k (i / 10) ++ [digit_byte (i mod 10)]).
    rewrite Z.div_div by (done || exact Hp).
    rewrite (Nat2Z.inj_succ k), Z.pow_succ_r by lia. reflexivity.
Qed.

Lemma writes_refl (buf : bytes) (w : nat) : writes buf w buf w [].
Proof. unfold writes. simpl. repeat split. lia. Qed.

Lemma writes_trans (buf buf1 buf2 : bytes) (w w1 w2 : nat) (o1 o2 : bytes) :
  writes buf w buf1 w1 o1 -> writes buf1 w1 buf2 w2 o2 ->
  writes buf w buf2 w2 (o2 ++ o1).
Proof.
  intros (Hw1 & Hl1 & Hd1) (Hw2 & Hl2 & Hd2). repeat split.
  - rewrite length_app. lia.
  - congruence.
  - rewrite Hd2, Hd1. by rewrite app_assoc.
Qed.

Lemma insert_writes (buf : bytes) (w : nat) (c : ascii) :
  (w < length buf)%nat -> writes buf (S w) (<[w := c]> buf) w [c].
Proof.
  intros Hw. repeat split.
  - simpl. lia.
  - apply length_insert.
  - rewrite drop_insert_ge by lia. rewrite Nat.sub_diag.
    destruct (lookup_lt_is_Some_2 buf w Hw) as [x Hx].
    rewrite (drop_S _ _ _ Hx). reflexivity.
Qed.

Lemma put_writes (buf : bytes) (w : nat) (c : ascii) :
  (1 <= w <= length buf)%nat ->
  exists buf' w', put buf w c = Some (buf', w') /\ writes buf w buf' w' [c].
Proof.
  intros Hw. destruct w as [|w]; [lia|].
  eexists _, _. split; [reflexivity|]. apply insert_writes. lia.
Qed.

(** [fmtInt] with a width of [k + 1] writes the [k + 1] low digits of a
    value below [10 ^ (k + 1)]. *)
Lemma fmtInt_loop_writes (k : nat) : forall (buf : bytes) (w : nat) (i : Z),
  0 <= i < 10 ^ Z.of_nat (S k) -> (k <= w <= length buf)%nat ->
  exists buf' w',
    fmtInt_loop buf w i (Z.of_nat (S k)) = Some (buf', w', i / 10 ^ Z.of_nat k)
    /\ writes buf w buf' w' (pad_digits k i).
Proof.
  induction k as [|k IH]; intros buf w i Hi Hw.
  - exists buf, w. split; [|apply writes_refl].
    change (Z.of_nat 1) with 1 in *. change (10 ^ 1) with 10 in Hi.
    assert (E : (10 <=? i) = false) by (apply Z.leb_gt; lia).
    destruct w; simpl; rewrite E; simpl; by rewrite Z.div_1_r.
  - assert (Hp : 0 < 10 ^ Z.of_nat k) by (apply Z.pow_pos_nonneg; lia).
    destruct w as [|w]; [lia|].
    assert (Hwid : (1 <? Z.of_nat (S (S k))) = true) by (apply Z.ltb_lt; lia).
    simpl fmtInt_loop. rewrite Hwid, orb_true_r.
    replace (Z.of_nat (S (S k)) - 1) with (Z.of_nat (S k)) by lia.
    destruct (IH (<[w := digit_byte (i mod 10)]> buf) w (i / 10)) as (buf' & w' & E & Hwr).
    { rewrite (Nat2Z.inj_succ (S k)), Z.pow_succ_r in Hi by lia.
      split; [apply Z.div_pos; lia | apply Z.div_lt_upper_bound; lia]. }
    { rewrite length_insert. lia. }
    exists buf', w'. split.
    + rewrite E. do 2 f_equal. rewrite Z.div_div by lia. f_equal.
      rewrite (Nat2Z.inj_succ k), Z.pow_succ_r by lia. reflexivity.
    + change (pad_digits (S k) i) with (pad_digits k (i / 10) ++ [digit_byte (i mod 10)]).
      eapply writes_trans; [|exact Hwr]. apply insert_writes. lia.
Qed.

Lemma fmtInt_writes (k : nat) (buf : bytes) (w : nat) (i : Z) :
  0 <= i < 10 ^ Z.of_nat (S k) -> (S k <= w <= length buf)%nat ->
  exists buf' w',
    fmtInt buf w i (Z.of_nat (S k)) = Some (buf', w')
    /\ writes buf w buf' w' (pad_digits (S k) i).
Proof.
  intros Hi Hw. unfold fmtInt.
  assert (Hp : 0 < 10 ^ Z.of_nat k) by (apply Z.pow_pos_nonneg; lia).
  destruct (fmtInt_loop_writes k buf w i Hi) as (buf1 & w1 & -> & Hwr); [lia|].
  cbn [mbind option_bind].
  pose proof Hwr as (Hw1 & Hl1 & _). rewrite length_pad_digits in Hw1.
  destruct w1 as [|w1]; [lia|].
  eexists _, _. split; [reflexivity|].
  rewrite pad_digits_front.
  replace (digit_byte ((i / 10 ^ Z.of_nat k) mod 10)) with (byte_of_Z (48 + i / 10 ^ Z.of_nat k)).
  - eapply (writes_trans _ _ _ _ _ _ _ [_]); [exact Hwr|]. apply insert_writes. lia.
  - unfold digit_byte. f_equal. rewrite Z.mod_small; [lia|].
    rewrite (Nat2Z.inj_succ k), Z.pow_succ_r in Hi by lia.
    split; [apply Z.div_pos; lia | apply Z.div_lt_upper_bound; lia].
Qed.

Lemma div10_loop_div (m : nat) (nano : Z) : div10_loop m nano = nano / 10 ^ Z.of_nat m.
Proof.
  revert nano. induction m as [|m IH]; intros nano; simpl div10_loop.
  - by rewrite Z.div_1_r.
  - assert (Hp : 0 < 10 ^ Z.of_nat m) by (apply Z.pow_pos_nonneg; lia).
    rewrite IH, Z.div_div by (done || exact Hp).
    by rewrite (Nat2Z.inj_succ m), Z.pow_succ_r by lia.
Qed.

Lemma strip_zeros_app_zero (D : bytes) : strip_zeros (D ++ ["0"%char]) = strip_zeros D.
Proof. induction D as [|c D IH]; cbn [strip_zeros app]; [reflexivity | by rewrite IH]. Qed.

Lemma strip_zeros_app_nonzero (D : bytes) (c : ascii) :
  is_byte c "0" = false -> strip_zeros (D ++ [c]) = D ++ [c].
Proof.
  intros Hc. induction D as [|d D IH]; cbn [strip_zeros app]; [by rewrite Hc|].
  rewrite IH. by destruct D.
Qed.

Lemma strip_zeros_prefix (D : bytes) : take (length (strip_zeros D)) D = strip_zeros D.
Proof.
  induction D as [|c D IH]; cbn [strip_zeros]; [reflexivity|].
  destruct (strip_zeros D) as [|r rs] eqn:E.
  - by destruct (is_byte c "0").
  - cbn [length take]. f_equal. exact IH.
Qed.

Lemma is_byte_zero_eq (c : ascii) : is_byte c "0" = true -> c = "0"%char.
Proof. simpl. apply Ascii.eqb_eq. Qed.

Lemma digit_byte_zero (d : Z) : 0 <= d < 10 -> is_byte (digit_byte d) "0" = (d =? 0).
Proof.
  intros Hd.
  assert (H : d = 0 \/ d = 1 \/ d = 2 \/ d = 3 \/ d = 4 \/ d = 5 \/ d = 6 \/ d = 7
              \/ d = 8 \/ d = 9) by lia.
  repeat destruct H as [->|H]; try subst d; reflexivity.
Qed.

Lemma strip_zeros_pad_digits_nil (k : nat) : forall v : Z,
  strip_zeros (pad_digits k v) = [] -> v mod 10 ^ Z.of_nat k = 0.
Proof.
  induction k as [|k IH]; intros v H.
  - simpl. apply Z.mod_1_r.
  - assert (Hp : 0 < 10 ^ Z.of_nat k) by (apply Z.pow_pos_nonneg; lia).
    change (pad_digits (S k) v) with (pad_digits k (v / 10) ++ [digit_byte (v mod 10)]) in H.
    assert (Hd : 0 <= v mod 10 < 10) by (apply Z.mod_pos_bound; lia).
    destruct (is_byte (digit_byte (v mod 10)) "0") eqn:E.
    + rewrite (is_byte_zero_eq _ E), strip_zeros_app_zero in H.
      apply IH in H. rewrite digit_byte_zero in E by exact Hd. apply Z.eqb_eq in E.
      rewrite (Nat2Z.inj_succ k), Z.pow_succ_r by lia.
      rewrite Z.rem_mul_r by lia. rewrite E, H. reflexivity.
    + rewrite strip_zeros_app_nonzero in H by exact E.
      by destruct (pad_digits k (v / 10)).
Qed.

(** The trimming loop stops after the trailing zeros of the digits that
    lie below index [w + length P]. *)
Lemma trim_loop_strip (buf : bytes) (w : nat) (P : bytes) :
  (forall j c, P !! j = Some c -> buf !! (w + j)%nat = Some c) ->
  strip_zeros P <> [] ->
  trim_loop buf (w + length P) = Some (w + length (strip_zeros P))%nat.
Proof.
  induction P as [|c P IH] using rev_ind; intros Hbuf Hne; [done|].
  rewrite length_app. cbn [length]. rewrite Nat.add_assoc, Nat.add_1_r. cbn [trim_loop].
  rewrite (Hbuf (length P) c) by (rewrite lookup_app_r, Nat.sub_diag; done).
  cbn [mbind option_bind]. destruct (is_byte c "0") eqn:E.
  - rewrite (is_byte_zero_eq _ E), strip_zeros_app_zero in *.
    apply IH; [|exact Hne].
    intros j c' Hj. apply Hbuf. by apply lookup_app_l_Some.
  - rewrite strip_zeros_app_nonzero by exact E.
    rewrite length_app. simpl. f_equal. lia.
Qed.

Lemma copy_up_writes (buf buf1 : bytes) (n w1 : nat) (D : bytes) (z : nat) :
  (n <= length buf)%nat ->
  writes buf n buf1 w1 D -> (z <= length D)%nat ->
  exists buf2, copy_up buf1 n w1 z = Some buf2
               /\ writes buf n buf2 (w1 + z) (take (length D - z) D).
Proof.
  intros Hn (Hw & Hl & Hd) Hz. unfold copy_up.
  assert (E : (w1 + z <=? n)%nat = true) by (apply Nat.leb_le; lia). rewrite E.
  eexists. split; [reflexivity|].
  assert (Hdn : drop n buf1 = drop n buf).
  { replace n with (w1 + length D)%nat by lia.
    rewrite <- drop_drop, Hd, drop_app_length. f_equal. lia. }
  repeat split.
  - rewrite length_take. lia.
  - rewrite !length_app, !length_take, !length_drop. lia.
  - rewrite drop_app_length' by (rewrite length_take; lia).
    rewrite Hd, Hdn. f_equal.
    rewrite take_app_le by lia. f_equal. lia.
Qed.

(** [fmtNano] writes the fraction of the reference layout. *)
Lemma fmtNano_writes (k : nat) (trim : bool) (buf : bytes) (n : nat) (nano : Z) :
  (1 <= k <= 9)%nat -> 0 <= nano < 10 ^ 9 -> (S k <= n <= length buf)%nat ->
  exists buf' w',
    fmtNano buf n nano (Z.of_nat k) trim = Some (buf', w')
    /\ writes buf n buf' w' (layout_frac k trim nano).
Proof.
  intros Hk Hnano Hn. unfold fmtNano, layout_frac.
  rewrite div10_loop_div.
  replace (Z.to_nat (9 - Z.of_nat k)) with (9 - k)%nat by lia.
  set (v := nano / 10 ^ Z.of_nat (9 - k)).
  assert (Hp : 0 < 10 ^ Z.of_nat (9 - k)) by (apply Z.pow_pos_nonneg; lia).
  assert (Hv : 0 <= v < 10 ^ Z.of_nat k).
  { split; [apply Z.div_pos; lia|]. apply Z.div_lt_upper_bound; [lia|].
    rewrite <- Z.pow_add_r by lia.
    replace (Z.of_nat (9 - k) + Z.of_nat k) with 9 by lia. lia. }
  destruct k as [|k]; [lia|].
  destruct trim; cbn [negb].
  - rewrite orb_false_r.
    destruct (Z.ltb_spec 0 v) as [Hpos|Hzero].
    + replace (v =? 0) with false by (symmetry; apply Z.eqb_neq; lia).
      destruct (fmtInt_writes k buf n v Hv) as (buf1 & w1 & -> & Hwr); [lia|].
      cbn [mbind option_bind].
      pose proof Hwr as (Hw1 & Hl1 & Hd1). rewrite length_pad_digits in Hw1.
      set (D := pad_digits (S k) v) in *.
      assert (HD : length D = S k) by apply length_pad_digits.
      assert (Hne : strip_zeros D <> []).
      { intros H. apply strip_zeros_pad_digits_nil in H.
        rewrite Z.mod_small in H by exact Hv. lia. }
      assert (Ht : trim_loop buf1 n = Some (w1 + length (strip_zeros D))%nat).
      { replace n with (w1 + length D)%nat by lia.
        apply trim_loop_strip; [|exact Hne].
        intros j c Hj. rewrite <- lookup_drop, Hd1. by apply lookup_app_l_Some. }
      rewrite Ht.
      cbn [mbind option_bind].
      pose proof (strip_zeros_prefix D) as Hpre.
      assert (Hls : (length (strip_zeros D) <= length D)%nat).
      { rewrite <- Hpre, length_take. lia. }
      destruct (Nat.ltb_spec 0 (n - (w1 + length (strip_zeros D)))) as [Hz|Hz].
      * destruct (copy_up_writes buf buf1 n w1 D (n - (w1 + length (strip_zeros D))))
          as (buf2 & -> & Hwr2); [lia | exact Hwr | lia |].
        cbn [mbind option_bind].
        replace (length D - (n - (w1 + length (strip_zeros D))))%nat
          with (length (strip_zeros D)) in Hwr2 by lia.
        rewrite Hpre in Hwr2.
        destruct Hwr2 as (Hw2 & Hl2 & Hd2).
        destruct (w1 + (n - (w1 + length (strip_zeros D))))%nat as [|w2] eqn:Ew; [lia|].
        eexists _, _. split; [reflexivity|].
        eapply (writes_trans _ _ _ _ _ _ _ [_]); [|apply insert_writes; lia].
        repeat split; assumption.
      * cbn [mbind option_bind].
        assert (strip_zeros D = D) as ->.
        { rewrite <- Hpre. rewrite take_ge; [reflexivity | lia]. }
        destruct w1 as [|w1]; [lia|].
        eexists _, _. split; [reflexivity|].
        eapply (writes_trans _ _ _ _ _ _ _ [_]); [exact Hwr | apply insert_writes; lia].
    + replace (v =? 0) with true by (symmetry; apply Z.eqb_eq; lia).
      exists buf, n. split; [reflexivity | apply writes_refl].
  - rewrite orb_true_r.
    destruct (fmtInt_writes k buf n v Hv) as (buf1 & w1 & -> & Hwr); [lia|].
    cbn [mbind option_bind].
    pose proof Hwr as (Hw1 & Hl1 & _). rewrite length_pad_digits in Hw1.
    destruct w1 as [|w1]; [lia|].
    eexists _, _. split; [reflexivity|].
    eapply (writes_trans _ _ _ _ _ _ _ [_]); [exact Hwr | apply insert_writes; lia].
Qed.

Lemma fmtInt_2 (buf : bytes) (w : nat) (i : Z) :
  0 <= i < 100 -> (2 <= w <= length buf)%nat ->
  exists buf' w', fmtInt buf w i 2 = Some (buf', w') /\ writes buf w buf' w' (pad_digits 2 i).
Proof. intros Hi Hw. apply (fmtInt_writes 1 buf w i); [exact Hi | exact Hw]. Qed.

Lemma fmtInt_4 (buf : bytes) (w : nat) (i : Z) :
  0 <= i < 10000 -> (4 <= w <= length buf)%nat ->
  exists buf' w', fmtInt buf w i 4 = Some (buf', w') /\ writes buf w buf' w' (pad_digits 4 i).
Proof. intros Hi Hw. apply (fmtInt_writes 3 buf w i); [exact Hi | exact Hw]. Qed.

Lemma length_strip_zeros (D : bytes) : (length (strip_zeros D) <= length D)%nat.
Proof. rewrite <- (strip_zeros_prefix D) at 1. rewrite length_take. lia. Qed.

Lemma length_layout_frac (k : nat) (trim : bool) (nano : Z) :
  (length (layout_frac k trim nano) <= S k)%nat.
Proof.
  unfold layout_frac.
  pose proof (length_strip_zeros (pad_digits k (nano / 10 ^ Z.of_nat (9 - k)))) as H.
  rewrite length_pad_digits in H.
  destruct trim; [destruct (_ =? 0)|]; cbn [length]; rewrite ?length_pad_digits; lia.
Qed.

Lemma fmtNano_k (k : nat) (wid : Z) (trim : bool) (buf : bytes) (n : nat) (nano : Z) :
  wid = Z.of_nat k -> (1 <= k <= 9)%nat -> 0 <= nano < 1000000000 ->
  (10 <= n <= length buf)%nat ->
  exists buf' w',
    fmtNano buf n nano wid trim = Some (buf', w')
    /\ writes buf n buf' w' (layout_frac k trim nano)
    /\ (length (layout_frac k trim nano) <= 10)%nat.
Proof.
  intros -> Hk Hnano Hn.
  destruct (fmtNano_writes k trim buf n nano Hk) as (buf' & w' & E & H); [lia | lia |].
  exists buf', w'. repeat split; try apply H; [exact E|].
  pose proof (length_layout_frac k trim nano). lia.
Qed.

Lemma uint64_small (x : Z) : 0 <= x < 2 ^ 64 -> uint64 x = x.
Proof. intros H. unfold uint64. by apply Z.mod_small. Qed.

(** Symbolic execution of a chain of formatter calls on the array. *)
Ltac use_writes H :=
  let Hw := fresh "Hw" in
  let Hl := fresh "Hl" in
  let Hd := fresh "Hd" in
  destruct H as (Hw & Hl & Hd);
  rewrite ?length_pad_digits in Hw; cbn [length] in Hw.

Ltac step :=
  lazymatch goal with
  | |- context [fmtInt ?buf ?w ?i 2] =>
      let b' := fresh "buf" in
      let w' := fresh "w" in
      let E := fresh "E" in
      let H := fresh "Hwr" in
      destruct (fmtInt_2 buf w i) as (b' & w' & E & H);
      [lia | lia | rewrite E; cbn [mbind option_bind]; use_writes H]
  | |- context [fmtInt ?buf ?w ?i 4] =>
      let b' := fresh "buf" in
      let w' := fresh "w" in
      let E := fresh "E" in
      let H := fresh "Hwr" in
      destruct (fmtInt_4 buf w i) as (b' & w' & E & H);
      [lia | lia | rewrite E; cbn [mbind option_bind]; use_writes H]
  | |- context [put ?buf ?w ?c] =>
      let b' := fresh "buf" in
      let w' := fresh "w" in
      let E := fresh "E" in
      let H := fresh "Hwr" in
      destruct (put_writes buf w c) as (b' & w' & E & H);
      [lia | rewrite E; cbn [mbind option_bind]; use_writes H]
  | |- context [fmtNano ?buf ?w ?nano ?wid ?trim] =>
      let b' := fresh "buf" in
      let w' := fresh "w" in
      let E := fresh "E" in
      let H := fresh "Hwr" in
      let Hlen := fresh "Hlen" in
      destruct (fmtNano_k (Z.to_nat wid) wid trim buf w nano)
        as (b' & w' & E & H & Hlen);
      [reflexivity | cbn; lia | lia | lia
      | rewrite E; cbn [mbind option_bind]; cbn [Z.to_nat Pos.to_nat Pos.iter_op Nat.add] in H, Hlen;
        use_writes H]
  end.

Lemma zone_fields (off : Z) :
  0 <= off < 86400 ->
  let zone := Z.quot off 60 in
  Z.quot off 3600 = zone / 60 /\ Z.rem zone 60 = zone mod 60
  /\ (zone <? 0) = false /\ Z.abs zone = zone
  /\ 0 <= zone / 60 < 100 /\ 0 <= zone mod 60 < 100.
Proof.
  intros Hoff zone. subst zone.
  rewrite !Z.quot_div_nonneg by lia.
  assert (Hz : 0 <= off / 60 < 1440) by (Z.div_mod_to_equations; lia).
  rewrite Z.rem_mod_nonneg by lia.
  rewrite Z.div_div by lia. change (60 * 60) with 3600.
  repeat split;
    solve [ apply Z.ltb_ge; lia | apply Z.abs_eq; lia | Z.div_mod_to_equations; lia ].
Qed.

Ltac eval_has :=
  repeat match goal with
         | |- context [has ?a ?b] =>
             let v := eval vm_compute in (has a b) in
             change (has a b) with v
         end;
  cbv beta iota.

(** X1. For a timestamp at UTC or east of it, with a four-digit year, and every
    flag combination of the table, [AppendTime] appends exactly the
    reference rendering of the layout. *)
Theorem AppendTime_matches_layout (b : Builder) (t : Time) (flag : Z) :
  valid_time t -> 0 <= ZoneOffset t < 86400 -> In flag layout_flags ->
  AppendTime b t flag = Some (mkBuilder (buf b ++ layout_format t flag)).
Proof.
  intros (Hy & Hmo & Hda & Hh & Hmi & Hs & Hn) Hoff Hin.
  unfold AppendTime, layout_format.
  rewrite !uint64_small by lia.
  set (buf0 := replicate 40 Ascii.zero).
  assert (Hl0 : length buf0 = 40%nat) by apply length_replicate.
  assert (Hd0 : drop 40 buf0 = []) by reflexivity.
  clearbody buf0.
  unfold layout_flags in Hin. cbn [In] in Hin.
  repeat destruct Hin as [<-|Hin]; try contradiction; eval_has.
  all: try match goal with
         | |- context [ZoneOffset ?x =? 0] =>
             unfold layout_zone; cbv zeta;
             destruct (Z.eqb_spec (ZoneOffset x) 0) as [Hz|Hz];
             [|destruct (zone_fields (ZoneOffset x) Hoff) as (Eh & Em & Es & Ea & Hzh & Hzm);
               replace (ZoneOffset x <? 0) with false by (symmetry; apply Z.ltb_ge; lia);
               rewrite Eh, Em, Es, Ea, !uint64_small by lia]
         end.
  all: cbn [mbind option_bind].
  all: repeat step.
  all: unfold Builder_Write; do 2 f_equal.
  all: repeat match goal with
         | H : drop ?w ?b = _ |- context [drop ?w ?b] => rewrite H
         end.
  all: unfold layout_date, layout_clock, two_digits.
  all: repeat first [rewrite <- app_assoc | rewrite app_nil_r | progress cbn [app]].
  all: try reflexivity.
Qed.


(** C1. West of UTC the zone suffix is not [-HH:MM]: the negative hours and
    minutes are converted to [uint64] and printed as twenty digits; with
    the date in front the 40-byte array overflows and [AppendTime] panics. *)
Theorem AppendTime_negative_offset (b : Builder) :
  AppendTime b t_west (Z.lor Ttime Tzone)
    = Some (mkBuilder (buf b ++ B "12:00:35-18446744073709551611:00"))
  /\ layout_zone (ZoneOffset t_west) = B "-05:00"
  /\ AppendTime b t_west Trfc3339 = None
  /\ AppendTime b t_west Trfc3339Nano = None.
Proof.
  repeat split; vm_compute; reflexivity.
Qed.

(** *** Durations *)

Lemma digit_byte_nonzero (d : Z) :
  0 <= d < 10 -> negb (d =? 0) = negb (is_byte (digit_byte d) "0").
Proof. intros Hd. by rewrite digit_byte_zero. Qed.

(** [fmtFrac]'s loop over the [n] low digits of [v]: all of them once
    printing has started, else those before the trailing zeros. *)
Lemma fmtFrac_loop_writes (n : nat) : forall (buf : bytes) (w : nat) (p : bool) (v : Z),
  0 <= v -> (n <= w <= length buf)%nat ->
  exists buf' w',
    fmtFrac_loop n buf w p v
    = Some (buf', w', p || negb (is_empty (strip_zeros (pad_digits n v))),
            v / 10 ^ Z.of_nat n)
    /\ writes buf w buf' w' (if p then pad_digits n v else strip_zeros (pad_digits n v)).
Proof.
  induction n as [|n IH]; intros buf w p v Hv Hw.
  - exists buf, w. cbn [fmtFrac_loop pad_digits strip_zeros is_empty negb].
    rewrite orb_false_r, Z.div_1_r. split; [reflexivity|].
    destruct p; apply writes_refl.
  - assert (Hp : 0 < 10 ^ Z.of_nat n) by (apply Z.pow_pos_nonneg; lia).
    assert (Hd : 0 <= v mod 10 < 10) by (apply Z.mod_pos_bound; lia).
    assert (Hv' : 0 <= v / 10) by (apply Z.div_pos; lia).
    assert (Ediv : v / 10 / 10 ^ Z.of_nat n = v / 10 ^ Z.of_nat (S n)).
    { rewrite Z.div_div by (done || exact Hp).
      by rewrite (Nat2Z.inj_succ n), Z.pow_succ_r by lia. }
    cbn [fmtFrac_loop pad_digits]. cbv zeta.
    rewrite (digit_byte_nonzero _ Hd).
    destruct w as [|w]; [lia|].
    destruct p; cbn [orb].
    + destruct (IH (<[w := digit_byte (v mod 10)]> buf) w true (v / 10) Hv')
        as (buf' & w' & E & Hwr); [rewrite length_insert; lia|].
      exists buf', w'. rewrite E, Ediv. split; [reflexivity|].
      eapply writes_trans; [apply insert_writes; lia | exact Hwr].
    + destruct (is_byte (digit_byte (v mod 10)) "0") eqn:Ez; cbn [negb].
      * destruct (IH buf (S w) false (v / 10) Hv') as (buf' & w' & E & Hwr); [lia|].
        exists buf', w'. rewrite E, Ediv.
        rewrite (is_byte_zero_eq _ Ez), strip_zeros_app_zero.
        split; [reflexivity | exact Hwr].
      * destruct (IH (<[w := digit_byte (v mod 10)]> buf) w true (v / 10) Hv')
          as (buf' & w' & E & Hwr); [rewrite length_insert; lia|].
        exists buf', w'. rewrite E, Ediv.
        rewrite (strip_zeros_app_nonzero _ _ Ez).
        split; [by destruct (pad_digits n (v / 10))|].
        eapply writes_trans; [apply insert_writes; lia | exact Hwr].
Qed.

Lemma length_frac_digits (n : nat) (v : Z) : (length (frac_digits n v) <= S n)%nat.
Proof.
  unfold frac_digits.
  pose proof (length_strip_zeros (pad_digits n v)) as H. rewrite length_pad_digits in H.
  destruct (strip_zeros (pad_digits n v)); cbn [length] in *; lia.
Qed.

Lemma fmtFrac_writes (n : nat) (prec : Z) (buf : bytes) (w : nat) (v : Z) :
  prec = Z.of_nat n -> 0 <= v -> (S n <= w <= length buf)%nat ->
  exists buf' w',
    fmtFrac buf w v prec = Some (buf', w', v / 10 ^ Z.of_nat n)
    /\ writes buf w buf' w' (frac_digits n v)
    /\ (length (frac_digits n v) <= S n)%nat.
Proof.
  intros -> Hv Hw. unfold fmtFrac, frac_digits. rewrite Nat2Z.id.
  pose proof (length_frac_digits n v) as Hlen. unfold frac_digits in Hlen.
  destruct (fmtFrac_loop_writes n buf w false v Hv) as (buf1 & w1 & -> & Hwr); [lia|].
  cbn [mbind option_bind orb].
  destruct (strip_zeros (pad_digits n v)) as [|c ds] eqn:E; cbn [is_empty negb].
  - exists buf1, w1. repeat split; try apply Hwr. exact Hlen.
  - pose proof Hwr as (Hw1 & Hl1 & _). cbn [length] in *.
    destruct w1 as [|w1]; [lia|].
    eexists _, _. split; [reflexivity|]. split; [|exact Hlen].
    eapply (writes_trans _ _ _ _ _ _ _ [_]); [exact Hwr | apply insert_writes; lia].
Qed.

Lemma decimal_fuel_S (n : nat) (i : Z) :
  decimal_fuel (S n) i
  = if i <? 10 then [digit_byte i] else decimal_fuel n (i / 10) ++ [digit_byte (i mod 10)].
Proof. reflexivity. Qed.

Lemma decimal_fuel_more (n : nat) : forall (m : nat) (i : Z),
  0 <= i < 10 ^ Z.of_nat (S n) -> (S n <= m)%nat ->
  decimal_fuel (S n) i = decimal_fuel m i.
Proof.
  induction n as [|n IH]; intros m i Hi Hm; (destruct m as [|m]; [lia|]).
  - change (10 ^ Z.of_nat 1) with 10 in Hi. rewrite !decimal_fuel_S.
    replace (i <? 10) with true by (symmetry; apply Z.ltb_lt; lia). reflexivity.
  - rewrite (decimal_fuel_S (S n)), (decimal_fuel_S m).
    destruct (i <? 10) eqn:E; [reflexivity|].
    apply Z.ltb_ge in E.
    rewrite (IH m (i / 10)); [reflexivity | | lia].
    rewrite (Nat2Z.inj_succ (S n)), Z.pow_succ_r in Hi by lia.
    split; [apply Z.div_pos; lia | apply Z.div_lt_upper_bound; lia].
Qed.

Lemma length_decimal_fuel (n : nat) (i : Z) : (length (decimal_fuel n i) <= n)%nat.
Proof.
  revert i. induction n as [|n IH]; intros i; [cbn [decimal_fuel length]; lia|].
  rewrite decimal_fuel_S.
  destruct (i <? 10); cbn [length]; [lia|].
  rewrite length_app. cbn [length]. specialize (IH (i / 10)). lia.
Qed.

(** [fmtInt] without padding writes the decimal digits of its argument. *)
Lemma fmtInt_loop_decimal (n : nat) : forall (buf : bytes) (w : nat) (i wid : Z),
  wid <= 1 -> 0 <= i < 10 ^ Z.of_nat (S n) -> (n <= w <= length buf)%nat ->
  exists buf' w' lead rest,
    fmtInt_loop buf w i wid = Some (buf', w', lead)
    /\ writes buf w buf' w' rest
    /\ digit_byte lead :: rest = decimal_fuel (S n) i.
Proof.
  induction n as [|n IH]; intros buf w i wid Hwid Hi Hw.
  - change (10 ^ Z.of_nat 1) with 10 in Hi.
    assert (E1 : (10 <=? i) = false) by (apply Z.leb_gt; lia).
    assert (E2 : (1 <? wid) = false) by (apply Z.ltb_ge; lia).
    assert (E3 : (i <? 10) = true) by (apply Z.ltb_lt; lia).
    exists buf, w, i, []. rewrite decimal_fuel_S, E3.
    split; [|split; [apply writes_refl | reflexivity]].
    destruct w; cbn [fmtInt_loop]; by rewrite E1, E2.
  - assert (E2 : (1 <? wid) = false) by (apply Z.ltb_ge; lia).
    destruct (Z.leb_spec 10 i) as [Hbig|Hsmall].
    + assert (E3 : (i <? 10) = false) by (apply Z.ltb_ge; lia).
      destruct w as [|w]; [lia|].
      destruct (IH (<[w := digit_byte (i mod 10)]> buf) w (i / 10) (wid - 1))
        as (buf' & w' & lead & rest & E & Hwr & Hdec).
      { lia. }
      { rewrite (Nat2Z.inj_succ (S n)), Z.pow_succ_r in Hi by lia.
        split; [apply Z.div_pos; lia | apply Z.div_lt_upper_bound; lia]. }
      { rewrite length_insert. lia. }
      exists buf', w', lead, (rest ++ [digit_byte (i mod 10)]).
      split; [|split].
      * cbn [fmtInt_loop]. replace (10 <=? i) with true by (symmetry; apply Z.leb_le; lia).
        cbn [orb]. exact E.
      * eapply writes_trans; [apply insert_writes; lia | exact Hwr].
      * rewrite (decimal_fuel_S (S n)), E3, <- Hdec. reflexivity.
    + assert (E1 : (10 <=? i) = false) by (apply Z.leb_gt; lia).
      assert (E3 : (i <? 10) = true) by (apply Z.ltb_lt; lia).
      exists buf, w, i, []. rewrite decimal_fuel_S, E3.
      split; [|split; [apply writes_refl | reflexivity]].
      destruct w; cbn [fmtInt_loop]; by rewrite E1, E2.
Qed.

Lemma fmtInt_decimal (n : nat) (buf : bytes) (w : nat) (i : Z) :
  0 <= i < 10 ^ Z.of_nat n -> (1 <= n <= 20)%nat -> (n <= w <= length buf)%nat ->
  exists buf' w',
    fmtInt buf w i (-1) = Some (buf', w')
    /\ writes buf w buf' w' (decimal i)
    /\ (length (decimal i) <= n)%nat.
Proof.
  intros Hi Hn Hw. destruct n as [|n]; [lia|]. unfold fmtInt.
  destruct (fmtInt_loop_decimal n buf w i (-1)) as (buf1 & w1 & lead & rest & -> & Hwr & Hdec);
    [lia | exact Hi | lia |].
  cbn [mbind option_bind].
  assert (Hd : decimal i = decimal_fuel (S n) i).
  { symmetry. apply decimal_fuel_more; [exact Hi | lia]. }
  pose proof (length_decimal_fuel (S n) i) as Hlen.
  rewrite Hd, <- Hdec in *. cbn [length] in Hlen.
  pose proof Hwr as (Hw1 & Hl1 & _).
  destruct w1 as [|w1]; [lia|].
  eexists _, _. split; [reflexivity|]. split; [|cbn [length]; lia].
  replace (byte_of_Z (48 + lead)) with (digit_byte lead)
    by (unfold digit_byte; f_equal; lia).
  eapply (writes_trans _ _ _ _ _ _ _ [_]); [exact Hwr | apply insert_writes; lia].
Qed.

Lemma insert2_writes (buf : bytes) (w : nat) (a c : ascii) :
  (S w < length buf)%nat ->
  writes buf (S (S w)) (<[S w := c]> (<[w := a]> buf)) w [a; c].
Proof.
  intros Hw.
  rewrite list_insert_insert_ne by lia.
  apply (writes_trans _ (<[S w := c]> buf) _ _ (S w) _ [c] [a]).
  - apply insert_writes. lia.
  - apply insert_writes. rewrite length_insert. lia.
Qed.

Ltac dstep :=
  lazymatch goal with
  | |- context [fmtFrac ?buf ?w ?v ?prec] =>
      let b' := fresh "buf" in
      let w' := fresh "w" in
      let E := fresh "E" in
      let H := fresh "Hwr" in
      let Hlen := fresh "Hlen" in
      destruct (fmtFrac_writes (Z.to_nat prec) prec buf w v) as (b' & w' & E & H & Hlen);
      [reflexivity | lia | cbn; lia
      | rewrite E; cbn [mbind option_bind];
        cbn [Z.to_nat Pos.to_nat Pos.iter_op Nat.add] in H, Hlen; use_writes H]
  | Hb : 0 <= ?i < 10 ^ Z.of_nat ?n |- context [fmtInt ?buf ?w ?i (-1)] =>
      let b' := fresh "buf" in
      let w' := fresh "w" in
      let E := fresh "E" in
      let H := fresh "Hwr" in
      let Hlen := fresh "Hlen" in
      destruct (fmtInt_decimal n buf w i Hb) as (b' & w' & E & H & Hlen);
      [lia | lia | rewrite E; cbn [mbind option_bind]; use_writes H]
  | |- context [put ?buf ?w ?c] =>
      let b' := fresh "buf" in
      let w' := fresh "w" in
      let E := fresh "E" in
      let H := fresh "Hwr" in
      destruct (put_writes buf w c) as (b' & w' & E & H);
      [lia | rewrite E; cbn [mbind option_bind]; use_writes H]
  end.

Ltac fin :=
  cbn [mbind option_bind]; unfold Builder_Write; do 2 f_equal;
  repeat match goal with
         | H : drop ?w ?b = _ |- context [drop ?w ?b] => rewrite H
         end;
  repeat first [rewrite <- app_assoc | rewrite app_nil_r
               | progress cbn [app B list_ascii_of_string]];
  try reflexivity.

(** X2. For every duration but zero, [AppendDuration] appends exactly the
    reference rendering. *)
Theorem AppendDuration_matches_humane (b : Builder) (d : Z) :
  - 2 ^ 63 <= d < 2 ^ 63 -> d <> 0 ->
  AppendDuration b d = Some (mkBuilder (buf b ++ humane d)).
Proof.
  intros Hd Hnz. change (2 ^ 63) with 9223372036854775808 in Hd.
  unfold AppendDuration, humane. cbv zeta.
  assert (HU : (if d <? 0 then uint64 (- uint64 d) else uint64 d) = Z.abs d).
  { unfold uint64. change (2 ^ 64) with 18446744073709551616.
    destruct (Z.ltb_spec d 0); Z.div_mod_to_equations; lia. }
  rewrite HU.
  assert (Hu : 0 < Z.abs d <= 9223372036854775808) by lia.
  set (u := Z.abs d) in *. clearbody u. clear HU.
  change (uint64 Second_d) with 1000000000.
  change (uint64 Millisecond_d) with 1000000.
  change (uint64 Microsecond_d) with 1000.
  set (buf0 := replicate 32 Ascii.zero).
  assert (Hl0 : length buf0 = 32%nat) by apply length_replicate.
  assert (Hd0 : drop 32 buf0 = []) by reflexivity.
  clearbody buf0.
  replace (u =? 0) with false by (symmetry; apply Z.eqb_neq; lia).
  pose proof (insert_writes buf0 31 "s"%char ltac:(lia)) as Hs.
  destruct (Z.ltb_spec u 1000000000) as [Hsub|Hsec].
  - cbn [put mbind option_bind Nat.sub].
    destruct (Z.ltb_spec u 1000) as [Hns|Hns]; [|destruct (Z.ltb_spec u 1000000) as [Hus|Hus]].
    + pose proof (writes_trans _ _ _ _ _ _ _ _ Hs
                    (insert_writes (<[31%nat := "s"%char]> buf0) 30 "n"%char
                       ltac:(rewrite length_insert; lia))) as Hwr0.
      set (buf1 := <[30%nat := "n"%char]> (<[31%nat := "s"%char]> buf0)) in *.
      clearbody buf1. use_writes Hwr0. cbn [mbind option_bind].
      dstep. change (10 ^ Z.of_nat (Z.to_nat 0)) with 1. rewrite Z.div_1_r.
      assert (Hb : 0 <= u < 10 ^ Z.of_nat 3) by (change (10 ^ Z.of_nat 3) with 1000; lia).
      dstep.
      destruct (d <? 0); repeat dstep; fin.
    + pose proof (writes_trans _ _ _ _ _ _ _ _ Hs
                    (insert2_writes (<[31%nat := "s"%char]> buf0) 29
                       (ascii_of_nat 194) (ascii_of_nat 181)
                       ltac:(rewrite length_insert; lia))) as Hwr0.
      set (buf1 := <[30%nat := ascii_of_nat 181]> (<[29%nat := ascii_of_nat 194]>
                                                     (<[31%nat := "s"%char]> buf0))) in *.
      clearbody buf1. use_writes Hwr0. cbn [mbind option_bind].
      dstep. change (10 ^ Z.of_nat (Z.to_nat 3)) with 1000.
      assert (Hb : 0 <= u / 1000 < 10 ^ Z.of_nat 3)
        by (change (10 ^ Z.of_nat 3) with 1000; Z.div_mod_to_equations; lia).
      dstep.
      destruct (d <? 0); repeat dstep; fin.
    + pose proof (writes_trans _ _ _ _ _ _ _ _ Hs
                    (insert_writes (<[31%nat := "s"%char]> buf0) 30 "m"%char
                       ltac:(rewrite length_insert; lia))) as Hwr0.
      set (buf1 := <[30%nat := "m"%char]> (<[31%nat := "s"%char]> buf0)) in *.
      clearbody buf1. use_writes Hwr0. cbn [mbind option_bind].
      dstep. change (10 ^ Z.of_nat (Z.to_nat 6)) with 1000000.
      assert (Hb : 0 <= u / 1000000 < 10 ^ Z.of_nat 3)
        by (change (10 ^ Z.of_nat 3) with 1000; Z.div_mod_to_equations; lia).
      dstep.
      destruct (d <? 0); repeat dstep; fin.
  - cbn [put mbind option_bind].
    replace (u <? 1000) with false by (symmetry; apply Z.ltb_ge; lia).
    replace (u <? 1000000) with false by (symmetry; apply Z.ltb_ge; lia).
    set (buf1 := <[31%nat := "s"%char]> buf0) in *. clearbody buf1. use_writes Hs.
    dstep. change (10 ^ Z.of_nat (Z.to_nat 9)) with 1000000000.
    set (s := u / 1000000000).
    assert (Hsb : 1 <= s <= 9223372036) by (subst s; Z.div_mod_to_equations; lia).
    clearbody s.
    assert (Hb1 : 0 <= s mod 60 < 10 ^ Z.of_nat 2)
      by (change (10 ^ Z.of_nat 2) with 100; Z.div_mod_to_equations; lia).
    dstep.
    set (m := s / 60).
    assert (Hmb : 0 <= m <= 153722867) by (subst m; Z.div_mod_to_equations; lia).
    clearbody m.
    destruct (Z.ltb_spec 0 m) as [Hm|Hm].
    + dstep.
      assert (Hb2 : 0 <= m mod 60 < 10 ^ Z.of_nat 2)
        by (change (10 ^ Z.of_nat 2) with 100; Z.div_mod_to_equations; lia).
      dstep.
      set (h := m / 60).
      assert (Hhb : 0 <= h < 10 ^ Z.of_nat 7)
        by (change (10 ^ Z.of_nat 7) with 10000000; subst h; Z.div_mod_to_equations; lia).
      clearbody h.
      destruct (Z.ltb_spec 0 h) as [Hh|Hh]; cbn [mbind option_bind];
        destruct (d <? 0); repeat dstep; fin.
    + replace (0 <? m / 60) with false
        by (symmetry; apply Z.ltb_ge; Z.div_mod_to_equations; lia).
      cbn [mbind option_bind].
      destruct (d <? 0); repeat dstep; fin.
Qed.

(** C2. [AppendDuration(0)] does not append the two bytes [0s]: the case
    [u == 0] writes [0s] to the builder and then falls out of the switch, so
    the digit [0], the untouched zero byte of the array and the [s] are
    appended after it. *)
Theorem AppendDuration_zero_not_0s (b : Builder) :
  AppendDuration b 0
    = Some (mkBuilder ((buf b ++ B "0s") ++ ["0"%char; Ascii.zero; "s"%char]))
  /\ AppendDuration b 0 <> Some (mkBuilder (buf b ++ B "0s")).
Proof.
  assert (E : AppendDuration b 0
              = Some (mkBuilder ((buf b ++ B "0s") ++ ["0"%char; Ascii.zero; "s"%char])))
    by reflexivity.
  split; [exact E|].
  rewrite E. intros [= H].
  apply (f_equal length) in H. rewrite !length_app in H. simpl in H. lia.
Qed.

(** *** Values *)

Lemma take_length_app (l k : bytes) : take (length l) (l ++ k) = l.
Proof. by rewrite take_app_length. Qed.


(** The slice cases write [null] for the nil slice. *)
Lemma appendSlice_nil {A : Type} (f : Builder -> A -> Builder) (b : Builder) :
  appendSlice f b None = mkBuilder (buf b ++ B "null").
Proof. reflexivity. Qed.

Lemma appendSlice_empty {A : Type} (f : Builder -> A -> Builder) (b : Builder) :
  appendSlice f b (Some []) = mkBuilder (buf b ++ B "[]").
Proof.
  unfold appendSlice, Builder_WriteByte; simpl. by rewrite <- app_assoc.
Qed.

(** C8, as the code has it. A nil slice of any supported type is rendered
    [null]; a non-nil empty slice of any supported type but [[]byte] is
    rendered [[]]; a non-nil byte slice, the empty one included, is rendered
    as its base64 text between double quotes. *)
Theorem AppendJSON_slices (b : Builder) (iv : Value) :
  (slice_len iv = Some None ->
   AppendJSON b iv = Some (mkBuilder (buf b ++ B "null"), nil_error))
  /\ (slice_len iv = Some (Some 0%nat) -> is_byte_slice iv = false ->
      AppendJSON b iv = Some (mkBuilder (buf b ++ B "[]"), nil_error))
  /\ (forall v : list Z, iv = VUints Kuint8 (Some v) ->
      AppendJSON b iv
      = Some (mkBuilder (buf b ++ quote :: base64_Encode (map byte_of_Z v) ++ [quote]),
              nil_error)).
Proof.
  split; [|split].
  - intros H. destruct iv; try discriminate H; simpl in H;
      try (destruct v; [discriminate H|]);
      try destruct k; simpl; by rewrite ?appendSlice_nil.
  - intros H Hb.
    destruct iv; try discriminate H; simpl in H;
      (destruct v as [[|x v]|]; [|discriminate H|discriminate H]);
      try (destruct k; try discriminate Hb);
      simpl; by rewrite ?appendSlice_empty.
  - intros v ->. simpl. unfold appendNullOrElse, Builder_WriteByte, AppendByteSlice.
    simpl. do 3 f_equal. rewrite <- !app_assoc. reflexivity.
Qed.

(** *** Cores *)

Lemma NewTee_flatten_nonmulti (cores allCores : list Core) :
  Forall flat cores ->
  Forall (fun c => is_multiCore c = false) allCores ->
  Forall (fun c => is_multiCore c = false) (NewTee_flatten cores allCores).
Proof.
  revert allCores.
  induction cores as [|c cores IH]; intros allCores Hf Ha; simpl; [exact Ha|].
  inversion Hf as [|? ? Hc Hcs]; subst.
  apply IH; [exact Hcs|].
  destruct c; simpl in Hc; apply Forall_app; split; auto.
Qed.

Lemma NewTee_flatten_inlined (cores allCores : list Core) :
  NewTee_flatten cores allCores = allCores ++ concat (map inlined cores).
Proof.
  revert allCores. induction cores as [|c cores IH]; intros allCores; simpl.
  - by rewrite app_nil_r.
  - rewrite IH. destruct c; simpl; by rewrite <- app_assoc.
Qed.

Lemma NewTee_flat (cores : list Core) : Forall flat cores -> flat (NewTee cores).
Proof.
  intros Hf.
  destruct cores as [|c [|c' cores]]; [exact I | by inversion Hf |].
  apply NewTee_flatten_nonmulti; [exact Hf | constructor].
Qed.

(** Every core the constructors return is flat. *)
Lemma built_flat : forall c : Core, built c -> flat c.
Proof.
  fix IH 2.
  intros c [| enc w enab | cores Hcs]; [exact I | exact I |].
  apply NewTee_flat.
  induction Hcs as [|c' cores' Hc' _ IHcs]; constructor; [apply IH, Hc' | exact IHcs].
Qed.

(** C7. [NewTee] of no core is the no-op core, whose [Write] and [Sync]
    return nil and leave the sinks alone and whose [Enabled] is false at
    every level; [NewTee] of one core is that core; [NewTee] of two or
    more cores is a fanout whose child list inlines the children of the
    fanouts among them; and the child list of a fanout that [NewTee]
    returns, for cores that the constructors built, holds no fanout. *)
Theorem NewTee_shapes :
  (NewTee [] = nopCore
   /\ (forall e h, Core_Write (NewTee []) e h = Some (h, nil_error))
   /\ (forall h, Core_Sync (NewTee []) h = Some (h, nil_error))
   /\ (forall lvl, Core_Enabled (NewTee []) lvl = false))
  /\ (forall c : Core, NewTee [c] = c)
  /\ (forall (c1 c2 : Core) (cores : list Core),
      exists le, NewTee (c1 :: c2 :: cores)
                 = multiCore (concat (map inlined (c1 :: c2 :: cores))) le)
  /\ (forall cores : list Core, Forall built cores ->
      forall cs le, NewTee cores = multiCore cs le ->
      Forall (fun c => is_multiCore c = false) cs).
Proof.
  split; [|split; [|split]].
  - repeat split.
  - reflexivity.
  - intros c1 c2 cores. eexists. unfold NewTee.
    rewrite NewTee_flatten_inlined. reflexivity.
  - intros cores Hb cs le E.
    pose proof (built_flat _ (built_NewTee cores Hb)) as Hf.
    rewrite E in Hf. exact Hf.
Qed.

(** C6, as the code has it. Outside the bounds the no-op core and every
    fanout answer false; a core built by [NewCore] answers what its
    [LevelEnabler] answers, with no check of the bounds. *)
Theorem Enabled_out_of_range (lvl : Z) :
  lvl < _minLevel \/ _maxLevel < lvl ->
  Core_Enabled nopCore lvl = false
  /\ (forall cs le, Core_Enabled (multiCore cs le) lvl = false)
  /\ (forall cores : list Core, (2 <= length cores)%nat ->
      Core_Enabled (NewTee cores) lvl = false)
  /\ (forall enc w enab, Core_Enabled (NewCore enc w enab) lvl = enab lvl).
Proof.
  intros Hout.
  assert (Hg : (lvl <? _minLevel) || (_maxLevel <? lvl) = true).
  { apply orb_true_iff. destruct Hout; [left|right]; by apply Z.ltb_lt. }
  repeat split.
  - intros cs le. simpl. by rewrite Hg.
  - intros [|c [|c' cores]] Hlen; simpl in Hlen; [lia | lia |].
    unfold NewTee. cbn [Core_Enabled]. by rewrite Hg.
Qed.

(** *** Errors *)

Lemma errors_of_combineErrors (l r : error) :
  errors_of (combineErrors l r) = errors_of l ++ errors_of r.
Proof.
  destruct l, r; simpl; rewrite ?app_nil_r; reflexivity.
Qed.

Lemma errors_of_not_nil (x e : error) : In x (errors_of e) -> e <> nil_error.
Proof. intros H ->. exact H. Qed.

(** *** Writing *)

Section MultiWrite.
Context {W : Type} (write : W -> World -> World * (Z * error)) (len_p : Z).

(** The loop of [multiWriter.Write] only adds errors. *)
Lemma multiWriter_Write_loop_keeps (ws : list W) (h : World) (n : Z) (err x : error) :
  In x (errors_of err) ->
  In x (errors_of (snd (snd (multiWriter_Write_loop write len_p ws h n err)))).
Proof.
  revert h n err.
  induction ws as [|w ws IH]; intros h n err Hx; simpl; [exact Hx|].
  destruct (write w h) as [h1 [wn werr]].
  destruct (negb (is_nil werr)).
  - apply IH. rewrite errors_of_combineErrors. apply in_or_app. by left.
  - apply IH. destruct (negb (wn =? len_p)); [|exact Hx].
    rewrite errors_of_combineErrors. apply in_or_app. by left.
Qed.

(** A writer of the list that reports a count other than [len(p)] with a
    nil error puts [io.ErrShortWrite] among the errors. *)
Lemma multiWriter_Write_loop_short (ws : list W) (w : W) (h : World) (n : Z) (err : error) :
  In w ws ->
  (forall h0, exists h1 wn, write w h0 = (h1, (wn, nil_error)) /\ wn <> len_p) ->
  In ErrShortWrite
    (errors_of (snd (snd (multiWriter_Write_loop write len_p ws h n err)))).
Proof.
  intros Hin Hshort. revert h n err.
  induction ws as [|w' ws IH]; intros h n err; [destruct Hin|].
  destruct Hin as [-> | Hin].
  - simpl. destruct (Hshort h) as (h1 & wn & -> & Hwn). simpl.
    apply multiWriter_Write_loop_keeps.
    apply Z.eqb_neq in Hwn. rewrite Hwn. simpl.
    rewrite errors_of_combineErrors. apply in_or_app. right. by left.
  - simpl. destruct (write w' h) as [h1 [wn werr]].
    destruct (negb (is_nil werr)); apply (IH Hin).
Qed.
End MultiWrite.

(** C9, as the code has it. [multiWriter.Write] reports [io.ErrShortWrite]
    for a writer that returns a count other than [len(p)] with a nil error;
    [ioCore.Write] drops the count its sink returns, so with a nil error
    from the sink it returns nil whatever the count was. *)
Theorem short_write_outcomes :
  (forall (writers : list Writer) (syncs : list SyncFunc) (p : bytes) (h : World)
          (w : Writer),
      In w writers ->
      (forall h0, exists h1 wn,
          Writer_Write w p h0 = (h1, (wn, nil_error)) /\ wn <> Z.of_nat (length p)) ->
      let err := snd (snd (Writer_Write (multiWriter writers syncs) p h)) in
      In ErrShortWrite (errors_of err) /\ err <> nil_error)
  /\ (forall (enc : Encoder) (w : Writer) (sync : option SyncFunc) (e : Entry)
             (h h1 : World) (b : Builder) (n : Z),
         Encoder_Encode enc getBuilder e = Some (b, nil_error) ->
         Writer_Write w (buf b) h = (h1, (n, nil_error)) ->
         Level e < ErrorLevel ->
         ioCore_Write enc w sync e h = Some (h1, nil_error)).
Proof.
  split.
  - intros writers syncs p h w Hin Hshort. cbn zeta.
    assert (H : In ErrShortWrite
                  (errors_of (snd (snd (Writer_Write (multiWriter writers syncs) p h))))).
    { simpl. by apply (multiWriter_Write_loop_short _ _ writers w). }
    split; [exact H | exact (errors_of_not_nil _ _ H)].
  - intros enc w sync e h h1 b n He Hw Hl.
    unfold ioCore_Write. rewrite He. simpl. rewrite Hw. simpl.
    apply Z.leb_gt in Hl. by rewrite Hl.
Qed.

(** C5, as the code has it. [ioCore.Write] returns the first error: an
    encode error with nothing written and nothing flushed; else a write
    error with nothing flushed; else, at the Error level or above, the
    result of the flush hook; else nil. *)
Theorem ioCore_Write_first_error (enc : Encoder) (w : Writer) (sync : option SyncFunc)
    (e : Entry) (h : World) (b : Builder) (eerr : error) :
  Encoder_Encode enc getBuilder e = Some (b, eerr) ->
  (eerr <> nil_error -> ioCore_Write enc w sync e h = Some (h, eerr))
  /\ (eerr = nil_error ->
      forall (h1 : World) (n : Z) (werr : error),
        Writer_Write w (buf b) h = (h1, (n, werr)) ->
        (werr <> nil_error -> ioCore_Write enc w sync e h = Some (h1, werr))
        /\ (werr = nil_error -> ErrorLevel <= Level e ->
            ioCore_Write enc w sync e h = Some (ioCore_Sync sync h1))
        /\ (werr = nil_error -> Level e < ErrorLevel ->
            ioCore_Write enc w sync e h = Some (h1, nil_error))).
Proof.
  intros He. unfold ioCore_Write. rewrite He. simpl. split.
  - intros Hne. destruct eerr; [congruence | reflexivity | reflexivity].
  - intros -> h1 n werr Hw. simpl. rewrite Hw. repeat split.
    + intros Hne. destruct werr; [congruence | reflexivity | reflexivity].
    + intros -> Hl. simpl. apply Z.leb_le in Hl. by rewrite Hl.
    + intros -> Hl. simpl. apply Z.leb_gt in Hl. by rewrite Hl.
Qed.

(** *** Rendering *)

(** [AppendTime] fills its array from the timestamp and the flags alone and
    appends the filled part to the builder. *)
Lemma AppendTime_appends (b : Builder) (t : Time) (flag : Z) :
  AppendTime b t flag
  = ts ← rendered (AppendTime empty_Builder t flag); Some (mkBuilder (buf b ++ ts)).
Proof.
  unfold AppendTime, rendered.
  repeat match goal with
         | |- mbind _ ?x = _ => destruct x as [[? ?]|]; simpl; try reflexivity
         end.
Qed.

Lemma O_appendTo_from_pos (i j : nat) (b : Builder) (o : list Field) :
  O_appendTo_from (S i) b o = O_appendTo_from (S j) b o.
Proof.
  revert i j b. induction o as [|f o IH]; intros i j b; simpl; [reflexivity|].
  destruct (Field_appendTo _ f) as [b1|]; simpl; [apply IH | reflexivity].
Qed.

Lemma O_appendTo_from_app (i : nat) (b : Builder) (l1 l2 : list Field) :
  O_appendTo_from i b (l1 ++ l2)
  = b1 ← O_appendTo_from i b l1; O_appendTo_from (i + length l1) b1 l2.
Proof.
  revert i b. induction l1 as [|f l1 IH]; intros i b; simpl.
  - by rewrite Nat.add_0_r.
  - destruct (Field_appendTo _ f) as [b1|]; simpl; [|reflexivity].
    rewrite IH. by rewrite Nat.add_succ_r.
Qed.



Ltac norm_buf :=
  unfold Builder_WriteString, Builder_WriteByte, AppendInt, caller_text;
  repeat first
    [ rewrite <- app_assoc
    | progress cbn [buf app B list_ascii_of_string Caller Line File] ].



(** The escaping loop only appends: a prefix [p] of the builder is carried
    through unchanged. *)
Lemma appendEscape_loop_prefix (safe : Z -> bool) (s p : bytes) (fuel : nat) :
  forall (b : Builder) (start i : nat),
    appendEscape_loop fuel safe s (mkBuilder (p ++ buf b)) start i
    = (mkBuilder (p ++ buf (fst (appendEscape_loop fuel safe s b start i))),
       snd (appendEscape_loop fuel safe s b start i)).
Proof.
  induction fuel as [|fuel IH]; intros b start i; simpl; [reflexivity|].
  destruct (s !! i) as [ch|]; [|reflexivity].
  destruct (byteZ ch <? 128).
  - destruct (safe (byteZ ch)); [apply IH|].
    rewrite <- IH. f_equal.
    destruct (start <? i)%nat;
      repeat match goal with |- context [if ?c then _ else _] => destruct c end;
      norm_buf; reflexivity.
  - destruct (utf8_DecodeRuneInString (drop i s)) as [r size].
    destruct ((r =? RuneError) && (size =? 1)%nat);
      [|destruct ((r =? 8232) || (r =? 8233)); [|apply IH]];
      rewrite <- IH; f_equal; destruct (start <? i)%nat; norm_buf; reflexivity.
Qed.

Lemma appendEscape_appends (b : Builder) (s : bytes) (safe : Z -> bool) :
  appendEscape b s safe = mkBuilder (buf b ++ buf (appendEscape empty_Builder s safe)).
Proof.
  unfold appendEscape.
  replace b with (mkBuilder (buf b ++ buf empty_Builder)) at 1
    by (destruct b; simpl; by rewrite app_nil_r).
  rewrite appendEscape_loop_prefix.
  destruct (appendEscape_loop _ _ _ empty_Builder _ _) as [b0 start]; simpl.
  destruct (start <? length s)%nat; norm_buf; reflexivity.
Qed.

Lemma AppendHTMLQuote_appends (b : Builder) (s : bytes) :
  AppendHTMLQuote b s = mkBuilder (buf b ++ buf (AppendHTMLQuote empty_Builder s)).
Proof.
  unfold AppendHTMLQuote.
  rewrite (appendEscape_appends (Builder_WriteByte b quote)).
  rewrite (appendEscape_appends (Builder_WriteByte empty_Builder quote)).
  norm_buf; reflexivity.
Qed.

(** The fields of the JSON line: each one after a comma, the context
    fields first. *)
Lemma json_fields (b : Builder) (ctx fields : list Field) :
  (b1 ← (if (0 <? length ctx)%nat then O_appendTo (Builder_WriteByte b ","%char) ctx
         else Some b);
   if (0 <? length fields)%nat then O_appendTo (Builder_WriteByte b1 ","%char) fields
   else Some b1)
  = O_appendTo_from 1 b (ctx ++ fields).
Proof.
  assert (H : forall (b : Builder) (l : list Field),
             (if (0 <? length l)%nat then O_appendTo (Builder_WriteByte b ","%char) l
              else Some b) = O_appendTo_from 1 b l).
  { intros b0 [|f l]; [reflexivity|]. unfold O_appendTo; simpl.
    destruct (Field_appendTo _ f); simpl; [apply O_appendTo_from_pos | reflexivity]. }
  rewrite O_appendTo_from_app, H.
  destruct (O_appendTo_from 1 b ctx) as [b1|]; simpl; [|reflexivity].
  rewrite H. apply O_appendTo_from_pos.
Qed.

(** The layout of the JSON line where the timestamp can be rendered: one
    object with the members [level], [time], [logger] when the entry has a
    logger name, [caller] when a file flag is set and the caller is
    defined, [msg], then the context fields and the call-site fields, each
    after a comma, and a closing brace and newline. *)
Theorem jsonEncoder_Encode_layout (flags : Z) (b : Builder) (e : Entry) :
  jsonEncoder_Encode flags b e
  = ts ← rendered (AppendTime empty_Builder (Time_ e) Trfc3339Nano);
    b' ← O_appendTo_from 1 (mkBuilder (buf b ++ json_head flags e ts)) (Ctx e ++ Fields e);
    Some (mkBuilder (buf b' ++ "}"%char :: [newline]), nil_error).
Proof.
  unfold jsonEncoder_Encode, json_head, has_name, has_caller.
  destruct e as [lvl t caller msg fields name ctx]; cbn [Level Time_ Caller Message
    Fields LoggerName Ctx].
  rewrite AppendTime_appends.
  destruct (rendered (AppendTime empty_Builder t Trfc3339Nano)) as [ts|]; [|reflexivity].
  cbn [mbind option_bind].
  match goal with
  | |- (if _ then O_appendTo (Builder_WriteByte ?x _) _ else _) ≫= _ = _ =>
      set (X := x)
  end.
  match goal with
  | |- _ = O_appendTo_from 1 ?y _ ≫= _ => set (Y := y)
  end.
  assert (E : X = Y).
  { subst X Y.
    destruct name as [|c name];
      destruct (has flags (Z.lor Llongfile Lshortfile) && Defined caller);
      cbn [negb is_empty];
      rewrite ?(AppendHTMLQuote_appends (Builder_WriteString _ _));
      norm_buf; reflexivity. }
  rewrite E, <- json_fields.
  destruct (if (0 <? length ctx)%nat then _ else _) as [b1|]; simpl; [|reflexivity].
  destruct (if (0 <? length fields)%nat then _ else _); reflexivity.
Qed.


(** *** More of the builder *)

(** X3. The timestamp of a console line. For a time with a four-digit
    year, at any offset from UTC, [AppendTime] with the flags that
    [timeFlags] derives from the log flags appends the date, the time of
    day and six digits of the fraction as the log flags ask; with
    [Lmicroseconds] and without [Ltime] the time of day is written all the
    same. It never panics: [timeFlags] never asks for the zone. *)
Theorem AppendTime_console_flags (b : Builder) (t : Time) (flags : Z) :
  valid_time t ->
  AppendTime b t (timeFlags flags)
  = Some (mkBuilder (buf b ++ console_time_text flags t)).
Proof.
  intros (Hy & Hmo & Hda & Hh & Hmi & Hs & Hn).
  unfold timeFlags, console_time_text, AppendTime.
  rewrite !uint64_small by lia.
  set (buf0 := replicate 40 Ascii.zero).
  assert (Hl0 : length buf0 = 40%nat) by apply length_replicate.
  assert (Hd0 : drop 40 buf0 = []) by reflexivity.
  clearbody buf0.
  destruct (has flags Ldate), (has flags Ltime), (has flags Lmicroseconds);
    cbv zeta; cbn [orb andb]; eval_has.
  all: cbn [mbind option_bind].
  all: repeat step.
  all: unfold Builder_Write; do 2 f_equal.
  all: repeat match goal with
         | H : drop ?w ?b = _ |- context [drop ?w ?b] => rewrite H
         end.
  all: unfold layout_date, layout_clock.
  all: repeat first [rewrite <- app_assoc | rewrite app_nil_r
                    | progress cbn [app B list_ascii_of_string]].
  all: try reflexivity.
Qed.

(** X4. [Truncate] with the length a builder had undoes what was appended
    since; outside [0 .. Len] it panics; [Truncate(0)] is [Reset]. *)
Theorem Truncate_rolls_back (b : Builder) :
  (forall (b' : Builder) (out : bytes),
      buf b' = buf b ++ out ->
      Builder_Truncate b' (Z.of_nat (Builder_Len b)) = Some b)
  /\ (forall n : Z, n < 0 \/ Z.of_nat (Builder_Len b) < n -> Builder_Truncate b n = None)
  /\ Builder_Truncate b 0 = Some (Builder_Reset b).
Proof.
  unfold Builder_Truncate, Builder_Reset, Builder_Len. repeat split.
  - intros b' out E. rewrite E, length_app.
    replace (Z.of_nat (length (buf b)) <? 0) with false by (symmetry; apply Z.ltb_ge; lia).
    replace (Z.of_nat (length (buf b) + length out) <? Z.of_nat (length (buf b)))
      with false by (symmetry; apply Z.ltb_ge; lia).
    simpl. rewrite Nat2Z.id, take_length_app. by destruct b.
  - intros n [H|H].
    + apply Z.ltb_lt in H. by rewrite H.
    + apply Z.ltb_lt in H. rewrite H. by rewrite orb_true_r.
  - replace (Z.of_nat (length (buf b)) <? 0) with false by (symmetry; apply Z.ltb_ge; lia).
    reflexivity.
Qed.

Lemma appendEscape_loop_safe (safe : Z -> bool) (s : bytes) :
  Forall (fun c => byteZ c < 128 /\ safe (byteZ c) = true) s ->
  forall (fuel : nat) (b : Builder) (start i : nat),
    appendEscape_loop fuel safe s b start i = (b, start).
Proof.
  intros Hs. induction fuel as [|fuel IH]; intros b start i; simpl; [reflexivity|].
  destruct (s !! i) as [ch|] eqn:E; [|reflexivity].
  rewrite Forall_lookup in Hs. destruct (Hs _ _ E) as [H1 H2].
  apply Z.ltb_lt in H1. rewrite H1, H2. apply IH.
Qed.

Lemma appendEscape_safe (safe : Z -> bool) (b : Builder) (s : bytes) :
  Forall (fun c => byteZ c < 128 /\ safe (byteZ c) = true) s ->
  appendEscape b s safe = mkBuilder (buf b ++ s).
Proof.
  intros Hs. unfold appendEscape. rewrite appendEscape_loop_safe by exact Hs.
  destruct s as [|c s]; simpl.
  - destruct b; simpl. by rewrite app_nil_r.
  - reflexivity.
Qed.

Lemma safeSet_ascii (c : Z) : safeSet c = true -> c < 128.
Proof. unfold safeSet. intros H. destruct (Z.ltb_spec c 128); [lia|].
  rewrite andb_false_r in H. discriminate. Qed.

Lemma htmlSafeSet_safeSet (c : Z) : htmlSafeSet c = true -> safeSet c = true.
Proof.
  unfold htmlSafeSet, safeSet. intros H.
  repeat (apply andb_true_iff in H; destruct H as [H ?]).
  repeat (apply andb_true_iff; split); assumption.
Qed.

(** X5. A string of bytes of the safe set is quoted as it is: [AppendQuote]
    appends a quote, the string and a quote when every byte is in
    [safeSet], and [AppendHTMLQuote] does when every byte is in
    [htmlSafeSet]. *)
Theorem AppendQuote_safe_verbatim (b : Builder) (s : bytes) :
  (Forall (fun c => safeSet (byteZ c) = true) s ->
   AppendQuote b s = mkBuilder (buf b ++ quote :: s ++ [quote]))
  /\ (Forall (fun c => htmlSafeSet (byteZ c) = true) s ->
      AppendHTMLQuote b s = mkBuilder (buf b ++ quote :: s ++ [quote])).
Proof.
  split; intros Hs.
  - unfold AppendQuote. rewrite appendEscape_safe.
    + unfold Builder_WriteByte; simpl. by rewrite <- !app_assoc.
    + eapply Forall_impl; [exact Hs|]. intros c Hc. split; [by apply safeSet_ascii | exact Hc].
  - unfold AppendHTMLQuote. rewrite appendEscape_safe.
    + unfold Builder_WriteByte; simpl. by rewrite <- !app_assoc.
    + eapply Forall_impl; [exact Hs|]. intros c Hc.
      split; [by apply safeSet_ascii, htmlSafeSet_safeSet | exact Hc].
Qed.


Lemma byteZ_range (c : ascii) : 0 <= byteZ c < 256.
Proof. unfold byteZ. pose proof (N_ascii_bounded c). lia. Qed.

Lemma slice_snoc (s : bytes) (start i : nat) (ch : ascii) :
  (start <= i)%nat -> s !! i = Some ch -> slice s start (S i) = slice s start i ++ [ch].
Proof.
  intros Hle E. unfold slice.
  replace (S i - start)%nat with ((i - start) + 1)%nat by lia.
  rewrite <- take_take_drop, drop_drop.
  replace (start + (i - start))%nat with i by lia.
  by rewrite (drop_S _ _ _ E).
Qed.

Lemma slice_app (s : bytes) (start i size : nat) :
  (start <= i)%nat -> slice s start (i + size) = slice s start i ++ take size (drop i s).
Proof.
  intros Hle. unfold slice.
  replace (i + size - start)%nat with ((i - start) + size)%nat by lia.
  rewrite <- take_take_drop, drop_drop.
  by replace (start + (i - start))%nat with i by lia.
Qed.

Lemma slice_all (s : bytes) (start i : nat) :
  (length s <= i)%nat -> slice s start i = drop start s.
Proof.
  intros Hle. unfold slice. apply take_ge. rewrite length_drop. lia.
Qed.

(** A multi-byte sequence that [utf8.DecodeRuneInString] accepts, and the
    single byte it rejects, are bytes from 128 up. *)
Lemma utf8_DecodeRuneInString_bytes (c0 : ascii) (rest : bytes) (r : Z) (size : nat) :
  utf8_DecodeRuneInString (c0 :: rest) = (r, size) ->
  128 <= byteZ c0 ->
  (1 <= size)%nat /\ Forall (fun c => 128 <= byteZ c) (take size (c0 :: rest)).
Proof.
  intros E H0. unfold utf8_DecodeRuneInString in E.
  assert (H1 : forall x y : Z * nat, x = y -> snd x = snd y) by (by intros ? ? ->).
  assert (Hone : (1 <= 1)%nat /\ Forall (fun c => 128 <= byteZ c) (take 1 (c0 :: rest))).
  { split; [lia|]. simpl. rewrite take_0. by repeat constructor. }
  replace (byteZ c0 <? 128) with false in E by (symmetry; apply Z.ltb_ge; lia).
  repeat match type of E with
         | (if ?c then _ else _) = _ => destruct c eqn:?
         | match ?l with [] => _ | _ :: _ => _ end = _ => destruct l as [|? ?]
         | (let sz := _ in _) = _ => cbv zeta in E
         end;
    try (injection E as <- <-; exact Hone).
  all: injection E as <- <-.
  all: repeat match goal with
         | H : (_ <? _) || (_ <? _) = false |- _ =>
             apply orb_false_iff in H; destruct H as [?%Z.ltb_ge ?%Z.ltb_ge]
         | H : negb ((_ <=? _) && (_ <=? _)) = false |- _ =>
             apply negb_false_iff, andb_true_iff in H; destruct H as [?%Z.leb_le ?%Z.leb_le]
         | H : (_ <? _) = _ |- _ => first [apply Z.ltb_lt in H | apply Z.ltb_ge in H]
         | H : (_ =? _) = _ |- _ => first [apply Z.eqb_eq in H | apply Z.eqb_neq in H]
         end.
  all: split; [lia|].
  all: cbn [take]; rewrite ?take_0; repeat constructor; try lia.
  all: repeat match goal with
         | H : context [if ?c then _ else _] |- _ => destruct c
         end; lia.
Qed.

Ltac each_byte :=
  repeat match goal with
         | |- Forall _ (_ :: _) => constructor
         | |- Forall _ [] => constructor
         end.

Ltac norm_out :=
  cbn [buf Builder_WriteByte Builder_WriteString B list_ascii_of_string];
  rewrite <- ?app_assoc; cbn [app].

Section Escape.
Context (safe : Z -> bool) (good : ascii -> bool).
Context (Hcopied : forall c, copied safe c = true -> good c = true).
Context (Hascii : forall c, 32 <= byteZ c < 128 -> byteZ c <> 60 -> byteZ c <> 62 ->
                            byteZ c <> 38 -> good c = true).

Lemma hex_good (i : Z) : 0 <= i < 16 -> good (_hex i) = true.
Proof.
  intros Hi. apply Hascii.
  all: unfold _hex.
  all: assert (H : In (Z.to_nat i) (seq 0 16)) by (apply in_seq; lia).
  all: cbn [seq In] in H.
  all: repeat destruct H as [<-|H]; try contradiction.
  all: match goal with
       | |- context [byteZ ?x] =>
           let v := eval vm_compute in (byteZ x) in change (byteZ x) with v
       end; lia.
Qed.

Lemma flush_good (s : bytes) (b : Builder) (start i : nat) :
  Forall (fun c => copied safe c = true) (slice s start i) ->
  Forall (fun c => good c = true) (buf b) ->
  Forall (fun c => good c = true)
    (buf (if (start <? i)%nat then Builder_WriteString b (slice s start i) else b)).
Proof.
  intros Hs Hb. destruct (start <? i)%nat; [|exact Hb].
  simpl. apply Forall_app. split; [exact Hb|].
  eapply Forall_impl; [exact Hs|]. exact Hcopied.
Qed.

Lemma appendEscape_loop_good (s : bytes) (fuel : nat) :
  forall (b : Builder) (start i : nat),
    (start <= i)%nat -> (length s <= i + fuel)%nat ->
    Forall (fun c => copied safe c = true) (slice s start i) ->
    Forall (fun c => good c = true) (buf b) ->
    Forall (fun c => good c = true) (buf (fst (appendEscape_loop fuel safe s b start i)))
    /\ Forall (fun c => copied safe c = true)
         (drop (snd (appendEscape_loop fuel safe s b start i)) s).
Proof.
  induction fuel as [|fuel IH]; intros b start i Hle Hfuel Hs Hb.
  { simpl. split; [exact Hb|]. rewrite <- (slice_all s start i) by lia. exact Hs. }
  simpl. destruct (s !! i) as [ch|] eqn:E.
  2:{ simpl. split; [exact Hb|].
      apply lookup_ge_None in E. rewrite <- (slice_all s start i) by lia. exact Hs. }
  pose proof (byteZ_range ch) as Hch.
  assert (Hnil : forall j, Forall (fun c => copied safe c = true) (slice s j j)).
  { intros j. unfold slice. rewrite Nat.sub_diag, take_0. constructor. }
  destruct (Z.ltb_spec (byteZ ch) 128) as [Hlt|Hge].
  - destruct (safe (byteZ ch)) eqn:Esafe.
    + apply IH; [lia | lia | | exact Hb].
      rewrite (slice_snoc s start i ch) by done.
      apply Forall_app. split; [exact Hs|]. constructor; [|constructor].
      unfold copied. by rewrite Esafe.
    + apply IH; [lia | lia | apply Hnil |].
      pose proof (flush_good s b start i Hs Hb) as Hf.
      set (bf := if (start <? i)%nat then _ else b) in *. clearbody bf.
      assert (Hbs : good "\"%char = true) by (apply Hascii; vm_compute; intuition congruence).
      destruct ((byteZ ch =? 92) || (byteZ ch =? 34)) eqn:E1;
        [|destruct (byteZ ch =? 10);
          [|destruct (byteZ ch =? 13); [|destruct (byteZ ch =? 9)]]];
        norm_out; (apply Forall_app; split; [exact Hf|]); each_byte;
        try (apply Hascii; vm_compute; intuition congruence).
      * apply orb_true_iff in E1. apply Hascii; destruct E1 as [?%Z.eqb_eq| ?%Z.eqb_eq]; lia.
      * apply hex_good. rewrite Z.shiftr_div_pow2 by lia.
        change (2 ^ 4) with 16. Z.div_mod_to_equations; lia.
      * apply hex_good. change 15 with (Z.ones 4). rewrite Z.land_ones by lia.
        change (2 ^ 4) with 16. Z.div_mod_to_equations; lia.
  - destruct (utf8_DecodeRuneInString (drop i s)) as [r size] eqn:Ed.
    rewrite (drop_S _ _ _ E) in Ed.
    destruct (utf8_DecodeRuneInString_bytes _ _ _ _ Ed Hge) as [Hsize Hbytes].
    rewrite <- (drop_S _ _ _ E) in Hbytes.
    pose proof (flush_good s b start i Hs Hb) as Hf.
    destruct ((r =? RuneError) && (size =? 1)%nat);
      [|destruct ((r =? 8232) || (r =? 8233))].
    + apply IH; [lia | lia | apply Hnil |].
      set (bf := if (start <? i)%nat then _ else b) in *. clearbody bf.
      norm_out. apply Forall_app; split; [exact Hf|].
      each_byte; apply Hascii; vm_compute; intuition congruence.
    + apply IH; [lia | lia | apply Hnil |].
      set (bf := if (start <? i)%nat then _ else b) in *. clearbody bf.
      norm_out. apply Forall_app; split; [exact Hf|].
      each_byte; try (apply Hascii; vm_compute; intuition congruence).
      apply hex_good. change 15 with (Z.ones 4). rewrite Z.land_ones by lia.
      change (2 ^ 4) with 16. Z.div_mod_to_equations; lia.
    + apply IH; [lia | lia | | exact Hb].
      rewrite slice_app by done. apply Forall_app; split; [exact Hs|].
      eapply Forall_impl; [exact Hbytes|]. intros c Hc. unfold copied.
      apply orb_true_iff. right. by apply Z.leb_le.
Qed.

Lemma appendEscape_good (b : Builder) (s : bytes) :
  Forall (fun c => good c = true) (buf b) ->
  Forall (fun c => good c = true) (buf (appendEscape b s safe)).
Proof.
  intros Hb. unfold appendEscape.
  destruct (appendEscape_loop_good s (length s) b 0 0) as [H1 H2];
    [lia | lia | constructor | exact Hb |].
  destruct (appendEscape_loop (length s) safe s b 0 0) as [b1 start]; simpl in *.
  destruct (start <? length s)%nat; [|exact H1].
  simpl. apply Forall_app; split; [exact H1|].
  eapply Forall_impl; [exact H2|]. exact Hcopied.
Qed.

End Escape.

(** X6. The quoting functions only append, and what they append holds no
    control byte (no byte below 32); what [AppendHTMLQuote] appends holds
    none of [<], [>] and [&] either. *)
Theorem AppendQuote_output_bytes (b : Builder) (s : bytes) :
  (exists out, buf (AppendQuote b s) = buf b ++ out
               /\ Forall (fun c => no_control c = true) out)
  /\ (exists out, buf (AppendHTMLQuote b s) = buf b ++ out
                  /\ Forall (fun c => html_inert c = true) out).
Proof.
  split.
  - exists (buf (AppendQuote empty_Builder s)). split.
    + unfold AppendQuote. rewrite (appendEscape_appends (Builder_WriteByte b quote)).
      rewrite (appendEscape_appends (Builder_WriteByte empty_Builder quote)).
      simpl. by rewrite <- !app_assoc.
    + unfold AppendQuote. simpl. apply Forall_app; split; [|by repeat constructor].
      apply appendEscape_good; [| |by repeat constructor].
      * intros c Hc. unfold copied, safeSet in Hc. unfold no_control.
        apply orb_true_iff in Hc. destruct Hc as [Hc|Hc].
        -- by repeat (apply andb_true_iff in Hc; destruct Hc as [Hc ?]).
        -- apply Z.leb_le in Hc. apply Z.leb_le. lia.
      * intros c Hc _ _ _. apply Z.leb_le. lia.
  - exists (buf (AppendHTMLQuote empty_Builder s)). split.
    + by rewrite AppendHTMLQuote_appends.
    + unfold AppendHTMLQuote. simpl. apply Forall_app; split; [|by repeat constructor].
      assert (Hi : forall c, 32 <= byteZ c -> byteZ c <> 60 -> byteZ c <> 62 ->
                             byteZ c <> 38 -> html_inert c = true).
      { intros c H1 H2 H3 H4. unfold html_inert, no_control, is_byte.
        repeat (apply andb_true_iff; split); [by apply Z.leb_le | | |];
          apply negb_true_iff, Ascii.eqb_neq; intros ->; by vm_compute in *. }
      apply appendEscape_good; [| |by repeat constructor].
      * intros c Hc. unfold copied, htmlSafeSet in Hc.
        apply orb_true_iff in Hc. destruct Hc as [Hc|Hc].
        -- repeat (apply andb_true_iff in Hc; destruct Hc as [Hc ?]).
           apply Hi; [by apply Z.leb_le | | |];
             intros Heq; rewrite Heq in *; discriminate.
        -- apply Z.leb_le in Hc. apply Hi; lia.
      * intros c Hc. apply Hi; lia.
Qed.


(** X8. [AppendJSON] returns a non-nil error only from its default branch:
    for a value of a type it has a case for, the error is nil whenever the
    call returns. *)
Theorem AppendJSON_error_only_by_reflection (b b' : Builder) (iv : Value) (err : error) :
  falls_through iv = false ->
  AppendJSON b iv = Some (b', err) ->
  err = nil_error.
Proof.
  intros Hf E.
  destruct iv; try discriminate Hf;
    try match goal with k : UintKind |- _ => destruct k end;
    cbn [AppendJSON] in E;
    repeat match type of E with
           | mbind _ ?x = _ => destruct x; cbn [mbind option_bind] in E
           end;
    congruence.
Qed.

(** X9. [AppendJSON] panics on a nil pointer of a pointer type it has a
    case for, and renders a non-nil pointer as the value it points to. *)
Theorem AppendJSON_pointers (b : Builder) (iv : Value) :
  (pointee iv = Some None -> AppendJSON b iv = None)
  /\ (forall v : Value, pointee iv = Some (Some v) -> AppendJSON b iv = AppendJSON b v).
Proof.
  split.
  - intros H. destruct iv; try discriminate H;
      match goal with p : option _ |- _ => destruct p end; try discriminate H; reflexivity.
  - intros v H. destruct iv; try discriminate H;
      match goal with p : option _ |- _ => destruct p end; try discriminate H;
      injection H as <-; reflexivity.
Qed.

Lemma range_comma_joined {A : Type} (f : Builder -> A -> Builder) (g : A -> bytes) :
  (forall b e, f b e = mkBuilder (buf b ++ g e)) ->
  forall (v : list A) (i : nat) (b : Builder),
    range_comma f i b v
    = mkBuilder (buf b ++ (if (0 <? i)%nat && negb (is_empty v) then [","%char] else [])
                 ++ comma_joined (map g v)).
Proof.
  intros Hf. induction v as [|e v IH]; intros i b.
  - simpl. rewrite andb_false_r. simpl. rewrite app_nil_r. by destruct b.
  - cbn [range_comma map]. rewrite IH, Hf. cbn [is_empty negb buf].
    rewrite andb_true_r.
    replace (0 <? S i)%nat with true by reflexivity. cbn [andb].
    f_equal.
    destruct (0 <? i)%nat; cbn [Builder_WriteByte buf]; destruct v as [|e' v];
      cbn [is_empty negb map comma_joined]; rewrite <- ?app_assoc; cbn [app];
      rewrite ?app_nil_r; reflexivity.
Qed.

Lemma appendSlice_joined {A : Type} (f : Builder -> A -> Builder) (g : A -> bytes)
    (b : Builder) (v : list A) :
  (forall b e, f b e = mkBuilder (buf b ++ g e)) ->
  appendSlice f b (Some v)
  = mkBuilder (buf b ++ "["%char :: comma_joined (map g v) ++ ["]"%char]).
Proof.
  intros Hf. unfold appendSlice, appendNullOrElse. cbn [is_nil_slice default].
  rewrite (range_comma_joined f g Hf). cbn [Nat.ltb Nat.leb andb].
  unfold Builder_WriteByte. cbn [buf default from_option id app].
  rewrite <- !app_assoc. reflexivity.
Qed.

(** X10. A non-nil slice of strings, booleans or integers (other than
    bytes) is rendered as a bracketed list of its elements as [AppendJSON]
    renders each, with one comma between neighbours and none at the
    ends. *)
Theorem AppendJSON_arrays (b : Builder) (iv : Value) (texts : list bytes) :
  element_texts iv = Some texts ->
  AppendJSON b iv
  = Some (mkBuilder (buf b ++ "["%char :: comma_joined texts ++ ["]"%char]), nil_error).
Proof.
  intros H.
  destruct iv; try discriminate H;
    try match goal with k : UintKind |- _ => destruct k end;
    try discriminate H;
    match goal with v : option (list _) |- _ => destruct v as [v|] end;
    try discriminate H; injection H as <-; cbn [AppendJSON]; do 2 f_equal;
    apply appendSlice_joined; try reflexivity.
  intros b0 e. apply AppendHTMLQuote_appends.
Qed.

(** *** More of the entries and the encoders *)

(** X11. [Field.appendTo] drops the error of [AppendJSON]: for a value that
    the reflection encoder rejects it appends the quoted key and the colon
    and nothing after them. *)
Theorem Field_appendTo_rejected (b : Builder) (key : bytes) (x : Other) :
  snd (reflectEnc_Encode (VOther x)) <> nil_error ->
  Field_appendTo b (F key (VOther x))
  = Some (Builder_WriteByte (AppendQuote b key) ":"%char).
Proof.
  intros Hne. cbn [Field_appendTo]. unfold AppendJSON.
  destruct (reflectEnc_Encode (VOther x)) as [written err]. simpl in Hne.
  destruct err; [congruence| |]; simpl;
    unfold Builder_Len; rewrite take_length_app; reflexivity.
Qed.

Lemma callerFile_loop_base (dir base : bytes) :
  dir <> [] -> Forall (fun c => not_slash c = true) base ->
  forall k : nat, (k <= length base)%nat ->
    callerFile_loop (dir ++ "/"%char :: base) (length dir + k) = base.
Proof.
  intros Hd Hb. induction k as [|k IH]; intros Hk.
  - rewrite Nat.add_0_r. destruct dir as [|d dir]; [congruence|].
    cbn [length callerFile_loop].
    change (nth (S (length dir)) ((d :: dir) ++ "/"%char :: base) Ascii.zero)
      with (nth (length (d :: dir)) ((d :: dir) ++ "/"%char :: base) Ascii.zero).
    rewrite app_nth2 by lia. rewrite Nat.sub_diag. cbn [nth is_byte].
    rewrite Ascii.eqb_refl.
    rewrite drop_app_ge by (simpl; lia).
    replace (S (S (length dir)) - length (d :: dir))%nat with 1%nat by (simpl; lia).
    reflexivity.
  - rewrite Nat.add_succ_r. cbn [callerFile_loop].
    rewrite app_nth2 by lia.
    replace (S (length dir + k) - length dir)%nat with (S k) by lia.
    cbn [nth].
    assert (Hn : not_slash (nth k base Ascii.zero) = true).
    { rewrite Forall_forall in Hb. apply Hb, list_elem_of_In, nth_In. lia. }
    unfold not_slash in Hn. apply negb_true_iff in Hn. rewrite Hn.
    apply IH. lia.
Qed.

Lemma callerFile_loop_none (file : bytes) :
  Forall (fun c => not_slash c = true) (drop 1 file) ->
  forall i : nat, callerFile_loop file i = file.
Proof.
  intros Hf. induction i as [|i IH]; [reflexivity|].
  cbn [callerFile_loop].
  destruct file as [|c file]; [destruct i; exact IH|].
  cbn [nth]. simpl in Hf.
  destruct (Nat.lt_ge_cases i (length file)) as [Hlt|Hge].
  - assert (Hn : not_slash (nth i file Ascii.zero) = true).
    { rewrite Forall_forall in Hf. by apply Hf, list_elem_of_In, nth_In. }
    unfold not_slash in Hn. apply negb_true_iff in Hn. rewrite Hn. exact IH.
  - rewrite nth_overflow by lia. exact IH.
Qed.

(** X12. Without [Lshortfile], [callerFile] returns the file name as it
    is. With it, the result is what follows the last slash, where the
    slash at index 0 does not count: a name with no slash after its first
    byte is returned as it is. *)
Theorem callerFile_last_element (file : bytes) (flags : Z) :
  (has flags Lshortfile = false -> callerFile file flags = file)
  /\ (has flags Lshortfile = true ->
      (forall dir base : bytes,
          file = dir ++ "/"%char :: base -> dir <> [] ->
          Forall (fun c => not_slash c = true) base ->
          callerFile file flags = base)
      /\ (Forall (fun c => not_slash c = true) (drop 1 file) ->
          callerFile file flags = file)).
Proof.
  unfold callerFile. split; intros ->; [reflexivity|]. split.
  - intros dir base -> Hd Hb.
    replace (length (dir ++ "/"%char :: base) - 1)%nat with (length dir + length base)%nat
      by (rewrite length_app; simpl; lia).
    by apply callerFile_loop_base.
  - intros Hf. by apply callerFile_loop_none.
Qed.



(** *** Error values *)


Lemma error_Error_multiError (es : list error) :
  error_Error (multiError es) = b ← writeSingleline true getBuilder es; Some (buf b).
Proof.
  reflexivity.
Qed.

Lemma writeSingleline_joined (items : list error) :
  forall (first : bool) (w : Builder),
    writeSingleline first w items
    = msgs ← mapM error_Error items;
      Some (mkBuilder (buf w ++ (if first || is_empty items then []
                                 else _singlelineSeparator) ++ joined msgs)).
Proof.
  induction items as [|e items IH]; intros first w.
  - simpl. rewrite orb_true_r. simpl. rewrite app_nil_r. by destruct w.
  - cbn [writeSingleline mapM]. destruct (error_Error e) as [s|]; [|reflexivity].
    cbn [mbind option_bind]. rewrite IH.
    destruct (mapM error_Error items) as [msgs|] eqn:Em; [|reflexivity].
    cbn [mbind option_bind mret option_ret]. do 2 f_equal.
    cbn [is_empty orb]. rewrite orb_false_r.
    destruct items as [|e' items].
    + simpl in Em. injection Em as <-. cbn [is_empty joined].
      destruct first; cbn [buf Builder_Write Builder_WriteString app];
        rewrite <- ?app_assoc, ?app_nil_r; reflexivity.
    + assert (exists m msgs', msgs = m :: msgs') as (m & msgs' & ->).
      { simpl in Em. destruct (error_Error e'); [|discriminate].
        simpl in Em. destruct (mapM error_Error items); [|discriminate].
        injection Em as <-. eauto. }
      cbn [is_empty joined].
      destruct first; cbn [buf Builder_Write Builder_WriteString app];
        rewrite <- ?app_assoc; reflexivity.
Qed.

Lemma joined_app (xs ys : list bytes) :
  xs <> [] -> ys <> [] ->
  joined (xs ++ ys) = joined xs ++ _singlelineSeparator ++ joined ys.
Proof.
  intros Hx Hy. induction xs as [|x xs IH]; [congruence|].
  destruct xs as [|x' xs].
  - destruct ys; [congruence|]. reflexivity.
  - change (joined ((x :: x' :: xs) ++ ys))
      with (x ++ _singlelineSeparator ++ joined ((x' :: xs) ++ ys)).
    rewrite IH by discriminate.
    change (joined (x :: x' :: xs)) with (x ++ _singlelineSeparator ++ joined (x' :: xs)).
    by rewrite <- !app_assoc.
Qed.

Lemma error_Error_errors_of (e : error) :
  errors_of e <> [] ->
  error_Error e = joined <$> mapM error_Error (errors_of e).
Proof.
  intros Hne. destruct e as [|m|es]; [by simpl in Hne| |].
  - reflexivity.
  - rewrite error_Error_multiError, writeSingleline_joined. simpl.
    destruct (mapM error_Error es); reflexivity.
Qed.

Lemma mapM_option_app {A B : Type} (f : A -> option B) (l k : list A) :
  mapM f (l ++ k) = x ← mapM f l; y ← mapM f k; Some (x ++ y).
Proof.
  induction l as [|a l IH]; simpl.
  - destruct (mapM f k); reflexivity.
  - destruct (f a); [|reflexivity]. simpl. rewrite IH.
    destruct (mapM f l); [|reflexivity]. simpl.
    destruct (mapM f k); reflexivity.
Qed.

(** X15. The message of a combination is the two messages joined by
    ["; "], for arguments that stand for at least one error each. *)
Theorem error_Error_combineErrors (l r : error) :
  errors_of l <> [] -> errors_of r <> [] ->
  error_Error (combineErrors l r)
  = lm ← error_Error l; rm ← error_Error r; Some (lm ++ B "; " ++ rm).
Proof.
  intros Hl Hr.
  assert (E : combineErrors l r = multiError (errors_of l ++ errors_of r)).
  { destruct l, r; try reflexivity; simpl in *; congruence. }
  rewrite E, (error_Error_errors_of l), (error_Error_errors_of r) by assumption.
  rewrite error_Error_errors_of; cbn [errors_of].
  2:{ destruct (errors_of l); [congruence | discriminate]. }
  rewrite mapM_option_app.
  destruct (mapM error_Error (errors_of l)) as [lm|] eqn:El; [|reflexivity].
  destruct (mapM error_Error (errors_of r)) as [rm|] eqn:Er; [|reflexivity].
  simpl. f_equal. apply joined_app.
  - intros ->. apply length_mapM in El. destruct (errors_of l); [congruence|discriminate].
  - intros ->. apply length_mapM in Er. destruct (errors_of r); [congruence|discriminate].
Qed.

Lemma strings_IndexByte_spec (s : bytes) (c : ascii) :
  (strings_IndexByte s c = -1 /\ Forall (fun x => Ascii.eqb x c = false) s)
  \/ (exists pre post, s = pre ++ c :: post
                       /\ Forall (fun x => Ascii.eqb x c = false) pre
                       /\ strings_IndexByte s c = Z.of_nat (length pre)).
Proof.
  induction s as [|x s IH]; [left; by split|].
  cbn [strings_IndexByte]. destruct (Ascii.eqb x c) eqn:E.
  - right. apply Ascii.eqb_eq in E as ->. exists [], s. by repeat split.
  - destruct IH as [[-> Hs]|(pre & post & -> & Hpre & ->)].
    + left. split; [reflexivity|]. by constructor.
    + right. exists (x :: pre), post. repeat split.
      * by constructor.
      * replace (Z.of_nat (length pre) <? 0) with false by (symmetry; apply Z.ltb_ge; lia).
        cbn [length]. lia.
Qed.

Lemma indented_line (prefix pre : bytes) (rest : bytes) :
  Forall (fun x => Ascii.eqb x newline = false) pre ->
  indented prefix (pre ++ rest) = pre ++ indented prefix rest.
Proof.
  induction 1 as [|x pre Hx _ IH]; [reflexivity|].
  cbn [app indented]. rewrite Hx. cbn [andb app]. by rewrite IH.
Qed.

Lemma writePrefixLine_loop_indented (prefix : bytes) (fuel : nat) :
  forall (s : bytes) (w : Builder) (first : bool),
    (length s <= fuel)%nat ->
    writePrefixLine_loop fuel w prefix first s
    = mkBuilder (buf w ++ (if first || is_empty s then [] else prefix)
                 ++ indented prefix s).
Proof.
  induction fuel as [|fuel IH]; intros s w first Hlen.
  { destruct s; [|simpl in Hlen; lia]. simpl.
    rewrite orb_true_r, app_nil_r. by destruct w. }
  cbn [writePrefixLine_loop].
  destruct s as [|c0 s0] eqn:Es.
  { simpl. rewrite orb_true_r, app_nil_r. by destruct w. }
  rewrite <- Es in *. replace (0 <? length s)%nat with true
    by (symmetry; apply Nat.ltb_lt; subst s; simpl; lia).
  replace (is_empty s) with false by (by subst s).
  rewrite orb_false_r.
  set (w1 := if first then w else Builder_Write w prefix).
  assert (Hw1 : buf w1 = buf w ++ (if first then [] else prefix)).
  { subst w1. destruct first; simpl; by rewrite ?app_nil_r. }
  clearbody w1.
  destruct (strings_IndexByte_spec s newline)
    as [[-> Hs]|(pre & post & E & Hpre & ->)].
  - (* no newline: the rest of [s] is written *)
    change (-1 <? 0) with true. cbv iota.
    replace (Z.to_nat (Z.of_nat (length s) - 1 + 1)) with (length s) by lia.
    rewrite firstn_all, drop_all, IH by (simpl; lia).
    cbn [is_empty orb buf Builder_WriteString indented].
    rewrite !app_nil_r, Hw1.
    rewrite <- (app_nil_r s) at 2. rewrite indented_line by exact Hs.
    cbn [indented]. by rewrite app_nil_r, <- app_assoc.
  - replace (Z.of_nat (length pre) <? 0) with false by (symmetry; apply Z.ltb_ge; lia).
    replace (Z.to_nat (Z.of_nat (length pre) + 1)) with (length (pre ++ [newline]))
      by (rewrite length_app; simpl; lia).
    assert (E' : s = (pre ++ [newline]) ++ post) by (by rewrite <- app_assoc).
    rewrite E'. rewrite take_app_length, drop_app_length.
    rewrite IH.
    2:{ rewrite E' in Hlen. rewrite !length_app in Hlen. simpl in Hlen. lia. }
    cbn [orb buf Builder_WriteString]. rewrite Hw1.
    rewrite <- (app_assoc pre [newline] post). rewrite indented_line by exact Hpre.
    cbn [app indented]. rewrite Ascii.eqb_refl. cbn [andb].
    f_equal. rewrite <- !app_assoc. cbn [app].
    destruct post; reflexivity.
Qed.

(** X16. [writePrefixLine] writes [s] with the prefix put after every
    newline that is not the last byte of [s], and nothing else. *)
Theorem writePrefixLine_indents (w : Builder) (prefix s : bytes) :
  writePrefixLine w prefix s = mkBuilder (buf w ++ indented prefix s).
Proof.
  unfold writePrefixLine. by rewrite writePrefixLine_loop_indented.
Qed.

(** *** Writers *)

(** X17. [Lock] is idempotent; a locked writer writes what the writer
    writes and its [Sync] is the [Sync] or [Flush] the writer has; a core
    over the locked writer writes and flushes like a core over the writer
    itself. *)
Theorem Lock_transparent (w : Writer) :
  Lock (Lock w) = Lock w
  /\ (forall p h, Writer_Write (Lock w) p h = Writer_Write w p h)
  /\ (forall h, Writer_Sync (Lock w) h = ioCore_Sync (getSyncFunc w) h)
  /\ (forall enc enab e h,
         Core_Write (NewCore enc (Lock w) enab) e h = Core_Write (NewCore enc w enab) e h)
  /\ (forall enc enab h,
         Core_Sync (NewCore enc (Lock w) enab) h = Core_Sync (NewCore enc w enab) h).
Proof.
  assert (Hw : forall p h, Writer_Write (Lock w) p h = Writer_Write w p h)
    by (destruct w; reflexivity).
  assert (Hs : forall h, Writer_Sync (Lock w) h = ioCore_Sync (getSyncFunc w) h).
  { intros h. destruct w; reflexivity. }
  assert (Hg : forall h, ioCore_Sync (getSyncFunc (Lock w)) h = ioCore_Sync (getSyncFunc w) h).
  { intros h. rewrite <- Hs. destruct w; reflexivity. }
  repeat split; try assumption.
  - destruct w; reflexivity.
  - intros enc enab e h. unfold NewCore. cbn [Core_Write]. unfold ioCore_Write.
    destruct (Encoder_Encode enc getBuilder e) as [[b err]|]; [|reflexivity].
    cbn [mbind option_bind]. rewrite Hw.
    destruct (is_nil err); [destruct (Writer_Write w (buf b) h) as [h1 [n werr]]|];
      rewrite ?Hg; reflexivity.
  - intros enc enab h. unfold NewCore. cbn [Core_Sync]. by rewrite Hg.
Qed.

Lemma MultiWriter_loop_inlined (writers allWriters : list Writer) (allSyncs : list SyncFunc) :
  MultiWriter_loop writers allWriters allSyncs
  = multiWriter (allWriters ++ concat (map inlined_writers writers))
      (allSyncs ++ concat (map inlined_syncs writers)).
Proof.
  revert allWriters allSyncs.
  induction writers as [|w writers IH]; intros allWriters allSyncs.
  - simpl. by rewrite !app_nil_r.
  - cbn [MultiWriter_loop map concat].
    destruct w as [s|w' sync|mws msyncs]; rewrite IH; cbn [inlined_writers inlined_syncs].
    + rewrite <- !app_assoc. f_equal.
      destruct (getSyncFunc (sinkWriter s)); by rewrite <- ?app_assoc.
    + rewrite <- !app_assoc. f_equal.
      destruct (getSyncFunc (lockedWriter w' sync)); by rewrite <- ?app_assoc.
    + rewrite <- !app_assoc. reflexivity.
Qed.

(** X18. [MultiWriter] inlines the writers and the syncs of the
    [multiWriter]s among its arguments, in order; every other argument
    contributes itself, and its [Sync] or [Flush] when it has one. *)
Theorem MultiWriter_inlines (writers : list Writer) :
  MultiWriter writers
  = multiWriter (concat (map inlined_writers writers))
      (concat (map inlined_syncs writers)).
Proof. unfold MultiWriter. by rewrite MultiWriter_loop_inlined. Qed.

Lemma is_nil_combineErrors (a b : error) :
  is_nil (combineErrors a b) = is_nil a && is_nil b.
Proof. by destruct a, b. Qed.

Lemma multiWriter_Write_loop_sinks (p : bytes) (sinks : list Sink) :
  forall (h : World) (n : Z) (err : error),
    exists err',
      multiWriter_Write_loop (fun w h => Writer_Write w p h) (Z.of_nat (length p))
        (map sinkWriter sinks) h n err
      = (h ++ writes_to sinks p,
         (foldl (fun n r => if is_nil (snd r) && (n <? fst r) then fst r else n) n
            (sink_results sinks p h), err'))
      /\ errors_of err'
         = errors_of err
           ++ concat (map (write_errors (Z.of_nat (length p))) (sink_results sinks p h))
      /\ is_nil err'
         = is_nil err && forallb (full_write (Z.of_nat (length p))) (sink_results sinks p h).
Proof.
  induction sinks as [|s sinks IH]; intros h n err.
  - exists err. simpl. by rewrite !app_nil_r, andb_true_r.
  - cbn [map multiWriter_Write_loop Writer_Write sink_results writes_to foldl concat
           forallb].
    destruct (sink_Write s h p) as [wn werr] eqn:Ew.
    unfold write_errors at 1, full_write at 1. cbn [fst snd].
    destruct (is_nil werr) eqn:En; cbn [negb andb].
    + destruct (IH (h ++ [EvWrite (sink_id s) p]) (if n <? wn then wn else n)
                  (if negb (wn =? Z.of_nat (length p))
                   then combineErrors err ErrShortWrite else err))
        as (err' & E & He & Hn).
      exists err'. split; [|split].
      * rewrite E. unfold writes_to. by rewrite <- app_assoc.
      * rewrite He. rewrite app_assoc. f_equal.
        destruct (wn =? Z.of_nat (length p)); cbn [negb].
        -- by rewrite app_nil_r.
        -- by rewrite errors_of_combineErrors.
      * rewrite Hn. destruct (wn =? Z.of_nat (length p)); cbn [negb andb].
        -- reflexivity.
        -- rewrite is_nil_combineErrors. cbn [is_nil ErrShortWrite].
           by rewrite andb_false_r.
    + destruct (IH (h ++ [EvWrite (sink_id s) p]) n (combineErrors err werr))
        as (err' & E & He & Hn).
      exists err'. split; [|split].
      * rewrite E. unfold writes_to. by rewrite <- app_assoc.
      * rewrite He, errors_of_combineErrors. by rewrite <- app_assoc.
      * rewrite Hn, is_nil_combineErrors, En. by rewrite !andb_false_r.
Qed.

(** X19. A write to the [MultiWriter] of a list of sinks is passed to every
    sink, in order, whatever the earlier sinks returned. The count is the
    largest count of a sink that returned no error, and the error stands
    for the errors of the sinks, in order, with [io.ErrShortWrite] for a
    sink that returned another count than [len(p)] with no error; it is
    nil exactly when every sink returned [len(p)] and no error. *)
Theorem multiWriter_Write_all_sinks (sinks : list Sink) (p : bytes) (h : World) :
  exists err,
    Writer_Write (MultiWriter (map sinkWriter sinks)) p h
    = (h ++ writes_to sinks p, (largest_count (sink_results sinks p h), err))
    /\ errors_of err
       = concat (map (write_errors (Z.of_nat (length p))) (sink_results sinks p h))
    /\ is_nil err = forallb (full_write (Z.of_nat (length p))) (sink_results sinks p h).
Proof.
  unfold MultiWriter. rewrite MultiWriter_loop_inlined. cbn [app Writer_Write].
  replace (concat (map inlined_writers (map sinkWriter sinks))) with (map sinkWriter sinks).
  2:{ induction sinks as [|s sinks IH]; [reflexivity|]. simpl. by rewrite <- IH. }
  destruct (multiWriter_Write_loop_sinks p sinks h 0 nil_error) as (err & E & He & Hn).
  exists err. split; [exact E | split; [exact He | exact Hn]].
Qed.

Lemma multiWriter_Sync_loop_sinks (sinks : list Sink) :
  forall (h : World) (err : error),
    exists err',
      multiWriter_Sync_loop (fun sync h => SyncFunc_call sync h)
        (concat (map inlined_syncs (map sinkWriter sinks))) h err
      = (h ++ concat (map sync_event sinks), err')
      /\ errors_of err'
         = errors_of err ++ concat (map errors_of (sync_results sinks h))
      /\ is_nil err' = is_nil err && forallb is_nil (sync_results sinks h).
Proof.
  induction sinks as [|s sinks IH]; intros h err.
  - exists err. simpl. by rewrite !app_nil_r, andb_true_r.
  - cbn [map concat inlined_syncs getSyncFunc sync_results]. unfold sync_event at 1.
    destruct (sink_Sync s) as [f|] eqn:Es; [|destruct (sink_Flush s) as [f|] eqn:Ef];
      cbn [app multiWriter_Sync_loop SyncFunc_call Writer_Sync map concat forallb].
    + rewrite Es.
      destruct (IH (h ++ [EvSync (sink_id s)]) (combineErrors err (f h)))
        as (err' & E & He & Hn).
      exists err'. split; [|split].
      * rewrite E. by rewrite <- app_assoc.
      * rewrite He, errors_of_combineErrors. unfold sync_event. rewrite Es.
        by rewrite <- app_assoc.
      * rewrite Hn, is_nil_combineErrors. unfold sync_event. rewrite Es.
        by rewrite andb_assoc.
    + rewrite Ef.
      destruct (IH (h ++ [EvFlush (sink_id s)]) (combineErrors err (f h)))
        as (err' & E & He & Hn).
      exists err'. split; [|split].
      * rewrite E. by rewrite <- app_assoc.
      * rewrite He, errors_of_combineErrors. unfold sync_event. rewrite Es, Ef.
        by rewrite <- app_assoc.
      * rewrite Hn, is_nil_combineErrors. unfold sync_event. rewrite Es, Ef.
        by rewrite andb_assoc.
    + apply IH.
Qed.

(** X20. [Sync] on the [MultiWriter] of a list of sinks calls [Sync] on
    every sink that has [Sync], else [Flush] on a sink that has [Flush],
    in order, and skips the others; the error stands for the errors those
    calls returned, and is nil exactly when all of them returned nil. *)
Theorem MultiWriter_Sync_all_sinks (sinks : list Sink) (h : World) :
  exists err,
    Writer_Sync (MultiWriter (map sinkWriter sinks)) h
    = (h ++ concat (map sync_event sinks), err)
    /\ errors_of err = concat (map errors_of (sync_results sinks h))
    /\ is_nil err = forallb is_nil (sync_results sinks h).
Proof.
  unfold MultiWriter. rewrite MultiWriter_loop_inlined. cbn [app Writer_Sync].
  apply (multiWriter_Sync_loop_sinks sinks h nil_error).
Qed.

(** *** Fanouts *)

Lemma NewTee_levels_of_nth (c : Core) (levelsEnabled : list bool) (lvl : Z) :
  length levelsEnabled = 6%nat -> _minLevel <= lvl <= _maxLevel ->
  let r := NewTee_levels_of c (seqZ _minLevel (_maxLevel + 1 - _minLevel)) levelsEnabled in
  length r = 6%nat
  /\ nth (Z.to_nat (lvl + 1)) r false
     = nth (Z.to_nat (lvl + 1)) levelsEnabled false || Core_Enabled c lvl.
Proof.
  intros Hlen Hlvl.
  destruct levelsEnabled as [|b0 [|b1 [|b2 [|b3 [|b4 [|b5 [|]]]]]]]; try discriminate Hlen.
  change (seqZ _minLevel (_maxLevel + 1 - _minLevel)) with [-1; 0; 1; 2; 3; 4].
  unfold _minLevel, _maxLevel, DebugLevel, FatalLevel in Hlvl.
  assert (H : lvl = -1 \/ lvl = 0 \/ lvl = 1 \/ lvl = 2 \/ lvl = 3 \/ lvl = 4) by lia.
  cbn [NewTee_levels_of].
  destruct (Core_Enabled c (-1)) eqn:E0, (Core_Enabled c 0) eqn:E1,
    (Core_Enabled c 1) eqn:E2, (Core_Enabled c 2) eqn:E3,
    (Core_Enabled c 3) eqn:E4, (Core_Enabled c 4) eqn:E5;
    (split; [reflexivity|]);
    repeat destruct H as [->|H]; try subst lvl;
    rewrite ?E0, ?E1, ?E2, ?E3, ?E4, ?E5; cbn; rewrite ?orb_true_r, ?orb_false_r;
    reflexivity.
Qed.

Lemma NewTee_levels_nth (cores : list Core) (lvl : Z) :
  _minLevel <= lvl <= _maxLevel ->
  forall levelsEnabled : list bool,
    length levelsEnabled = 6%nat ->
    nth (Z.to_nat (lvl + 1)) (NewTee_levels cores levelsEnabled) false
    = nth (Z.to_nat (lvl + 1)) levelsEnabled false
      || existsb (fun c => Core_Enabled c lvl) cores.
Proof.
  intros Hlvl. induction cores as [|c cores IH]; intros le Hlen; cbn [NewTee_levels existsb].
  - by rewrite orb_false_r.
  - destruct (NewTee_levels_of_nth c le lvl Hlen Hlvl) as [Hl Hn].
    rewrite IH by exact Hl. rewrite Hn. by rewrite orb_assoc.
Qed.

Lemma existsb_concat {A : Type} (f : A -> bool) (ls : list (list A)) :
  existsb f (concat ls) = existsb (existsb f) ls.
Proof.
  induction ls as [|l ls IH]; [reflexivity|]. simpl. by rewrite existsb_app, IH.
Qed.

Lemma NewTee_Enabled_consistent (cores : list Core) (lvl : Z) :
  Forall consistent cores -> _minLevel <= lvl <= _maxLevel ->
  Core_Enabled (NewTee cores) lvl = existsb (fun c => Core_Enabled c lvl) cores.
Proof.
  intros Hc Hlvl.
  destruct cores as [|c1 [|c2 cores]]; [reflexivity | simpl; by rewrite orb_false_r |].
  unfold NewTee. cbn [Core_Enabled].
  replace ((lvl <? _minLevel) || (_maxLevel <? lvl)) with false.
  2:{ symmetry. apply orb_false_iff. split; apply Z.ltb_ge; lia. }
  rewrite (NewTee_levels_nth _ lvl Hlvl) by reflexivity.
  rewrite NewTee_flatten_inlined. cbn [app].
  replace (nth (Z.to_nat (lvl + 1)) (replicate (Z.to_nat (_maxLevel + 2)) false) false)
    with false.
  2:{ change (Z.to_nat (_maxLevel + 2)) with 6%nat.
      unfold _minLevel, _maxLevel, DebugLevel, FatalLevel in Hlvl.
      assert (H : lvl = -1 \/ lvl = 0 \/ lvl = 1 \/ lvl = 2 \/ lvl = 3 \/ lvl = 4) by lia.
      repeat destruct H as [->|H]; try subst lvl; reflexivity. }
  cbn [orb]. rewrite existsb_concat.
  generalize (c1 :: c2 :: cores), Hc. clear -Hlvl.
  induction 1 as [|c cs H _ IH]; [reflexivity|].
  cbn [map existsb]. by rewrite IH, <- (H lvl Hlvl).
Qed.

Lemma NewTee_consistent (cores : list Core) :
  Forall consistent cores -> consistent (NewTee cores).
Proof.
  intros Hc. destruct cores as [|c1 [|c2 cores]].
  - intros lvl _. reflexivity.
  - by inversion Hc.
  - intros lvl Hlvl. rewrite NewTee_Enabled_consistent by assumption.
    unfold NewTee. cbn [inlined]. rewrite NewTee_flatten_inlined. cbn [app].
    rewrite existsb_concat.
    generalize (c1 :: c2 :: cores), Hc. clear -Hlvl.
    induction 1 as [|c cs H _ IH]; [reflexivity|].
    cbn [map existsb]. by rewrite <- IH, (H lvl Hlvl).
Qed.

Lemma built_consistent : forall c : Core, built c -> consistent c.
Proof.
  fix IH 2.
  intros c [| enc w enab | cores Hcs].
  - intros lvl _. reflexivity.
  - intros lvl _. simpl. by rewrite orb_false_r.
  - apply NewTee_consistent.
    induction Hcs as [|c' cores' Hc' _ IHcs]; constructor; [apply IH, Hc' | exact IHcs].
Qed.

(** X21. Within the bounds, the core that [NewTee] returns for cores the
    constructors built is enabled at a level if and only if one of the
    given cores is. *)
Theorem NewTee_Enabled_some_child (cores : list Core) (lvl : Z) :
  Forall built cores -> _minLevel <= lvl <= _maxLevel ->
  Core_Enabled (NewTee cores) lvl = existsb (fun c => Core_Enabled c lvl) cores.
Proof.
  intros Hb Hlvl. apply NewTee_Enabled_consistent; [|exact Hlvl].
  eapply Forall_impl; [exact Hb|]. exact built_consistent.
Qed.

Lemma Core_Write_NewCore_sink (enc : Encoder) (e : Entry) (b : Builder) (s : Sink)
    (enab : LevelEnabler) (h : World) :
  Encoder_Encode enc getBuilder e = Some (b, nil_error) ->
  Level e < ErrorLevel ->
  Core_Write (NewCore enc (sinkWriter s) enab) e h
  = Some (h ++ [EvWrite (sink_id s) (buf b)], snd (sink_Write s h (buf b))).
Proof.
  intros Henc Hlvl. unfold NewCore. cbn [Core_Write]. unfold ioCore_Write.
  rewrite Henc. cbn [mbind option_bind is_nil Writer_Write].
  destruct (sink_Write s h (buf b)) as [wn werr]. cbn [snd].
  replace (ErrorLevel <=? Level e) with false by (symmetry; apply Z.leb_gt; lia).
  by rewrite andb_false_r.
Qed.

Lemma multiCore_loop_sinks (enc : Encoder) (e : Entry) (b : Builder)
    (targets : list (Sink * LevelEnabler)) :
  Encoder_Encode enc getBuilder e = Some (b, nil_error) ->
  Level e < ErrorLevel ->
  forall (h : World) (err : error),
    exists err',
      multiCore_loop (fun c h => Core_Write c e h)
        (map (fun t => NewCore enc (sinkWriter (fst t)) (snd t)) targets) h err
      = Some (h ++ writes_to (map fst targets) (buf b), err')
      /\ errors_of err'
         = errors_of err
           ++ concat (map (fun r => errors_of (snd r))
                        (sink_results (map fst targets) (buf b) h))
      /\ is_nil err'
         = is_nil err
           && forallb (fun r => is_nil (snd r)) (sink_results (map fst targets) (buf b) h).
Proof.
  intros Henc Hlvl.
  induction targets as [|[s enab] targets IH]; intros h err.
  - exists err. simpl. by rewrite !app_nil_r, andb_true_r.
  - cbn [map multiCore_loop fst snd sink_results writes_to concat forallb].
    rewrite (Core_Write_NewCore_sink enc e b s enab h Henc Hlvl).
    cbn [mbind option_bind].
    destruct (sink_Write s h (buf b)) as [wn werr] eqn:Ew. cbn [snd].
    destruct (IH (h ++ [EvWrite (sink_id s) (buf b)])
                (if negb (is_nil werr) then combineErrors err werr else err))
      as (err' & E & He & Hn).
    exists err'. split; [|split].
    + rewrite E. unfold writes_to. by rewrite <- app_assoc.
    + rewrite He, app_assoc. f_equal.
      destruct werr; cbn [is_nil negb]; rewrite ?errors_of_combineErrors, ?app_nil_r;
        reflexivity.
    + rewrite Hn, andb_assoc. f_equal.
      destruct (is_nil werr) eqn:En; cbn [negb].
      * by rewrite andb_true_r.
      * by rewrite is_nil_combineErrors, En.
Qed.

(** X22. Below the Error level, an entry written to the [NewTee] of cores
    over a list of sinks is written once to every sink, in order, whatever
    the level enabler of each core says and whatever the earlier sinks
    returned; the error stands for the errors of the sinks, in order, and
    is nil exactly when every sink returned nil. *)
Theorem NewTee_Write_all_sinks (enc : Encoder) (e : Entry) (b : Builder)
    (targets : list (Sink * LevelEnabler)) (h : World) :
  Encoder_Encode enc getBuilder e = Some (b, nil_error) ->
  Level e < ErrorLevel ->
  exists err,
    Core_Write (NewTee (map (fun t => NewCore enc (sinkWriter (fst t)) (snd t)) targets)) e h
    = Some (h ++ writes_to (map fst targets) (buf b), err)
    /\ errors_of err
       = concat (map (fun r => errors_of (snd r))
                   (sink_results (map fst targets) (buf b) h))
    /\ is_nil err
       = forallb (fun r => is_nil (snd r)) (sink_results (map fst targets) (buf b) h).
Proof.
  intros Henc Hlvl.
  destruct (multiCore_loop_sinks enc e b targets Henc Hlvl h nil_error)
    as (err & E & He & Hn).
  destruct targets as [|t1 [|t2 targets]].
  - exists nil_error. simpl. by rewrite app_nil_r.
  - cbn [map NewTee]. cbn [map multiCore_loop] in E.
    destruct (Core_Write _ e h) as [[h1 cerr]|]; [|discriminate E].
    cbn [mbind option_bind] in E. injection E as E1 E2.
    exists cerr. split; [by rewrite E1|].
    assert (Ec : errors_of cerr = errors_of err /\ is_nil cerr = is_nil err)
      by (rewrite <- E2; destruct cerr; by split).
    destruct Ec as [Ec1 Ec2]. rewrite Ec1, Ec2. split; [exact He | exact Hn].
  - exists err. split; [|split; [exact He | exact Hn]].
    rewrite <- E. set (ts := t1 :: t2 :: targets).
    assert (Hin : forall ts : list (Sink * LevelEnabler),
               concat (map inlined
                         (map (fun t => NewCore enc (sinkWriter (fst t)) (snd t)) ts))
               = map (fun t => NewCore enc (sinkWriter (fst t)) (snd t)) ts).
    { intros ts0. induction ts0 as [|t ts0 IH]; [reflexivity|]. simpl. by rewrite IH. }
    rewrite <- (Hin ts) at 2.
    subst ts. cbn [map]. unfold NewTee. rewrite NewTee_flatten_inlined. reflexivity.
Qed.

Lemma multiCore_Sync_loop_sinks (enc : Encoder) (targets : list (Sink * LevelEnabler)) :
  forall (h : World) (err : error),
    exists err',
      multiCore_loop (fun c h => Core_Sync c h)
        (map (fun t => NewCore enc (sinkWriter (fst t)) (snd t)) targets) h err
      = Some (h ++ concat (map sync_event (map fst targets)), err')
      /\ errors_of err'
         = errors_of err ++ concat (map errors_of (sync_results (map fst targets) h))
      /\ is_nil err' = is_nil err && forallb is_nil (sync_results (map fst targets) h).
Proof.
  induction targets as [|[s enab] targets IH]; intros h err.
  - exists err. simpl. by rewrite !app_nil_r, andb_true_r.
  - cbn [map multiCore_loop fst snd concat sync_results].
    change (Core_Sync (NewCore enc (sinkWriter s) enab) h)
      with (Some (ioCore_Sync (getSyncFunc (sinkWriter s)) h)).
    cbn [mbind option_bind]. unfold sync_event at 1. cbn [getSyncFunc].
    destruct (sink_Sync s) as [f|] eqn:Es; [|destruct (sink_Flush s) as [f|] eqn:Ef];
      cbn [ioCore_Sync SyncFunc_call Writer_Sync app]; rewrite ?Es, ?Ef.
    + destruct (IH (h ++ [EvSync (sink_id s)])
                  (if negb (is_nil (f h)) then combineErrors err (f h) else err))
        as (err' & E & He & Hn).
      exists err'. split; [|split].
      * rewrite E. by rewrite <- app_assoc.
      * rewrite He. unfold sync_event. rewrite Es. cbn [map concat].
        rewrite app_assoc. f_equal.
        destruct (f h); cbn [is_nil negb]; rewrite ?errors_of_combineErrors, ?app_nil_r;
          reflexivity.
      * rewrite Hn. unfold sync_event. rewrite Es. cbn [forallb].
        rewrite andb_assoc. f_equal.
        destruct (is_nil (f h)) eqn:En; cbn [negb];
          [by rewrite andb_true_r | by rewrite is_nil_combineErrors, En].
    + destruct (IH (h ++ [EvFlush (sink_id s)])
                  (if negb (is_nil (f h)) then combineErrors err (f h) else err))
        as (err' & E & He & Hn).
      exists err'. split; [|split].
      * rewrite E. by rewrite <- app_assoc.
      * rewrite He. unfold sync_event. rewrite Es, Ef. cbn [map concat].
        rewrite app_assoc. f_equal.
        destruct (f h); cbn [is_nil negb]; rewrite ?errors_of_combineErrors, ?app_nil_r;
          reflexivity.
      * rewrite Hn. unfold sync_event. rewrite Es, Ef. cbn [forallb].
        rewrite andb_assoc. f_equal.
        destruct (is_nil (f h)) eqn:En; cbn [negb];
          [by rewrite andb_true_r | by rewrite is_nil_combineErrors, En].
    + cbn [is_nil negb]. apply IH.
Qed.

(** X23. [Sync] on the [NewTee] of cores over a list of sinks calls [Sync]
    on every sink that has [Sync], else [Flush] on a sink that has
    [Flush], in order, and skips the others, whatever the earlier calls
    returned; the error stands for the errors those calls returned, and is
    nil exactly when all of them returned nil. *)
Theorem NewTee_Sync_all_sinks (enc : Encoder) (targets : list (Sink * LevelEnabler))
    (h : World) :
  exists err,
    Core_Sync (NewTee (map (fun t => NewCore enc (sinkWriter (fst t)) (snd t)) targets)) h
    = Some (h ++ concat (map sync_event (map fst targets)), err)
    /\ errors_of err = concat (map errors_of (sync_results (map fst targets) h))
    /\ is_nil err = forallb is_nil (sync_results (map fst targets) h).
Proof.
  destruct (multiCore_Sync_loop_sinks enc targets h nil_error) as (err & E & He & Hn).
  destruct targets as [|t1 [|t2 targets]].
  - exists nil_error. simpl. by rewrite app_nil_r.
  - cbn [map NewTee]. cbn [map multiCore_loop] in E.
    destruct (Core_Sync _ h) as [[h1 cerr]|]; [|discriminate E].
    cbn [mbind option_bind] in E. injection E as E1 E2.
    exists cerr. split; [by rewrite E1|].
    assert (Ec : errors_of cerr = errors_of err /\ is_nil cerr = is_nil err)
      by (rewrite <- E2; destruct cerr; by split).
    destruct Ec as [Ec1 Ec2]. rewrite Ec1, Ec2. split; [exact He | exact Hn].
  - exists err. split; [|split; [exact He | exact Hn]].
    rewrite <- E. set (ts := t1 :: t2 :: targets).
    assert (Hin : forall ts : list (Sink * LevelEnabler),
               concat (map inlined
                         (map (fun t => NewCore enc (sinkWriter (fst t)) (snd t)) ts))
               = map (fun t => NewCore enc (sinkWriter (fst t)) (snd t)) ts).
    { intros ts0. induction ts0 as [|t ts0 IH]; [reflexivity|]. simpl. by rewrite IH. }
    rewrite <- (Hin ts) at 2.
    subst ts. cbn [map]. unfold NewTee. rewrite NewTee_flatten_inlined. reflexivity.
Qed.

(** *** The logger *)

Section Calls.

Context {RT : Runtime}.

Lemma bytes_eqb_refl (x : bytes) : bytes_eqb x x = true.
Proof. induction x as [|a x IH]; [reflexivity|]. simpl. by rewrite Ascii.eqb_refl, IH. Qed.

(** X24. A caller that [NewEntryCaller] makes from a successful
    [runtime.Caller] is defined, and the file name it reports is cached
    under the file: every later call for the same file reports the same
    name, whatever its program counter, and leaves the cache as it is. *)
Theorem NewEntryCaller_cached (cache : Cache) (pc : Z) (file : bytes) (line : Z) :
  let r := NewEntryCaller cache pc file line true in
  Defined (snd r) = true
  /\ Cache_Load (fst r) file = Some (File (snd r))
  /\ forall (pc' line' : Z),
       NewEntryCaller (fst r) pc' file line' true
       = (fst r, mkEntryCaller true pc' (File (snd r)) line').
Proof.
  unfold NewEntryCaller. cbn [negb].
  destruct (Cache_Load cache file) as [ifile|] eqn:E; cbn [fst snd File Defined].
  - split; [reflexivity|]. split; [exact E|]. intros pc' line'. by rewrite E.
  - set (file' := if 0 <=? strings_LastIndexByte (FuncForPC_Name pc) "/" then _ else file).
    assert (Hl : Cache_Load (Cache_Store cache file file') file = Some file').
    { unfold Cache_Store. cbn [Cache_Load]. by rewrite bytes_eqb_refl. }
    split; [reflexivity|]. split; [exact Hl|]. intros pc' line'. by rewrite Hl.
Qed.


(** X26. A log call at a level that the core has not enabled writes
    nothing and leaves the caller cache alone. Whether or not the level is
    enabled, a call that comes back from the core panics with the formatted
    message at [PanicLevel], ends the process with status 1 at
    [FatalLevel], and returns otherwise: the error of the core is
    dropped. *)
Theorem Logger_log_outcome (l : Logger) (calloffset lvl : Z) (template : bytes)
    (fmtArgs : list Value) (fields : list Field) (h : World) (cache : Cache) :
  (Core_Enabled (core l) lvl = false ->
   Logger_log l calloffset lvl template fmtArgs fields h cache
   = Some (h, cache, outcome_of lvl (messagef template fmtArgs)))
  /\ (forall (h' : World) (cache' : Cache) (out : Outcome),
         Logger_log l calloffset lvl template fmtArgs fields h cache
         = Some (h', cache', out) ->
         out = outcome_of lvl (messagef template fmtArgs)).
Proof.
  unfold Logger_log, outcome_of. split.
  - intros ->. cbn [negb]. destruct (lvl =? PanicLevel), (lvl =? FatalLevel); reflexivity.
  - intros h' cache' out.
    destruct (Core_Enabled (core l) lvl); cbn [negb].
    + destruct (if addCaller l then _ else _) as [cache1 caller].
      destruct (Core_Write _ _ h) as [[h1 err]|]; [|discriminate].
      cbn [mbind option_bind].
      destruct (lvl =? PanicLevel), (lvl =? FatalLevel); congruence.
    + destruct (lvl =? PanicLevel), (lvl =? FatalLevel); congruence.
Qed.

Lemma dotted_snoc (segs : list bytes) (s : bytes) :
  dotted (segs ++ [s]) = if is_empty segs then s else dotted segs ++ B "." ++ s.
Proof.
  induction segs as [|x segs IH]; [reflexivity|].
  destruct segs as [|y segs]; [reflexivity|].
  change (dotted ((x :: y :: segs) ++ [s])) with (x ++ B "." ++ dotted ((y :: segs) ++ [s])).
  rewrite IH. cbn [is_empty].
  change (dotted (x :: y :: segs)) with (x ++ B "." ++ dotted (y :: segs)).
  by rewrite <- !app_assoc.
Qed.

Lemma dotted_empty (segs : list bytes) :
  Forall (fun s => is_empty s = false) segs ->
  is_empty (dotted segs) = is_empty segs.
Proof.
  intros H. destruct H as [|x segs Hx H]; [reflexivity|].
  destruct segs; [exact Hx|]. destruct x; [discriminate Hx | reflexivity].
Qed.

Lemma apply_options_name (options : list Option) :
  forall (log : Logger) (segs : list bytes),
    Forall (fun s => is_empty s = false) segs ->
    name log = dotted segs ->
    name (apply_options options log)
    = dotted (segs ++ concat (map option_names options)).
Proof.
  induction options as [|opt options IH]; intros log segs Hs Hn.
  - simpl. by rewrite app_nil_r.
  - cbn [apply_options map concat]. rewrite app_assoc.
    destruct opt as [s|fs| |skip]; cbn [option_names Option_apply].
    + destruct (is_empty s) eqn:Es.
      * rewrite app_nil_r. by apply IH.
      * apply IH; [apply Forall_app; split; [exact Hs | by repeat constructor]|].
        rewrite dotted_snoc, Hn, dotted_empty by exact Hs.
        destruct (is_empty segs); reflexivity.
    + rewrite app_nil_r. apply IH; [exact Hs|]. by destruct (length fs =? 0)%nat.
    + rewrite app_nil_r. by apply IH.
    + rewrite app_nil_r. by apply IH.
Qed.

Lemma wrap_int_add (a b : Z) : wrap_int (wrap_int a + b) = wrap_int (a + b).
Proof.
  unfold wrap_int.
  replace (a + 2 ^ 63 - 2 ^ 63 + b) with (a + b) by lia.
  replace ((a + 2 ^ 63) mod 2 ^ 64 - 2 ^ 63 + b + 2 ^ 63)
    with ((a + 2 ^ 63) mod 2 ^ 64 + b) by lia.
  f_equal. rewrite Zplus_mod_idemp_l. f_equal. lia.
Qed.

Lemma apply_options_rest (options : list Option) :
  forall log : Logger,
    core (apply_options options log) = core log
    /\ ctx (apply_options options log) = ctx log ++ concat (map option_fields options)
    /\ addCaller (apply_options options log)
       = addCaller log || existsb option_adds_caller options
    /\ wrap_int (callerSkip (apply_options options log))
       = wrap_int (callerSkip log + foldr Z.add 0 (map option_skip options)).
Proof.
  induction options as [|opt options IH]; intros log.
  - simpl. rewrite app_nil_r, orb_false_r, Z.add_0_r. by repeat split.
  - cbn [apply_options map concat existsb foldr].
    destruct (IH (Option_apply opt log)) as (H1 & H2 & H3 & H4).
    rewrite H1, H2, H3, H4.
    destruct opt as [s|fs| |skip]; cbn [option_fields option_adds_caller option_skip
                                         Option_apply].
    + destruct (is_empty s); [|destruct (is_empty (name log))];
        cbn [core ctx addCaller callerSkip app orb]; by repeat split.
    + destruct fs as [|f fs]; cbn [length Nat.eqb core ctx addCaller callerSkip orb];
        rewrite ?app_nil_r, <- ?app_assoc; by repeat split.
    + cbn [core ctx addCaller callerSkip app orb]. rewrite orb_true_r. by repeat split.
    + cbn [core ctx addCaller callerSkip app orb]. repeat split.
      rewrite wrap_int_add. f_equal. lia.
Qed.

(** X27. [New] is [With] on the logger of the core alone. [With] keeps the
    core; the name becomes the old name and the non-empty segments of the
    [Named] options, joined by periods; the context becomes the old one
    followed by the fields of the [Fields] options, in order; the caller
    annotation is on if it was or if [AddCaller] is among the options; and
    the skip count grows by the sum of the [AddCallerSkip] options, as a
    64-bit integer. *)
Theorem Logger_With_options (l : Logger) (opts : list Option) :
  (forall c : option Core,
      New c opts = Logger_With (mkLogger (default nopCore c) false 0 [] []) opts)
  /\ core (Logger_With l opts) = core l
  /\ name (Logger_With l opts)
     = dotted ((if is_empty (name l) then [] else [name l])
               ++ concat (map option_names opts))
  /\ ctx (Logger_With l opts) = ctx l ++ concat (map option_fields opts)
  /\ addCaller (Logger_With l opts) = addCaller l || existsb option_adds_caller opts
  /\ wrap_int (callerSkip (Logger_With l opts))
     = wrap_int (callerSkip l + foldr Z.add 0 (map option_skip opts)).
Proof.
  split; [by intros [c|]|].
  unfold Logger_With.
  destruct (apply_options_rest opts (Logger_clone l)) as (H1 & H2 & H3 & H4).
  split; [exact H1|]. split; [|split; [exact H2 | split; [exact H3 | exact H4]]].
  apply apply_options_name.
  - destruct (is_empty (name l)) eqn:E; by repeat constructor.
  - cbn [Logger_clone name]. destruct (name l); reflexivity.
Qed.

End Calls.

(** X28. [ReplaceGlobal] makes its argument the global logger, and the
    function it returns puts the earlier one back: at once, or after a
    nested replacement was restored first. When the argument was another
    logger than the global one, the returned function puts the earlier one
    back whatever the global logger has become since; when it was the
    global one itself, the returned function does nothing. *)
Theorem ReplaceGlobal_restores (g l1 l2 : LoggerPtr) :
  let r1 := ReplaceGlobal g l1 in
  let r2 := ReplaceGlobal (fst r1) l2 in
  fst r1 = l1
  /\ Restore_call (snd r1) (fst r1) = g
  /\ Restore_call (snd r1) (Restore_call (snd r2) (fst r2)) = g
  /\ (l1 <> g -> forall g' : LoggerPtr, Restore_call (snd r1) g' = g)
  /\ (l1 = g -> forall g' : LoggerPtr, Restore_call (snd r1) g' = g').
Proof.
  assert (H : forall a c : LoggerPtr,
             fst (ReplaceGlobal a c) = c
             /\ forall x, Restore_call (snd (ReplaceGlobal a c)) x = if (a =? c)%nat then x else a).
  { intros a c. unfold ReplaceGlobal, Restore_call.
    destruct (Nat.eqb_spec a c) as [->|Hne]; cbn [fst snd]; [by split|].
    split; [reflexivity|]. intros x. unfold ReplaceGlobal.
    destruct (Nat.eqb_spec x a) as [->|]; reflexivity. }
  cbv zeta.
  destruct (H g l1) as [E1 R1], (H (fst (ReplaceGlobal g l1)) l2) as [E2 R2].
  rewrite E1 in *. rewrite E2, !R1, R2.
  repeat split.
  - by destruct (Nat.eqb_spec g l1).
  - destruct (Nat.eqb_spec g l1) as [->|]; [|reflexivity].
    by destruct (Nat.eqb_spec l1 l2).
  - intros Hne g'. rewrite R1. destruct (Nat.eqb_spec g l1); congruence.
  - intros -> g'. by rewrite R1, Nat.eqb_refl.
Qed.

End Properties.

(** ** The properties on concrete inputs *)

(** C3. The JSON encoder renders the entry's time as it is, zone included;
    for an entry logged west of UTC [AppendTime] overflows its array and
    [Encode] panics instead of appending a line. *)
Theorem jsonEncoder_Encode_west_panics (flags : Z) (b : Builder) :
  ZoneOffset (Time_ e_west) < 0 /\ jsonEncoder_Encode flags b e_west = None.
Proof.
  split; [reflexivity|].
  rewrite jsonEncoder_Encode_layout.
  replace (rendered (AppendTime empty_Builder (Time_ e_west) Trfc3339Nano))
    with (@None bytes) by (vm_compute; reflexivity).
  reflexivity.
Qed.

(** The JSON line of the repository's core test. *)
Example jsonEncoder_Encode_test :
  (fun r => length (buf (fst r))) <$> jsonEncoder_Encode Lshortfile empty_Builder e_info
  = Some 142%nat
  /\ (fun r => take 55 (buf (fst r))) <$> jsonEncoder_Encode Lshortfile empty_Builder e_info
     = Some ("{"%char :: quote :: B "level" ++ [quote; ":"%char; quote] ++ B "INFO"
             ++ [quote; ","%char; quote] ++ B "time" ++ [quote; ":"%char; quote]
             ++ B "2019-01-18T12:00:35.000009876Z" ++ [quote]).
Proof. split; vm_compute; reflexivity. Qed.


(** C5, as stated, fails: when the write fails at the Error level the flush
    hook is not called and only the write error is returned; when the
    encoding fails nothing is written either. *)
Lemma ioCore_Write_flush_counterexample :
  ErrorLevel <= Level e_error
  /\ snd <$> Core_Write (NewCore (jsonEncoder Lshortfile) (sinkWriter failing_sink)
                           all_levels) e_error []
     = Some (plain_error "disk full")
  /\ (fun r => flushes (fst r))
       <$> Core_Write (NewCore (jsonEncoder Lshortfile) (sinkWriter failing_sink)
                         all_levels) e_error []
     = Some []
  /\ Core_Write (NewCore failing_encoder (sinkWriter failing_sink) all_levels) e_error []
     = Some ([], plain_error "encode failed").
Proof.
  repeat split; vm_compute; solve [reflexivity | discriminate].
Qed.

(** C6, as stated, fails: a core built by [NewCore] with an enabler that
    enables every level is enabled above the maximum level. *)
Lemma ioCore_Enabled_counterexample :
  _maxLevel < _maxLevel + 1
  /\ Core_Enabled (NewCore (jsonEncoder 0) (sinkWriter good_sink) all_levels)
       (_maxLevel + 1)
     = true.
Proof. split; reflexivity. Qed.

(** C8, as stated, fails: the non-nil empty byte slice is rendered as the
    empty base64 text between quotes, not as [[]]. *)
Lemma AppendJSON_empty_bytes_counterexample :
  slice_len (VUints Kuint8 (Some [])) = Some (Some 0%nat)
  /\ AppendJSON empty_Builder (VUints Kuint8 (Some []))
     = Some (mkBuilder [quote; quote], nil_error)
  /\ AppendJSON empty_Builder (VUints Kuint8 (Some []))
     <> Some (mkBuilder (B "[]"), nil_error).
Proof. repeat split; vm_compute; solve [reflexivity | discriminate]. Qed.

(** C9, as stated, fails: the sink takes one byte less than the rendered
    entry and reports no error, and [ioCore.Write] returns nil. *)
Lemma ioCore_Write_short_counterexample :
  (fun r => fst (sink_Write short_sink [] (buf (fst r))) <? Z.of_nat (length (buf (fst r))))
    <$> jsonEncoder_Encode Lshortfile getBuilder e_info
  = Some true
  /\ Core_Write (NewCore (jsonEncoder Lshortfile) (sinkWriter short_sink) all_levels)
       e_info []
     = (fun r => ([EvWrite 3 (buf (fst r))], nil_error))
         <$> jsonEncoder_Encode Lshortfile getBuilder e_info.
Proof. split; vm_compute; reflexivity. Qed.

(** The fanout of a fanout and a core, flattened. *)
Lemma NewTee_shapes_witness :
  Forall (fun c : Core => is_multiCore c = false)
    [NewCore (jsonEncoder 0) (sinkWriter good_sink) all_levels;
     NewCore (consoleEncoder 0) (sinkWriter good_sink) all_levels;
     nopCore].
Proof.
  refine (proj2 (proj2 (proj2 NewTee_shapes))
            [NewTee [NewCore (jsonEncoder 0) (sinkWriter good_sink) all_levels;
                     NewCore (consoleEncoder 0) (sinkWriter good_sink) all_levels];
             nopCore] _ _ (NewTee_levels _ _) _).
  - repeat constructor.
  - reflexivity.
Defined.

Lemma Enabled_out_of_range_witness :
  (_maxLevel + 1 < _minLevel \/ _maxLevel < _maxLevel + 1)
  /\ Core_Enabled
       (NewTee [NewCore (jsonEncoder 0) (sinkWriter good_sink) all_levels;
                NewCore (consoleEncoder 0) (sinkWriter good_sink) all_levels])
       (_maxLevel + 1)
     = false.
Proof.
  assert (H : _maxLevel + 1 < _minLevel \/ _maxLevel < _maxLevel + 1)
    by (right; reflexivity).
  split; [exact H|].
  apply (proj1 (proj2 (proj2 (Enabled_out_of_range (_maxLevel + 1) H)))).
  simpl. lia.
Defined.


Lemma AppendJSON_slices_witness :
  AppendJSON empty_Builder (VInts Kint None) = Some (mkBuilder (B "null"), nil_error)
  /\ AppendJSON empty_Builder (VStrings (Some [])) = Some (mkBuilder (B "[]"), nil_error)
  /\ AppendJSON empty_Builder (VUints Kuint8 (Some [100; 110; 120]))
     = Some (mkBuilder (quote :: B "ZG54" ++ [quote]), nil_error).
Proof.
  split; [|split].
  - apply (proj1 (AppendJSON_slices empty_Builder (VInts Kint None))). reflexivity.
  - apply (proj1 (proj2 (AppendJSON_slices empty_Builder (VStrings (Some [])))));
      reflexivity.
  - apply (proj2 (proj2 (AppendJSON_slices empty_Builder
                           (VUints Kuint8 (Some [100; 110; 120]))))
             [100; 110; 120]).
    reflexivity.
Defined.

Lemma short_write_outcomes_witness :
  snd (snd (Writer_Write (multiWriter [sinkWriter good_sink; sinkWriter short_sink] [])
              (B "line") []))
  <> nil_error.
Proof.
  apply (proj1 short_write_outcomes [sinkWriter good_sink; sinkWriter short_sink] []
           (B "line") [] (sinkWriter short_sink)).
  - right; left; reflexivity.
  - intros h0. exists (h0 ++ [EvWrite 3 (B "line")]), 3. split; [reflexivity | discriminate].
Defined.

Lemma ioCore_Write_first_error_witness :
  ioCore_Write failing_encoder (sinkWriter good_sink) None e_error []
  = Some ([], plain_error "encode failed").
Proof.
  apply (proj1 (ioCore_Write_first_error failing_encoder (sinkWriter good_sink) None
                  e_error [] getBuilder (plain_error "encode failed") eq_refl)).
  discriminate.
Defined.

(** The reference renderings on the inputs of the repository's tests. *)
Lemma AppendTime_matches_layout_witness :
  AppendTime empty_Builder t_2019 Trfc3339Nano
  = Some (mkBuilder (B "2019-01-18T12:00:35.000009876Z")).
Proof.
  apply (AppendTime_matches_layout empty_Builder t_2019 Trfc3339Nano).
  - unfold valid_time; simpl; lia.
  - simpl; lia.
  - unfold layout_flags. do 11 right. left. reflexivity.
Defined.

Lemma AppendDuration_matches_humane_witness :
  AppendDuration empty_Builder 91989993334522
  = Some (mkBuilder (B "25h33m9.993334522s")).
Proof.
  apply (AppendDuration_matches_humane empty_Builder 91989993334522); [lia | discriminate].
Defined.

(** The caller of the repository's test of [NewEntryCaller]. *)
Example NewEntryCaller_test :
  File (snd (NewEntryCaller [] 4096 (B "/go/src/github.com/cnotch/xlog/entry_test.go") 14 true))
  = B "github.com/cnotch/xlog/entry_test.go".
Proof. vm_compute. reflexivity. Qed.

(** The console timestamp of an entry logged west of UTC. *)
Lemma AppendTime_console_flags_witness :
  AppendTime empty_Builder t_west (timeFlags (Z.lor LstdFlags Lmicroseconds))
  = Some (mkBuilder (B "2019-01-18 12:00:35.000000")).
Proof.
  apply (AppendTime_console_flags empty_Builder t_west (Z.lor LstdFlags Lmicroseconds)).
  unfold valid_time; simpl; lia.
Defined.

Lemma Truncate_rolls_back_witness :
  Builder_Truncate (AppendQuote (mkBuilder (B "{")) (B "key")) 1 = Some (mkBuilder (B "{")).
Proof.
  apply (proj1 (Truncate_rolls_back (mkBuilder (B "{")))
           (AppendQuote (mkBuilder (B "{")) (B "key")) (quote :: B "key" ++ [quote])).
  reflexivity.
Defined.

Lemma AppendQuote_safe_verbatim_witness :
  AppendHTMLQuote empty_Builder (B "info message")
  = mkBuilder (quote :: B "info message" ++ [quote]).
Proof.
  apply (proj2 (AppendQuote_safe_verbatim empty_Builder (B "info message"))).
  repeat constructor.
Defined.


Lemma AppendJSON_error_only_by_reflection_witness :
  AppendJSON empty_Builder (VInt Kint 100) = Some (mkBuilder (B "100"), nil_error)
  /\ nil_error = nil_error.
Proof.
  split; [reflexivity|].
  apply (AppendJSON_error_only_by_reflection empty_Builder (mkBuilder (B "100"))
           (VInt Kint 100) nil_error); reflexivity.
Defined.

Lemma AppendJSON_pointers_witness :
  AppendJSON empty_Builder (VPInt Kint None) = None
  /\ AppendJSON empty_Builder (VPString (Some (B "ok")))
     = AppendJSON empty_Builder (VString (B "ok")).
Proof.
  split.
  - apply (proj1 (AppendJSON_pointers empty_Builder (VPInt Kint None))). reflexivity.
  - apply (proj2 (AppendJSON_pointers empty_Builder (VPString (Some (B "ok"))))).
    reflexivity.
Defined.

Lemma Field_appendTo_rejected_witness :
  Field_appendTo empty_Builder (F (B "k") (VOther (ET := demo_types) tt))
  = Some (mkBuilder (quote :: B "k" ++ [quote; ":"%char])).
Proof.
  apply (@Field_appendTo_rejected demo_types demo_externals empty_Builder (B "k") tt).
  discriminate.
Defined.

Lemma callerFile_last_element_witness :
  callerFile (B "github.com/cnotch/xlog/core_test.go") Lshortfile = B "core_test.go".
Proof.
  apply (proj1 (proj2 (callerFile_last_element (B "github.com/cnotch/xlog/core_test.go")
                         Lshortfile) eq_refl)
           (B "github.com/cnotch/xlog") (B "core_test.go")).
  - reflexivity.
  - discriminate.
  - repeat constructor.
Defined.



Lemma error_Error_combineErrors_witness :
  error_Error (combineErrors (plain_error "disk full") (plain_error "sync failed"))
  = Some (B "disk full; sync failed").
Proof.
  apply (error_Error_combineErrors (plain_error "disk full") (plain_error "sync failed"));
    discriminate.
Defined.

(** A core that is enabled from the Error level up and a core that is
    enabled at every level: their fanout is enabled at the Info level. *)
Lemma NewTee_Enabled_some_child_witness :
  Core_Enabled
    (NewTee [NewCore (jsonEncoder 0) (sinkWriter good_sink) (fun lvl => ErrorLevel <=? lvl);
             NewCore (consoleEncoder 0) (sinkWriter failing_sink) all_levels])
    InfoLevel
  = true.
Proof.
  apply (NewTee_Enabled_some_child
           [NewCore (jsonEncoder 0) (sinkWriter good_sink) (fun lvl => ErrorLevel <=? lvl);
            NewCore (consoleEncoder 0) (sinkWriter failing_sink) all_levels]
           InfoLevel).
  - repeat constructor.
  - unfold _minLevel, _maxLevel, DebugLevel, FatalLevel, InfoLevel. lia.
Defined.

(** A fanout over a sink whose core enables every level and a failing sink
    whose core enables none: both are written, and the error is the one of
    the failing sink. *)
Lemma NewTee_Write_all_sinks_witness :
  exists err,
    Core_Write (NewTee [NewCore message_encoder (sinkWriter good_sink) all_levels;
                        NewCore message_encoder (sinkWriter failing_sink) no_level])
      e_info []
    = Some ([EvWrite 1 (B "info message" ++ [newline]);
             EvWrite 2 (B "info message" ++ [newline])], err)
    /\ errors_of err = [plain_error "disk full"]
    /\ is_nil err = false.
Proof.
  apply (NewTee_Write_all_sinks message_encoder e_info
           (mkBuilder (B "info message" ++ [newline]))
           [(good_sink, all_levels); (failing_sink, no_level)] []).
  - reflexivity.
  - reflexivity.
Defined.


(** A panic-level call on a logger without a core writes nothing and
    panics with the message. *)
Lemma Logger_log_outcome_witness :
  Logger_log (New None [Named (B "db")]) 2 PanicLevel (B "boom") [] [] [] []
  = Some ([], [], Panics (B "boom")).
Proof.
  apply (proj1 (Logger_log_outcome (New None [Named (B "db")]) 2 PanicLevel (B "boom")
                  [] [] [] [])).
  reflexivity.
Defined.

Lemma AppendJSON_arrays_witness :
  AppendJSON empty_Builder (VInts Kint (Some [1; 2; 3]))
  = Some (mkBuilder (B "[1,2,3]"), nil_error).
Proof.
  apply (AppendJSON_arrays empty_Builder (VInts Kint (Some [1; 2; 3]))
           [B "1"; B "2"; B "3"]).
  reflexivity.
Defined.

Lemma ReplaceGlobal_restores_witness :
  Restore_call (snd (ReplaceGlobal 1%nat 2%nat)) 3%nat = 1%nat.
Proof.
  apply (proj1 (proj2 (proj2 (proj2 (ReplaceGlobal_restores 1%nat 2%nat 2%nat))))).
  discriminate.
Defined.
